(** * Recipe Creator: matching engine and model-response normaliser

    A shallow embedding of [src/utils/recipeEngine.ts] and of the LLM
    utilities ([generateRecipesWithLlm] and its helpers), followed by the
    properties of the specification that were checked against them.

    Conventions of the embedding.
    - A JavaScript [number] that the typed code computes with is an exact
      rational ([Q]), and [Math.round] is [floor (x + 1/2)], ties going up
      as in ECMAScript.  Where the rounding of binary64 decides a result,
      in [pantryFitPercent], the division and the multiplication are those
      of doubles: the exact result rounded to the nearest double ([JS.fl]).
      Elsewhere binary64 rounding error is not modelled.  A number that
      comes from outside the typed code may also be [NaN] or infinite
      ([Json.number]).
    - A JavaScript string is a [string] of 8-bit characters; the character
      classes of the regular expressions are the ASCII ones.
    - Enum-typed fields ([Unit], [Difficulty], [DietaryTag], ...) are kept
      as strings, as they are at run time: membership in the allowed set is
      something to prove, never a consequence of typing.
    - Code that may throw returns a [Result].
    - The two effects of the orchestrator are parameters: the transport
      (what [fetch] answers to the request with and without the schema)
      and the identifiers that [crypto.randomUUID] draws. *)

From Stdlib Require Import ZArith QArith Qround Qminmax Qabs Qpower Lqa.
From Stdlib Require Import List String Ascii DecimalString Bool Arith Lia.
From Stdlib Require Import Permutation Sorted.
Import ListNotations.

Local Open Scope string_scope.
Local Open Scope list_scope.

(* ================================================================= *)
(** ** JavaScript primitives used by the sources *)

Module JS.

Definition code (c : ascii) : nat := nat_of_ascii c.

(** The double quote character *)
Definition dquote : ascii := ascii_of_nat 34.

Definition between (lo hi : nat) (c : ascii) : bool :=
  (lo <=? code c)%nat && (code c <=? hi)%nat.

(** [\s] restricted to ASCII: TAB, LF, VT, FF, CR and SPACE. *)
Definition isSpace (c : ascii) : bool :=
  between 9 13 c || (code c =? 32)%nat.

Definition isDigit (c : ascii) : bool := between 48 57 c.
Definition isLower (c : ascii) : bool := between 97 122 c.
Definition isUpper (c : ascii) : bool := between 65 90 c.

Definition lowerChar (c : ascii) : ascii :=
  if isUpper c then ascii_of_nat (code c + 32) else c.

Fixpoint mapChars (f : ascii -> ascii) (s : string) : string :=
  match s with
  | EmptyString => EmptyString
  | String c rest => String (f c) (mapChars f rest)
  end.

(** [String.prototype.toLowerCase] *)
Definition toLowerCase (s : string) : string := mapChars lowerChar s.

Fixpoint trimStart (s : string) : string :=
  match s with
  | String c rest => if isSpace c then trimStart rest else s
  | EmptyString => EmptyString
  end.

Fixpoint trimEnd (s : string) : string :=
  match s with
  | EmptyString => EmptyString
  | String c rest =>
      match trimEnd rest with
      | EmptyString => if isSpace c then EmptyString else String c EmptyString
      | kept => String c kept
      end
  end.

(** [String.prototype.trim] *)
Definition trim (s : string) : string := trimEnd (trimStart s).

(** [s.startsWith(p)] *)
Fixpoint startsWith (s p : string) : bool :=
  match p, s with
  | EmptyString, _ => true
  | String a p', String b s' => Ascii.eqb a b && startsWith s' p'
  | String _ _, EmptyString => false
  end.

(** [s.includes(t)] *)
Fixpoint includes (s t : string) : bool :=
  startsWith s t
  || match s with
     | EmptyString => false
     | String _ rest => includes rest t
     end.

(** [s.indexOf(t)], [None] standing for [-1]. *)
Fixpoint indexOf (s t : string) : option nat :=
  if startsWith s t then Some 0%nat
  else match s with
       | EmptyString => None
       | String _ rest => option_map S (indexOf rest t)
       end.

(** [s.lastIndexOf(t)], [None] standing for [-1]. *)
Fixpoint lastIndexOf (s t : string) : option nat :=
  match s with
  | EmptyString => if startsWith s t then Some 0%nat else None
  | String _ rest =>
      match lastIndexOf rest t with
      | Some i => Some (S i)
      | None => if startsWith s t then Some 0%nat else None
      end
  end.

(** [s.slice(n)] for [0 <= n] *)
Fixpoint drop (n : nat) (s : string) : string :=
  match n, s with
  | S n', String _ rest => drop n' rest
  | _, _ => s
  end.

(** [s.slice(from, to)] for [0 <= from] and [0 <= to]. *)
Definition slice (s : string) (from to : nat) : string :=
  substring from (to - from) s.

(** A JavaScript value is falsy when it is the empty string. *)
Definition nonEmpty (s : string) : bool :=
  match s with EmptyString => false | _ => true end.

(** [Math.round]: the nearest integer, ties towards plus infinity. *)
Definition Math_round (x : Q) : Q := inject_Z (Qfloor (x + (1 # 2))).

(** [floor (log2 x)] for a positive rational [x] *)
Definition ilog2 (x : Q) : Z :=
  let d := (Z.log2 (Qnum x) - Z.log2 (Zpos (Qden x)))%Z in
  if Qle_bool (2 ^ d) x then d else (d - 1)%Z.

(** The nearest integer, the even one of the two at a tie *)
Definition roundHalfEven (x : Q) : Z :=
  let f := Qfloor x in
  match Qcompare (x - inject_Z f) (1 # 2) with
  | Lt => f
  | Gt => (f + 1)%Z
  | Eq => if Z.even f then f else (f + 1)%Z
  end.

(** The double nearest to [x], ties going to the even significand: with
    [e] the exponent that puts the significand [x / 2^e] between [2^52]
    and [2^53], the significand is rounded to an integer.  The range of
    the exponent is not limited: the magnitudes that occur stay far from
    overflow and from the subnormal numbers. *)
Definition fl (x : Q) : Q :=
  match Qcompare 0 x with
  | Lt => let e := (ilog2 x - 52)%Z in
          (inject_Z (roundHalfEven (x / 2 ^ e)) * 2 ^ e)%Q
  | Eq => 0%Q
  | Gt => let e := (ilog2 (- x) - 52)%Z in
          (- (inject_Z (roundHalfEven (- x / 2 ^ e)) * 2 ^ e))%Q
  end.

(** [x / y] and [x * y] on doubles *)
Definition fdiv (x y : Q) : Q := fl (x / y).
Definition fmul (x y : Q) : Q := fl (x * y).

Definition Math_max (x y : Q) : Q := Qmax x y.
Definition Math_min (x y : Q) : Q := Qmin x y.

(** [x <= y], [x >= y] and [x > y] on numbers *)
Definition le (x y : Q) : bool := Qle_bool x y.
Definition ge (x y : Q) : bool := Qle_bool y x.
Definition gt (x y : Q) : bool := negb (Qle_bool x y).

Definition ofNat (n : nat) : Q := inject_Z (Z.of_nat n).

(** [xs.slice(0, k)] on arrays, for a number [k]: the end index is
    truncated towards zero, and a negative one counts from the end. *)
Definition arraySlice0 {A} (xs : list A) (k : Q) : list A :=
  let t := Z.quot (Qnum k) (Zpos (Qden k)) in
  if (t <? 0)%Z then firstn (List.length xs - Z.to_nat (- t)) xs
  else firstn (Z.to_nat t) xs.

End JS.

(* ================================================================= *)
(** ** The data model ([types.ts]) *)

Record Ingredient := mkIngredient {
  name : string;
  quantity : Q;
  unit : string;
  optional : option bool;
  notes : option string
}.

Record MethodStep := mkMethodStep {
  text : string;
  timerMinutes : option Q;
  stepNotes : option string;
  temperatureC : option Q;
  gasMark : option string
}.

Record Recipe := mkRecipe {
  id : string;
  title : string;
  description : string;
  cuisine : string;
  difficulty : string;
  cookTimeMinutes : Q;
  servings : Q;
  dietaryTags : list string;
  allergens : list string;
  equipment : list string;
  ingredients : list Ingredient;
  steps : list MethodStep;
  swapSuggestions : list string;
  tips : list string;
  source : option string
}.

Record Preferences := mkPreferences {
  prefServings : Q;
  maxCookTime : Q;
  prefCuisine : string;
  dietary : list string;
  allergensToAvoid : list string;
  prefEquipment : list string
}.

(** [xs.includes(x)] on an array of strings *)
Definition includesStr (xs : list string) (x : string) : bool :=
  existsb (String.eqb x) xs.

(* ================================================================= *)
(** ** [recipeEngine.ts] *)

Module Engine.

Definition UNIT_OPTIONS : list string :=
  ["g"; "kg"; "ml"; "litres"; "tbsp"; "tsp"; "clove"; "whole"; "pinch";
   "slice"; "can"; "cup"].

Definition ALLERGEN_OPTIONS : list string :=
  ["dairy"; "eggs"; "fish"; "gluten"; "nuts"; "shellfish"; "soy"].

Definition DIETARY_OPTIONS : list string :=
  ["vegetarian"; "vegan"; "gluten-free"].

(** [.replace(/[^a-z0-9\s-]/g, ' ')] *)
Definition keepChar (c : ascii) : ascii :=
  if JS.isLower c || JS.isDigit c || JS.isSpace c || Ascii.eqb c "-"%char
  then c else " "%char.

(** [.replace(/\s+/g, ' ')]: every maximal run of white space becomes
    one space. *)
Fixpoint collapseFrom (inRun : bool) (s : string) : string :=
  match s with
  | EmptyString => EmptyString
  | String c rest =>
      if JS.isSpace c
      then if inRun then collapseFrom true rest
           else String " "%char (collapseFrom true rest)
      else String c (collapseFrom false rest)
  end.

Definition collapseSpaces (s : string) : string := collapseFrom false s.

Definition normaliseText (value : string) : string :=
  JS.trim (collapseSpaces (JS.mapChars keepChar (JS.toLowerCase value))).

Definition containsToken (source token : string) : bool :=
  let normalizedSource := (" " ++ normaliseText source ++ " ")%string in
  let normalizedToken := (" " ++ normaliseText token ++ " ")%string in
  JS.includes normalizedSource normalizedToken.

Definition dietarySatisfied (recipe : Recipe) (requested : list string) : bool :=
  match requested with
  | [] => true
  | _ =>
      forallb
        (fun tag =>
           if String.eqb tag "vegetarian"
           then includesStr (dietaryTags recipe) "vegetarian"
                || includesStr (dietaryTags recipe) "vegan"
           else includesStr (dietaryTags recipe) tag)
        requested
  end.

Definition equipmentSatisfied (recipe : Recipe) (available : list string) : bool :=
  match available with
  | [] => true
  | _ => forallb (fun item => includesStr available item) (equipment recipe)
  end.

Definition cuisineSatisfied (recipe : Recipe) (wanted : string) : bool :=
  if negb (JS.nonEmpty (JS.trim wanted)) then true
  else JS.includes (normaliseText (cuisine recipe)) (normaliseText wanted).

Definition allergenSatisfied (recipe : Recipe) (blocked : list string) : bool :=
  match blocked with
  | [] => true
  | _ => negb (existsb (fun allergen => includesStr blocked allergen)
                       (allergens recipe))
  end.

Definition hasIngredient (ingredientName : string) (pantryItems : list string) : bool :=
  match pantryItems with
  | [] => false
  | _ =>
      existsb
        (fun item =>
           let normalizedPantry := normaliseText item in
           let normalizedIngredient := normaliseText ingredientName in
           containsToken normalizedPantry normalizedIngredient
           || containsToken normalizedIngredient normalizedPantry)
        pantryItems
  end.

Definition missingIngredients (recipe : Recipe) (pantryItems : list string)
  : list Ingredient :=
  filter (fun ingredient => negb (hasIngredient (name ingredient) pantryItems))
         (ingredients recipe).

Definition pantryFitPercent (recipe : Recipe) (pantryItems : list string) : Q :=
  if (List.length (ingredients recipe) =? 0)%nat then 0%Q
  else
    let missingCount := List.length (missingIngredients recipe pantryItems) in
    let fit :=
      JS.fmul
        (JS.fdiv
           (JS.ofNat (List.length (ingredients recipe)) - JS.ofNat missingCount)
           (JS.ofNat (List.length (ingredients recipe))))
        100 in
    JS.Math_max 0 (JS.Math_min 100 (JS.Math_round fit)).

Record Scored := mkScored {
  recipe : Recipe;
  score : Q;
  strictMatch : bool
}.

Definition scoreRecipe (recipe : Recipe) (pantryItems : list string)
           (preferences : Preferences) : Scored :=
  let ingredientTotal := List.length (ingredients recipe) in
  let missingTotal := List.length (missingIngredients recipe pantryItems) in
  let pantryCoverage :=
    if (ingredientTotal =? 0)%nat then 0%Q
    else ((JS.ofNat ingredientTotal - JS.ofNat missingTotal)
          / JS.ofNat ingredientTotal)%Q in
  let timeMatch := JS.le (cookTimeMinutes recipe) (maxCookTime preferences) in
  let cuisineMatch := cuisineSatisfied recipe (prefCuisine preferences) in
  let dietaryMatch := dietarySatisfied recipe (dietary preferences) in
  let equipmentMatch := equipmentSatisfied recipe (prefEquipment preferences) in
  let score := (pantryCoverage * 100)%Q in
  let score :=
    (score + (if timeMatch then 12
              else JS.Math_max (-12)
                     ((maxCookTime preferences - cookTimeMinutes recipe) / 5)))%Q in
  let score := (score + (if cuisineMatch then 8 else -4))%Q in
  let score := (score + (if dietaryMatch then 10 else -50))%Q in
  let score := (score + (if equipmentMatch then 8 else -30))%Q in
  {| recipe := recipe;
     score := score;
     strictMatch := timeMatch && cuisineMatch && dietaryMatch && equipmentMatch |}.

(** [scored.sort((a, b) => b.score - a.score)]: [Array.prototype.sort]
    is stable, so it is the insertion of each entry before the first
    later entry that the comparator puts strictly after it. *)
Fixpoint insertByScore (entry : Scored) (sorted : list Scored) : list Scored :=
  match sorted with
  | [] => [entry]
  | other :: rest =>
      if JS.gt (score other - score entry)%Q 0
      then other :: insertByScore entry rest
      else entry :: sorted
  end.

Definition sortByScore (entries : list Scored) : list Scored :=
  fold_right insertByScore [] entries.

(** One turn of the [scored.forEach] loop that backfills [selected]. *)
Definition backfillStep (selected : list Recipe) (entry : Scored) : list Recipe :=
  if (6 <=? List.length selected)%nat then selected
  else if existsb (fun chosen => String.eqb (id chosen) (id (recipe entry))) selected
       then selected
       else selected ++ [recipe entry].

Definition backfill (scored : list Scored) (selected : list Recipe) : list Recipe :=
  fold_left backfillStep scored selected.

Definition generateRecipeOptions (recipes : list Recipe) (pantryItems : list string)
           (preferences : Preferences) : list Recipe :=
  let allergenSafe :=
    filter (fun recipe => allergenSatisfied recipe (allergensToAvoid preferences))
           recipes in
  let scored :=
    sortByScore (map (fun recipe => scoreRecipe recipe pantryItems preferences)
                     allergenSafe) in
  let selected := map recipe (firstn 6 (filter strictMatch scored)) in
  let selected :=
    if (List.length selected <? 3)%nat then backfill scored selected else selected in
  if (List.length selected <? 3)%nat
  then firstn (Nat.min 3 (List.length allergenSafe)) allergenSafe
  else firstn 6 selected.

Definition roundQuantity (value : Q) : Q :=
  if JS.ge value 50 then JS.Math_round value
  else if JS.ge value 10 then (JS.Math_round (value * 2) / 2)%Q
  else (JS.Math_round (value * 10) / 10)%Q.

Definition scaleIngredients (ingredients : list Ingredient)
           (currentServings targetServings : Q) : list Ingredient :=
  if JS.le currentServings 0 || JS.le targetServings 0 then ingredients
  else
    let factor := (targetServings / currentServings)%Q in
    map (fun ingredient =>
           {| name := name ingredient;
              quantity := roundQuantity (quantity ingredient * factor);
              unit := unit ingredient;
              optional := optional ingredient;
              notes := notes ingredient |})
        ingredients.

(** *** The rest of [recipeEngine.ts] *)

Definition swapDictionary : list (string * string) :=
  [ ("yogurt", "Swap yogurt for creme fraiche, or coconut yogurt for dairy-free.");
    ("yoghurt", "Swap yoghurt for creme fraiche, or coconut yoghurt for dairy-free.");
    ("creme fraiche", "Swap creme fraiche for Greek yogurt or oat creme for dairy-free.");
    ("milk", "Swap milk for oat milk or soy milk 1:1.");
    ("butter", "Swap butter for olive oil or plant-based baking block.");
    ("cream", "Swap cream for creme fraiche, or oat cream for dairy-free.");
    ("egg", "Swap each egg for 1 tbsp ground flaxseed plus 3 tbsp water in binding recipes.");
    ("eggs", "Swap eggs for flaxseed gel when binding is needed.");
    ("cheddar", "Swap cheddar for a mature dairy-free cheese alternative.");
    ("parmesan", "Swap parmesan for nutritional yeast plus a pinch of salt.");
    ("tofu", "Swap tofu for chickpeas in stews and curries.");
    ("chickpeas", "Swap chickpeas for cannellini beans or butter beans.");
    ("flour", "Swap plain flour for a gluten-free flour blend.");
    ("pasta", "Swap wheat pasta for gluten-free pasta made with maize and rice.") ].

(** A [Set<string>] is the list of its members in insertion order;
    [set.add(x)] appends [x] unless it is a member already. *)
Definition setAdd (set : list string) (x : string) : list string :=
  if includesStr set x then set else set ++ [x].

(** [new Set(xs)] *)
Definition newSet (xs : list string) : list string := fold_left setAdd xs [].

(** One turn of the [forEach] of [normalisePantryItems]; the state is
    the set [seen] and the array [cleaned]. *)
Definition pantryStep (state : list string * list string) (item : string)
  : list string * list string :=
  let normalized := normaliseText item in
  if negb (JS.nonEmpty normalized) || includesStr (fst state) normalized
  then state
  else (setAdd (fst state) normalized, snd state ++ [JS.trim item]).

Definition normalisePantryItems (pantryItems : list string) : list string :=
  snd (fold_left pantryStep pantryItems ([], [])).

Definition veganHint : string :=
  "For creamy sauces, use oat cream or blended cashews instead of dairy.".

Definition missingHint : string :=
  "Missing an ingredient? Try a same-family swap (bean for bean, herb for herb).".

(** The inner [Object.entries(swapDictionary).forEach] for one
    ingredient name. *)
Definition addDictionarySwaps (suggestions : list string) (ingredientName : string)
  : list string :=
  fold_left
    (fun set entry =>
       if JS.includes ingredientName (fst entry) then setAdd set (snd entry) else set)
    swapDictionary suggestions.

Definition buildSwapSuggestions (recipe : Recipe) (dietary : list string)
           (pantryItems : list string) : list string :=
  let suggestions := newSet (swapSuggestions recipe) in
  let suggestions :=
    fold_left
      (fun set ingredient => addDictionarySwaps set (normaliseText (name ingredient)))
      (ingredients recipe) suggestions in
  let suggestions :=
    if includesStr dietary "vegan" then setAdd suggestions veganHint
    else suggestions in
  let missing := missingIngredients recipe pantryItems in
  let suggestions :=
    if (0 <? List.length missing)%nat then setAdd suggestions missingHint
    else suggestions in
  firstn 6 suggestions.

Section ShoppingList.

(** [a.localeCompare(b)], which depends on the locale of the host. *)
Variable localeCompare : string -> string -> Z.

(** [names.sort((a, b) => a.localeCompare(b))], stable as
    [Array.prototype.sort] is. *)
Fixpoint insertByName (x : string) (sorted : list string) : list string :=
  match sorted with
  | [] => [x]
  | y :: rest =>
      if (0 <? localeCompare x y)%Z then y :: insertByName x rest
      else x :: sorted
  end.

Definition sortByName (names : list string) : list string :=
  fold_right insertByName [] names.

Definition buildShoppingList (recipes : list Recipe) (pantryItems : list string)
  : list string :=
  let neededItems :=
    fold_left
      (fun set recipe =>
         fold_left (fun set' ingredient => setAdd set' (name ingredient))
                   (missingIngredients recipe pantryItems) set)
      recipes [] in
  sortByName neededItems.

End ShoppingList.

End Engine.

(* ================================================================= *)
(** ** Untyped values, exceptions and [JSON.parse] *)

Module Json.

(** A number as an untyped value may carry: finite, or one of the
    three non-finite doubles. *)
Inductive number :=
| Finite (q : Q)
| PosInfinity
| NegInfinity
| NaN.

(** [Math.min] and [Math.max] on such numbers: [NaN] as soon as an
    argument is [NaN]. *)
Definition Math_min (x y : number) : number :=
  match x with
  | NaN => NaN
  | NegInfinity => match y with NaN => NaN | _ => NegInfinity end
  | PosInfinity => y
  | Finite a =>
      match y with
      | NaN => NaN
      | NegInfinity => NegInfinity
      | PosInfinity => Finite a
      | Finite b => Finite (JS.Math_min a b)
      end
  end.

Definition Math_max (x y : number) : number :=
  match x with
  | NaN => NaN
  | PosInfinity => match y with NaN => NaN | _ => PosInfinity end
  | NegInfinity => y
  | Finite a =>
      match y with
      | NaN => NaN
      | PosInfinity => PosInfinity
      | NegInfinity => Finite a
      | Finite b => Finite (JS.Math_max a b)
      end
  end.

(** [xs.slice(0, k)] for any number [k]: the end index goes through
    [ToIntegerOrInfinity], which sends [NaN] to 0. *)
Definition slice0 {A} (xs : list A) (k : number) : list A :=
  match k with
  | Finite q => JS.arraySlice0 xs q
  | PosInfinity => xs
  | NegInfinity | NaN => []
  end.

#[local] Unset Elimination Schemes.
Inductive value :=
| Undefined
| Null
| Bool (b : bool)
| Num (n : number)
| Str (s : string)
| Arr (items : list value)
| Obj (fields : list (string * value)).
#[local] Set Elimination Schemes.

Inductive exception :=
| SyntaxError
| TypeError
| Error (message : string).

Inductive Result (A : Type) :=
| Ok (a : A)
| Throw (e : exception).
Arguments Ok {A} a.
Arguments Throw {A} e.

Definition bind {A B} (r : Result A) (k : A -> Result B) : Result B :=
  match r with
  | Ok a => k a
  | Throw e => Throw e
  end.

(** [try { r } catch { handler }] *)
Definition tryCatch {A} (r : Result A) (handler : exception -> Result A) : Result A :=
  match r with
  | Ok a => Ok a
  | Throw e => handler e
  end.

(** [typeof v === 'object'] *)
Definition isObjectType (v : value) : bool :=
  match v with
  | Null | Arr _ | Obj _ => true
  | _ => false
  end.

(** [Boolean(v)] *)
Definition truthy (v : value) : bool :=
  match v with
  | Undefined | Null => false
  | Bool b => b
  | Num (Finite q) => negb (Qeq_bool q 0)
  | Num NaN => false
  | Num _ => true
  | Str s => JS.nonEmpty s
  | Arr _ | Obj _ => true
  end.

Definition isNullish (v : value) : bool :=
  match v with
  | Undefined | Null => true
  | _ => false
  end.

(** The own property [key] of an object; of two entries with the same
    key the later one is the property's value. *)
Definition lookup (key : string) (fields : list (string * value)) : value :=
  fold_left (fun found entry => if String.eqb (fst entry) key then snd entry else found)
            fields Undefined.

(** [v.key] for one of the property names the sources read: a
    [TypeError] on [null] and [undefined], the own property of an
    object, and [undefined] on arrays and primitives, which have no
    property of those names. *)
Definition get (v : value) (key : string) : Result value :=
  match v with
  | Undefined | Null => Throw TypeError
  | Obj fields => Ok (lookup key fields)
  | _ => Ok Undefined
  end.

(** [v?.key] *)
Definition getOpt (v : value) (key : string) : value :=
  match v with
  | Obj fields => lookup key fields
  | _ => Undefined
  end.

(** [v?.[0]] *)
Definition firstOpt (v : value) : value :=
  match v with
  | Arr (x :: _) => x
  | Str (String c _) => Str (String c EmptyString)
  | Obj fields => lookup "0" fields
  | _ => Undefined
  end.

(** *** Decimal literals *)

Fixpoint spanDigits (s : string) : string * string :=
  match s with
  | String c rest =>
      if JS.isDigit c
      then let (digits, after) := spanDigits rest in (String c digits, after)
      else (EmptyString, s)
  | EmptyString => (EmptyString, EmptyString)
  end.

Fixpoint digitsValue (acc : Z) (digits : string) : Z :=
  match digits with
  | EmptyString => acc
  | String c rest => digitsValue (acc * 10 + Z.of_nat (JS.code c - 48)) rest
  end.

Record Decimal := mkDecimal {
  intDigits : string;
  fracDigits : option string;
  exponent : option Z
}.

Definition scanExponent (s : string) : option Z * string :=
  match s with
  | String c rest =>
      if Ascii.eqb c "e" || Ascii.eqb c "E" then
        let (negative, unsigned) :=
          match rest with
          | String "-" r => (true, r)
          | String "+" r => (false, r)
          | _ => (false, rest)
          end in
        let (digits, after) := spanDigits unsigned in
        if JS.nonEmpty digits
        then (Some (if negative then (- digitsValue 0 digits)%Z
                    else digitsValue 0 digits), after)
        else (None, s)
      else (None, s)
  | EmptyString => (None, s)
  end.

Definition scanDecimal (s : string) : Decimal * string :=
  let (whole, r1) := spanDigits s in
  let (frac, r2) :=
    match r1 with
    | String "." r => let (digits, after) := spanDigits r in (Some digits, after)
    | _ => (None, r1)
    end in
  let (expo, r3) := scanExponent r2 in
  ({| intDigits := whole; fracDigits := frac; exponent := expo |}, r3).

Definition decimalValue (d : Decimal) : Q :=
  let frac := match fracDigits d with Some digits => digits | None => EmptyString end in
  let mantissa :=
    (inject_Z (digitsValue 0 (intDigits d))
     + inject_Z (digitsValue 0 frac)
       / inject_Z (10 ^ Z.of_nat (String.length frac)))%Q in
  let expo := match exponent d with Some e => e | None => 0%Z end in
  Qred (mantissa * Qpower 10 expo).

(** *** [Number(string)] *)

Definition radixDigit (radix : nat) (c : ascii) : option Z :=
  let v :=
    if JS.isDigit c then Some (JS.code c - 48)%nat
    else if JS.between 97 102 c then Some (JS.code c - 87)%nat
    else if JS.between 65 70 c then Some (JS.code c - 55)%nat
    else None in
  match v with
  | Some d => if (d <? radix)%nat then Some (Z.of_nat d) else None
  | None => None
  end.

Fixpoint radixValue (radix : nat) (acc : Z) (s : string) : option Z :=
  match s with
  | EmptyString => Some acc
  | String c rest =>
      match radixDigit radix c with
      | Some d => radixValue radix (acc * Z.of_nat radix + d) rest
      | None => None
      end
  end.

Definition radixLiteral (s : string) : option (nat * string) :=
  match s with
  | String "0" (String p digits) =>
      if Ascii.eqb p "x" || Ascii.eqb p "X" then Some (16%nat, digits)
      else if Ascii.eqb p "o" || Ascii.eqb p "O" then Some (8%nat, digits)
      else if Ascii.eqb p "b" || Ascii.eqb p "B" then Some (2%nat, digits)
      else None
  | _ => None
  end.

Definition Number_of_string (s : string) : number :=
  let t := JS.trim s in
  if negb (JS.nonEmpty t) then Finite 0
  else
    match radixLiteral t with
    | Some (radix, digits) =>
        if JS.nonEmpty digits
        then match radixValue radix 0 digits with
             | Some z => Finite (inject_Z z)
             | None => NaN
             end
        else NaN
    | None =>
        let (negative, unsigned) :=
          match t with
          | String "-" r => (true, r)
          | String "+" r => (false, r)
          | _ => (false, t)
          end in
        if String.eqb unsigned "Infinity"
        then (if negative then NegInfinity else PosInfinity)
        else
          let (d, rest) := scanDecimal unsigned in
          let hasDigits :=
            JS.nonEmpty (intDigits d)
            || match fracDigits d with Some f => JS.nonEmpty f | None => false end in
          if hasDigits && negb (JS.nonEmpty rest)
          then Finite (if negative then Qred (- decimalValue d) else decimalValue d)
          else NaN
    end.

(** *** [JSON.parse] *)

Definition isJsonSpace (c : ascii) : bool :=
  Ascii.eqb c " " || (JS.code c =? 9)%nat || (JS.code c =? 10)%nat
  || (JS.code c =? 13)%nat.

Fixpoint skipSpace (s : string) : string :=
  match s with
  | String c rest => if isJsonSpace c then skipSpace rest else s
  | EmptyString => EmptyString
  end.

(** The UTF-8 bytes of a code unit given by a [\uXXXX] escape. *)
Definition encodeUnit (n : nat) : string :=
  if (n <? 128)%nat then String (ascii_of_nat n) EmptyString
  else if (n <? 2048)%nat then
    String (ascii_of_nat (192 + n / 64))
           (String (ascii_of_nat (128 + n mod 64)) EmptyString)
  else
    String (ascii_of_nat (224 + n / 4096))
           (String (ascii_of_nat (128 + (n / 64) mod 64))
                   (String (ascii_of_nat (128 + n mod 64)) EmptyString)).

Definition hex4 (s : string) : option (nat * string) :=
  match s with
  | String a (String b (String c (String d rest))) =>
      match radixDigit 16 a, radixDigit 16 b, radixDigit 16 c, radixDigit 16 d with
      | Some x, Some y, Some z, Some w =>
          Some (Z.to_nat (((x * 16 + y) * 16 + z) * 16 + w), rest)
      | _, _, _, _ => None
      end
  | _ => None
  end.

(** The characters of a string literal after its opening quote. *)
Fixpoint parseChars (fuel : nat) (s : string) : option (string * string) :=
  match fuel with
  | O => None
  | S fuel' =>
      match s with
      | EmptyString => None
      | String c rest =>
          if Ascii.eqb c JS.dquote then Some (EmptyString, rest)
          else if Ascii.eqb c "\" then
            match rest with
            | String e rest' =>
                let simple (ch : ascii) :=
                  option_map (fun r => (String ch (fst r), snd r))
                             (parseChars fuel' rest') in
                if Ascii.eqb e JS.dquote then simple JS.dquote
                else if Ascii.eqb e "\" then simple "\"%char
                else if Ascii.eqb e "/" then simple "/"%char
                else if Ascii.eqb e "b" then simple (ascii_of_nat 8)
                else if Ascii.eqb e "f" then simple (ascii_of_nat 12)
                else if Ascii.eqb e "n" then simple (ascii_of_nat 10)
                else if Ascii.eqb e "r" then simple (ascii_of_nat 13)
                else if Ascii.eqb e "t" then simple (ascii_of_nat 9)
                else if Ascii.eqb e "u" then
                  match hex4 rest' with
                  | Some (n, after) =>
                      option_map (fun r => ((encodeUnit n ++ fst r)%string, snd r))
                                 (parseChars fuel' after)
                  | None => None
                  end
                else None
            | EmptyString => None
            end
          else if (JS.code c <? 32)%nat then None
          else option_map (fun r => (String c (fst r), snd r))
                          (parseChars fuel' rest)
      end
  end.

Definition parseNumber (s : string) : option (value * string) :=
  let (negative, unsigned) :=
    match s with
    | String "-" r => (true, r)
    | _ => (false, s)
    end in
  let (d, rest) := scanDecimal unsigned in
  let wholeOk :=
    match intDigits d with
    | EmptyString => false
    | String "0" (String _ _) => false
    | _ => true
    end in
  let fracOk :=
    match fracDigits d with Some f => JS.nonEmpty f | None => true end in
  if wholeOk && fracOk
  then Some (Num (Finite (if negative then Qred (- decimalValue d)
                          else decimalValue d)), rest)
  else None.

Definition literal (word : string) (v : value) (s : string)
  : option (value * string) :=
  if JS.startsWith s word
  then Some (v, JS.drop (String.length word) s)
  else None.

Fixpoint parseValue (fuel : nat) (s : string) : option (value * string) :=
  match fuel with
  | O => None
  | S fuel' =>
      match skipSpace s with
      | EmptyString => None
      | String c rest as trimmed =>
          if Ascii.eqb c "{" then
            match skipSpace rest with
            | String "}" after => Some (Obj [], after)
            | members => parseMembers fuel' members []
            end
          else if Ascii.eqb c "[" then
            match skipSpace rest with
            | String "]" after => Some (Arr [], after)
            | elements => parseElements fuel' elements []
            end
          else if Ascii.eqb c JS.dquote then
            option_map (fun r => (Str (fst r), snd r))
                       (parseChars (String.length rest) rest)
          else if Ascii.eqb c "t" then literal "true" (Bool true) trimmed
          else if Ascii.eqb c "f" then literal "false" (Bool false) trimmed
          else if Ascii.eqb c "n" then literal "null" Null trimmed
          else parseNumber trimmed
      end
  end

with parseElements (fuel : nat) (s : string) (done : list value)
     : option (value * string) :=
  match fuel with
  | O => None
  | S fuel' =>
      match parseValue fuel' s with
      | Some (v, rest) =>
          match skipSpace rest with
          | String "," more => parseElements fuel' more (v :: done)
          | String "]" after => Some (Arr (rev (v :: done)), after)
          | _ => None
          end
      | None => None
      end
  end

with parseMembers (fuel : nat) (s : string) (done : list (string * value))
     : option (value * string) :=
  match fuel with
  | O => None
  | S fuel' =>
      match skipSpace s with
      | String c rest =>
          if Ascii.eqb c JS.dquote then
            match parseChars (String.length rest) rest with
            | Some (key, afterKey) =>
                match skipSpace afterKey with
                | String ":" afterColon =>
                    match parseValue fuel' afterColon with
                    | Some (v, rest') =>
                        match skipSpace rest' with
                        | String "," more => parseMembers fuel' more ((key, v) :: done)
                        | String "}" after => Some (Obj (rev ((key, v) :: done)), after)
                        | _ => None
                        end
                    | None => None
                    end
                | _ => None
                end
            | None => None
            end
          else None
      | EmptyString => None
      end
  end.

(** [JSON.parse(text)]: one value, white space around it, nothing else. *)
Definition JSON_parse (text : string) : Result value :=
  match parseValue (2 * String.length text + 2) text with
  | Some (v, rest) =>
      match skipSpace rest with
      | EmptyString => Ok v
      | _ => Throw SyntaxError
      end
  | None => Throw SyntaxError
  end.

End Json.

(* ================================================================= *)
(** ** The LLM utilities *)

Module Llm.
Import Json.

Notation "x <- r ;; k" := (bind r (fun x => k))
  (at level 61, r at next level, right associativity).

Record AiSettings := mkAiSettings {
  apiKey : string;
  model : string;
  endpoint : string;
  creativity : Q
}.

Record RecipeRequestInput := mkRecipeRequestInput {
  pantryItems : list string;
  preferences : Preferences;
  goal : string;
  recipeCount : number;
  settings : AiSettings;
  refinementContext : option (Recipe * string)
}.

Definition difficultyValues : list string := ["Easy"; "Medium"; "Hard"].
Definition equipmentValues : list string := ["hob"; "oven"; "air-fryer"].

(** [new Set(options).has(v)] for an untyped [v] *)
Definition setHas (options : list string) (v : value) : bool :=
  match v with
  | Str s => includesStr options s
  | _ => false
  end.

Definition allowedUnitSet := setHas Engine.UNIT_OPTIONS.
Definition allowedDietarySet := setHas Engine.DIETARY_OPTIONS.
Definition allowedAllergenSet := setHas Engine.ALLERGEN_OPTIONS.
Definition allowedEquipmentSet := setHas equipmentValues.

(** [items.filter((item) => allowed.has(item))], the kept items read
    back as the strings they are. *)
Fixpoint keepAllowed (allowed : value -> bool) (items : list value) : list string :=
  match items with
  | [] => []
  | Str s :: rest =>
      if allowed (Str s) then s :: keepAllowed allowed rest
      else keepAllowed allowed rest
  | _ :: rest => keepAllowed allowed rest
  end.

Definition normalizeString (v : value) (fallback : string) : string :=
  match v with
  | Str s => JS.trim s
  | _ => fallback
  end.

Definition normalizeNumber (v : value) (fallback : Q) : Q :=
  match v with
  | Num (Finite q) => q
  | Str s =>
      match Number_of_string s with
      | Finite parsed => parsed
      | _ => fallback
      end
  | _ => fallback
  end.

(** [xs.map(f).filter(Boolean)] for an [f] that returns an object or [null] *)
Fixpoint filterMap {A B} (f : A -> option B) (xs : list A) : list B :=
  match xs with
  | [] => []
  | x :: rest =>
      match f x with
      | Some y => y :: filterMap f rest
      | None => filterMap f rest
      end
  end.

Definition normalizeIngredient (raw : value) : option Ingredient :=
  if negb (truthy raw) || negb (isObjectType raw) then None
  else
    let name := normalizeString (getOpt raw "name") "" in
    if negb (JS.nonEmpty name) then None
    else
      let unit :=
        match getOpt raw "unit" with
        | Str u => if allowedUnitSet (Str u) then u else "g"
        | _ => "g"
        end in
      Some {| name := name;
              quantity := JS.Math_max 0 (normalizeNumber (getOpt raw "quantity") 0);
              unit := unit;
              optional := Some (truthy (getOpt raw "optional"));
              notes := Some (normalizeString (getOpt raw "notes") "") |}.

Definition normalizeStep (raw : value) : option MethodStep :=
  if negb (truthy raw) || negb (isObjectType raw) then None
  else
    let text := normalizeString (getOpt raw "text") "" in
    if negb (JS.nonEmpty text) then None
    else
      let timerMinutes := normalizeNumber (getOpt raw "timerMinutes") 0 in
      let temperatureC := normalizeNumber (getOpt raw "temperatureC") 0 in
      Some {| text := text;
              timerMinutes := if JS.gt timerMinutes 0 then Some timerMinutes else None;
              stepNotes := Some (normalizeString (getOpt raw "notes") "");
              temperatureC := if JS.gt temperatureC 0 then Some temperatureC else None;
              gasMark := Some (normalizeString (getOpt raw "gasMark") "") |}.

(** [`${n}`] for a natural number *)
Definition decimal (n : nat) : string := NilEmpty.string_of_uint (Nat.to_uint n).

(** [xs.map((x) => normalizeString(x)).filter(Boolean)] *)
Definition normalizeStrings (items : list value) : list string :=
  filter JS.nonEmpty (map (fun item => normalizeString item "") items).

(** [normalizeRecipe(rawRecipe, index)]; [uuid] is what
    [crypto.randomUUID()] returns in this call. *)
Definition normalizeRecipe (rawRecipe : value) (index : nat) (uuid : string)
  : Result Recipe :=
  rawIngredients <- get rawRecipe "ingredients" ;;
  let ingredients :=
    match rawIngredients with
    | Arr items => filterMap normalizeIngredient items
    | _ => []
    end in
  let steps :=
    match getOpt rawRecipe "steps" with
    | Arr items => filterMap normalizeStep items
    | _ => []
    end in
  Ok {| id := "llm-" ++ uuid;
        title := normalizeString (getOpt rawRecipe "title")
                                 ("AI Recipe " ++ decimal (index + 1));
        description := normalizeString (getOpt rawRecipe "description")
                                       "AI-generated recipe.";
        cuisine := normalizeString (getOpt rawRecipe "cuisine") "Fusion";
        difficulty :=
          match getOpt rawRecipe "difficulty" with
          | Str d => if includesStr difficultyValues d then d else "Easy"
          | _ => "Easy"
          end;
        cookTimeMinutes :=
          JS.Math_max 5 (normalizeNumber (getOpt rawRecipe "cookTimeMinutes") 30);
        servings := JS.Math_max 1 (normalizeNumber (getOpt rawRecipe "servings") 4);
        dietaryTags :=
          match getOpt rawRecipe "dietaryTags" with
          | Arr items => keepAllowed allowedDietarySet items
          | _ => []
          end;
        allergens :=
          match getOpt rawRecipe "allergens" with
          | Arr items => keepAllowed allowedAllergenSet items
          | _ => []
          end;
        equipment :=
          match getOpt rawRecipe "equipment" with
          | Arr items => keepAllowed allowedEquipmentSet items
          | _ => ["hob"]
          end;
        ingredients :=
          if (0 <? List.length ingredients)%nat then ingredients
          else [ {| name := "water"; quantity := 500; unit := "ml";
                    optional := None; notes := None |} ];
        steps :=
          if (0 <? List.length steps)%nat then steps
          else [ {| text := "Prepare your ingredients and season to taste.";
                    timerMinutes := None; stepNotes := None;
                    temperatureC := None; gasMark := None |};
                 {| text := "Cook until done and serve hot.";
                    timerMinutes := None; stepNotes := None;
                    temperatureC := None; gasMark := None |} ];
        swapSuggestions :=
          match getOpt rawRecipe "swapSuggestions" with
          | Arr items => normalizeStrings items
          | _ => []
          end;
        tips :=
          match getOpt rawRecipe "tips" with
          | Arr items => normalizeStrings items
          | _ => []
          end;
        source := Some "llm" |}.

(** *** [extractJsonFromText] *)

Definition fence : string := "```".

(** The shortest capture after which [\s*```] matches. *)
Fixpoint lazyCapture (body : string) : option string :=
  if JS.startsWith (JS.trimStart body) fence then Some EmptyString
  else match body with
       | EmptyString => None
       | String c rest => option_map (String c) (lazyCapture rest)
       end.

(** What follows the leftmost [```], if there is one. *)
Fixpoint afterFence (s : string) : option string :=
  if JS.startsWith s fence then Some (JS.drop 3 s)
  else match s with
       | EmptyString => None
       | String _ rest => afterFence rest
       end.

(** [(?:json)?] with the [i] flag *)
Definition skipJsonTag (s : string) : string :=
  if JS.startsWith (JS.toLowerCase s) "json" then JS.drop 4 s else s.

(** Group 1 of [rawText.match(/```(?:json)?\s*([\s\S]*?)\s*```/i)], or
    [None] when the expression does not match. *)
Definition codeFenceMatch (rawText : string) : option string :=
  match afterFence rawText with
  | Some opened => lazyCapture (JS.trimStart (skipJsonTag opened))
  | None => None
  end.

Definition noJson : exception := Error "Model response did not include JSON.".

Definition extractJsonFromText (rawText : string) : Result value :=
  let directParse :=
    match JSON_parse rawText with
    | Ok parsed => parsed
    | Throw _ => Null
    end in
  if truthy directParse then Ok directParse
  else
    let fenced :=
      match codeFenceMatch rawText with
      | Some captured => if JS.nonEmpty captured then Some captured else None
      | None => None
      end in
    match fenced with
    | Some captured => JSON_parse captured
    | None =>
        match JS.indexOf rawText "{", JS.lastIndexOf rawText "}" with
        | Some start, Some finish =>
            if (start <? finish)%nat
            then JSON_parse (JS.slice rawText start (finish + 1))
            else Throw noJson
        | _, _ => Throw noJson
        end
    end.

(** *** The request and the orchestrator *)

Definition readContentFromResponse (responseJson : value) : Result string :=
  if negb (truthy responseJson) || negb (isObjectType responseJson)
  then Throw (Error "Unexpected API response shape.")
  else
    let fromOutputText :=
      match getOpt responseJson "output_text" with
      | Str s => if JS.nonEmpty (JS.trim s) then Some s else None
      | _ => None
      end in
    match fromOutputText with
    | Some s => Ok s
    | None =>
        let messageContent :=
          getOpt (getOpt (firstOpt (getOpt responseJson "choices")) "message")
                 "content" in
        match messageContent with
        | Str s =>
            if JS.nonEmpty (JS.trim s) then Ok s
            else Throw (Error "No model message content found.")
        | Arr entries =>
            let textChunks :=
              filter JS.nonEmpty
                (map (fun entry =>
                        if truthy entry && isObjectType entry
                        then normalizeString (getOpt entry "text") ""
                        else "")
                     entries) in
            if (0 <? List.length textChunks)%nat
            then Ok (String.concat (String (ascii_of_nat 10) EmptyString) textChunks)
            else Throw (Error "No model message content found.")
        | _ => Throw (Error "No model message content found.")
        end
    end.

(** What [fetch] and [response.text()] deliver. *)
Record Response := mkResponse {
  ok : bool;
  status : nat;
  responseBody : string
}.

(** The transport: the outcome of the request sent with or without
    the response schema. *)
Definition Transport := bool -> Result Response.

Definition callModel (fetch : Transport) (withSchema : bool) : Result string :=
  response <- fetch withSchema ;;
  if negb (ok response)
  then Throw (Error ("LLM request failed (" ++ decimal (status response) ++ "): "
                     ++ JS.slice (responseBody response) 0 350))
  else
    parsed <- JSON_parse (responseBody response) ;;
    readContentFromResponse parsed.

(** The payload of the first attempt, or of the fallback attempt when
    the first one throws. *)
Definition requestPayload (fetch : Transport) : Result value :=
  let firstAttempt := text <- callModel fetch true ;; extractJsonFromText text in
  let fallbackAttempt := text <- callModel fetch false ;; extractJsonFromText text in
  tryCatch firstAttempt (fun _ => fallbackAttempt).

Fixpoint normalizeAll (items : list value) (index : nat) (uuids : nat -> string)
  : Result (list Recipe) :=
  match items with
  | [] => Ok []
  | recipe :: rest =>
      normalized <- normalizeRecipe recipe index (uuids index) ;;
      others <- normalizeAll rest (S index) uuids ;;
      Ok (normalized :: others)
  end.

Record Generated := mkGenerated {
  recipes : list Recipe;
  assistantSummary : string
}.

Definition noUsableRecipes : exception := Error "Model returned no usable recipes.".

(** The part of [generateRecipesWithLlm] that follows the requests. *)
Definition finishGeneration (input : RecipeRequestInput) (uuids : nat -> string)
           (payload : value) : Result Generated :=
  rawRecipes <- get payload "recipes" ;;
  normalizedRecipes <-
    match rawRecipes with
    | Arr items => normalizeAll items 0 uuids
    | _ => Ok []
    end ;;
  if (List.length normalizedRecipes =? 0)%nat then Throw noUsableRecipes
  else
    Ok {| recipes :=
            slice0 normalizedRecipes
              (Math_max (Finite 1) (Math_min (Finite 6) (recipeCount input)));
          assistantSummary :=
            normalizeString (getOpt payload "assistantSummary")
                            "Recipes generated successfully." |}.

(** [generateRecipesWithLlm(input)]; [fetch] answers the requests and
    [uuids k] is the identifier drawn for the recipe at index [k]. *)
Definition generateRecipesWithLlm (fetch : Transport) (uuids : nat -> string)
           (input : RecipeRequestInput) : Result Generated :=
  payload <- requestPayload fetch ;;
  finishGeneration input uuids payload.

End Llm.

(* ================================================================= *)
(** ** The helpers of the application shell ([App.tsx]) *)

Module App.

(** [getId]: the prefix, a hyphen, and what [crypto.randomUUID] (or the
    clock and [Math.random]) drew. *)
Definition getId (prefix drawn : string) : string :=
  (prefix ++ "-" ++ drawn)%string.

Definition toggleListValue (values : list string) (value : string) : list string :=
  if includesStr values value
  then filter (fun item => negb (String.eqb item value)) values
  else values ++ [value].

(** A [Map<string, Recipe>] is the list of its entries in insertion
    order: [map.set(key, value)] replaces the value of the entry of [key]
    where it stands, and appends a new entry when there is none. *)
Fixpoint mapSet (entries : list (string * Recipe)) (key : string) (value : Recipe)
  : list (string * Recipe) :=
  match entries with
  | [] => [(key, value)]
  | (k, v) :: rest =>
      if String.eqb k key then (k, value) :: rest
      else (k, v) :: mapSet rest key value
  end.

(** [Array.from(map.values())] *)
Definition mapValues (entries : list (string * Recipe)) : list Recipe :=
  map snd entries.

Definition ensureUniqueRecipes (recipes : list Recipe) : list Recipe :=
  mapValues
    (fold_left (fun entries recipe => mapSet entries (id recipe) recipe)
               recipes []).

(** [text.trim() || fallback] *)
Definition trimmedOr (text fallback : string) : string :=
  if JS.nonEmpty (JS.trim text) then JS.trim text else fallback.

(** [value || fallback] on a number: zero is falsy. *)
Definition numberOr (value fallback : Q) : Q :=
  if Qeq_bool value 0 then fallback else value.

Definition water : Ingredient :=
  {| name := "water"; quantity := 500; unit := "ml";
     optional := Some false; notes := None |}.

Definition plainStep (words : string) : MethodStep :=
  {| text := words; timerMinutes := None; stepNotes := None;
     temperatureC := None; gasMark := None |}.

(** The argument is a recipe as typed; [drawn] is what [getId] draws
    when the recipe has no identifier. *)
Definition normalizeRecipeForStorage (drawn : string) (recipe : Recipe) : Recipe :=
  {| id := if JS.nonEmpty (id recipe) then id recipe else getId "recipe" drawn;
     title := trimmedOr (title recipe) "Untitled recipe";
     description := trimmedOr (description recipe) "No description.";
     cuisine := trimmedOr (cuisine recipe) "Fusion";
     difficulty := difficulty recipe;
     cookTimeMinutes :=
       JS.Math_max 5 (JS.Math_round (numberOr (cookTimeMinutes recipe) 30));
     servings := JS.Math_max 1 (JS.Math_round (numberOr (servings recipe) 1));
     dietaryTags := dietaryTags recipe;
     allergens := allergens recipe;
     equipment := equipment recipe;
     ingredients :=
       if (0 <? List.length (ingredients recipe))%nat
       then ingredients recipe
       else [water];
     steps :=
       if (0 <? List.length (steps recipe))%nat
       then steps recipe
       else [plainStep "Prepare ingredients.";
             plainStep "Cook and season to taste."];
     swapSuggestions := swapSuggestions recipe;
     tips := tips recipe;
     source := source recipe |}.

End App.

(* ================================================================= *)
(** ** The URL form of base64 ([share.ts]) *)

Module Share.

(** [s.replace(/c/g, d)] for characters [c] and [d] *)
Definition replaceChar (old new : ascii) (s : string) : string :=
  JS.mapChars (fun c => if Ascii.eqb c old then new else c) s.

(** [s.replace(/=+$/g, '')]: the run of [=] at the end is removed. *)
Fixpoint stripPadding (s : string) : string :=
  match s with
  | EmptyString => EmptyString
  | String c rest =>
      match stripPadding rest with
      | EmptyString => if Ascii.eqb c "=" then EmptyString else String c EmptyString
      | kept => String c kept
      end
  end.

(** [c.repeat(n)] *)
Fixpoint repeatChar (c : ascii) (n : nat) : string :=
  match n with
  | O => EmptyString
  | S m => String c (repeatChar c m)
  end.

(** The two platform codecs are parameters. *)
Definition toBase64Url (btoa : string -> string) (input : string) : string :=
  stripPadding (replaceChar "/" "_" (replaceChar "+" "-" (btoa input))).

Definition fromBase64Url {A} (atob : string -> A) (input : string) : A :=
  let normalized := replaceChar "_" "/" (replaceChar "-" "+" input) in
  let padding :=
    repeatChar "=" ((4 - (String.length normalized mod 4)) mod 4) in
  atob (normalized ++ padding)%string.

End Share.


(* ================================================================= *)
(** ** Notions the statements are phrased with *)

Module Notions.
Import Engine.

(** The recipes that survive the allergen pre-filter, in corpus order. *)
Definition allergenSafePool (recipes : list Recipe) (preferences : Preferences)
  : list Recipe :=
  filter (fun recipe => allergenSatisfied recipe (allergensToAvoid preferences))
         recipes.

(** The scored pool, best first. *)
Definition scoredPool recipes pantryItems preferences : list Scored :=
  sortByScore (map (fun recipe => scoreRecipe recipe pantryItems preferences)
                   (allergenSafePool recipes preferences)).

(** How many recipes of the pool satisfy all four preference checks. *)
Definition strictCount recipes pantryItems preferences : nat :=
  List.length (filter strictMatch (scoredPool recipes pantryItems preferences)).

(** How many ingredients of the recipe the pantry does not match: all
    of them but the matched ones. *)
Definition unmatchedCount (recipe : Recipe) (pantryItems : list string) : nat :=
  List.length (ingredients recipe)
  - List.length
      (filter (fun ingredient => hasIngredient (name ingredient) pantryItems)
              (ingredients recipe)).

(** The pantry fit in the words of the specification: 0 without
    ingredients, 100 when every ingredient is matched, and otherwise
    [round (100 * (total - missing) / total)] clamped to [0, 100], in
    exact arithmetic. *)
Definition pantryFitPercentSpec (recipe : Recipe) (pantryItems : list string) : Q :=
  let total := JS.ofNat (List.length (ingredients recipe)) in
  let missing := JS.ofNat (unmatchedCount recipe pantryItems) in
  match ingredients recipe with
  | [] => 0%Q
  | _ =>
      if forallb (fun ingredient => hasIngredient (name ingredient) pantryItems)
                 (ingredients recipe)
      then 100%Q
      else Qmax 0 (Qmin 100 (JS.Math_round (100 * (total - missing) / total)))
  end.

(** The percentage [100 * (total - missing) / total] lies exactly
    halfway between two whole numbers. *)
Definition halfwayPercent (recipe : Recipe) (pantryItems : list string) : Prop :=
  let total := JS.ofNat (List.length (ingredients recipe)) in
  let missing := JS.ofNat (unmatchedCount recipe pantryItems) in
  exists k : Z, (100 * (total - missing) / total == inject_Z k + (1 # 2))%Q.

(** [2^52] and [2^53], the bounds of a significand, and the unit
    roundoff [2^-53] of binary64 *)
Definition two52 : Q := 4503599627370496.
Definition two53 : Q := 9007199254740992.
Definition roundoff : Q := 1 # 9007199254740992.

(** A bound, [2^-45], on the error of the two roundings of a percentage *)
Definition percentNoise : Q := 1 # 35184372088832.





(** The invariants of a normalised recipe: ingredients and steps are
    present, and every enum-valued field holds allowed values only. *)
Definition RecipeInvariants (r : Recipe) : Prop :=
  ingredients r <> []
  /\ steps r <> []
  /\ Forall (fun ingredient => In (unit ingredient) UNIT_OPTIONS) (ingredients r)
  /\ In (difficulty r) Llm.difficultyValues
  /\ Forall (fun tag => In tag DIETARY_OPTIONS) (dietaryTags r)
  /\ Forall (fun allergen => In allergen ALLERGEN_OPTIONS) (allergens r)
  /\ Forall (fun item => In item Llm.equipmentValues) (equipment r).

Fixpoint allSpace (s : string) : bool :=
  match s with
  | EmptyString => true
  | String c rest => JS.isSpace c && allSpace rest
  end.

(** Strategy (a) of the extractor: the whole text, when it parses to a
    value that passes the [if (directParse)] test. *)
Definition wholeText (rawText : string) : option Json.value :=
  match Json.JSON_parse rawText with
  | Json.Ok parsed => if Json.truthy parsed then Some parsed else None
  | Json.Throw _ => None
  end.

(** The candidate of strategy (b): the contents of the first fenced
    block, when they are not empty. *)
Definition fencedBlock (rawText : string) : option string :=
  match Llm.codeFenceMatch rawText with
  | Some captured => if JS.nonEmpty captured then Some captured else None
  | None => None
  end.

(** The candidate of strategy (c): from the first [{] to the last [}],
    when the latter comes after the former. *)
Definition braceSlice (rawText : string) : option string :=
  match JS.indexOf rawText "{", JS.lastIndexOf rawText "}" with
  | Some start, Some finish =>
      if (start <? finish)%nat
      then Some (JS.slice rawText start (finish + 1))
      else None
  | _, _ => None
  end.

Definition parses (candidate : option string) : Prop :=
  exists text parsed, candidate = Some text /\ Json.JSON_parse text = Json.Ok parsed.

(** "Any one of the three strategies parses." *)
Definition someStrategyParses (rawText : string) : Prop :=
  parses (Some rawText)
  \/ parses (Llm.codeFenceMatch rawText)
  \/ parses (braceSlice rawText).

(** The recipes array of a payload normalises to zero recipes. *)
Definition normalizesToNone (uuids : nat -> string) (payload : Json.value) : Prop :=
  match Json.getOpt payload "recipes" with
  | Json.Arr items => Llm.normalizeAll items 0 uuids = Json.Ok []
  | _ => True
  end.

(** A character that [normaliseText] keeps as it is: a lower-case
    letter, a digit or a hyphen. *)
Definition wordChar (c : ascii) : bool :=
  JS.isLower c || JS.isDigit c || Ascii.eqb c "-".

(** Word characters and single spaces only, and no space at the start
    when [afterSpace] holds. *)
Fixpoint tidy (afterSpace : bool) (s : string) : bool :=
  match s with
  | EmptyString => true
  | String c rest =>
      if Ascii.eqb c " " then negb afterSpace && tidy true rest
      else wordChar c && tidy false rest
  end.

Fixpoint lastIsSpace (s : string) : bool :=
  match s with
  | EmptyString => false
  | String c EmptyString => JS.isSpace c
  | String _ rest => lastIsSpace rest
  end.

(** The shape of a normalised text: words of lower-case letters, digits
    and hyphens, separated by single spaces, with no space at either end. *)
Definition isNormalised (s : string) : bool :=
  tidy true s && negb (lastIsSpace s).

(** Some character of [s] is not white space. *)
Fixpoint hasInk (s : string) : bool :=
  match s with
  | EmptyString => false
  | String c rest => negb (JS.isSpace c) || hasInk rest
  end.

(** A text that does not begin with white space *)
Definition startsWithInk (s : string) : Prop :=
  match s with
  | EmptyString => True
  | String c _ => JS.isSpace c = false
  end.

(** What the loop of [normalisePantryItems] keeps true of its state. *)
Definition pantryInvariant (state : list string * list string) : Prop :=
  fst state = map normaliseText (snd state)
  /\ NoDup (fst state)
  /\ Forall (fun key => JS.nonEmpty key = true) (fst state).

(** What the normaliser guarantees besides the enum values: the floors
    of the two numbers, and texts that are present. *)
Definition RecipeFloors (r : Recipe) : Prop :=
  (5 <= cookTimeMinutes r)%Q
  /\ (1 <= servings r)%Q
  /\ Forall (fun ingredient =>
               JS.nonEmpty (name ingredient) = true
               /\ (0 <= quantity ingredient)%Q)
            (ingredients r)
  /\ Forall (fun step =>
               JS.nonEmpty (text step) = true
               /\ (forall minutes, timerMinutes step = Some minutes -> (0 < minutes)%Q)
               /\ (forall degrees, temperatureC step = Some degrees -> (0 < degrees)%Q))
            (steps r)
  /\ Forall (fun swap => JS.nonEmpty swap = true) (swapSuggestions r)
  /\ Forall (fun tip => JS.nonEmpty tip = true) (tips r).

(** The last recipe of the list that carries the identifier [key] *)
Definition lastWithId (key : string) (recipes : list Recipe) : option Recipe :=
  find (fun candidate => String.eqb (id candidate) key) (rev recipes).

(** A text with something in it and no white space around it *)
Definition trimmedText (s : string) : Prop :=
  JS.nonEmpty s = true /\ JS.trim s = s.

(** A whole number that is at least [floor] *)
Definition wholeFrom (floor : Z) (x : Q) : Prop :=
  exists k : Z, x = inject_Z k /\ (floor <= k)%Z.

(** What a recipe written to the cookbook looks like. *)
Definition StorageReady (r : Recipe) : Prop :=
  JS.nonEmpty (id r) = true
  /\ trimmedText (title r)
  /\ trimmedText (description r)
  /\ trimmedText (cuisine r)
  /\ wholeFrom 5 (cookTimeMinutes r)
  /\ wholeFrom 1 (servings r)
  /\ ingredients r <> []
  /\ steps r <> [].

Fixpoint allChars (p : ascii -> bool) (s : string) : bool :=
  match s with
  | EmptyString => true
  | String c rest => p c && allChars p rest
  end.

(** A character of the base64 alphabet *)
Definition base64Char (c : ascii) : bool :=
  JS.isUpper c || JS.isLower c || JS.isDigit c
  || Ascii.eqb c "+" || Ascii.eqb c "/".

(** A padded base64 text: characters of the alphabet, then fewer than
    four [=], a multiple of four characters in all. *)
Definition base64Text (s : string) : Prop :=
  exists body pad,
    s = (body ++ pad)%string
    /\ allChars base64Char body = true
    /\ allChars (Ascii.eqb "=") pad = true
    /\ (String.length pad < 4)%nat
    /\ (String.length s mod 4 = 0)%nat.

(** A character that a URL carries as it is *)
Definition urlSafeChar (c : ascii) : bool :=
  JS.isUpper c || JS.isLower c || JS.isDigit c
  || Ascii.eqb c "-" || Ascii.eqb c "_".

End Notions.

(* ================================================================= *)
(** ** Sample data used to run the definitions *)

Module Samples.

Definition onion : Ingredient :=
  {| name := "onion"; quantity := 1; unit := "whole";
     optional := None; notes := None |}.

Definition dish (ident label : string) (minutes : Q) (contains : list string)
  : Recipe :=
  {| id := ident;
     title := label;
     description := "";
     cuisine := "British";
     difficulty := "Easy";
     cookTimeMinutes := minutes;
     servings := 4;
     dietaryTags := [];
     allergens := contains;
     equipment := ["hob"];
     ingredients := [onion];
     steps := [ {| text := "Cook."; timerMinutes := None; stepNotes := None;
                   temperatureC := None; gasMark := None |} ];
     swapSuggestions := [];
     tips := [];
     source := Some "base" |}.

Definition avoidingNuts : Preferences :=
  {| prefServings := 4; maxCookTime := 45; prefCuisine := "";
     dietary := []; allergensToAvoid := ["nuts"]; prefEquipment := [] |}.

Definition saffron : Ingredient :=
  {| name := "saffron"; quantity := 1; unit := "pinch";
     optional := None; notes := None |}.

(** Forty ingredients, twenty-three of them onions. *)
Definition feast : Recipe :=
  {| id := "feast";
     title := "Onion feast";
     description := "";
     cuisine := "British";
     difficulty := "Hard";
     cookTimeMinutes := 120;
     servings := 12;
     dietaryTags := [];
     allergens := [];
     equipment := [];
     ingredients := repeat onion 23 ++ repeat saffron 17;
     steps := [];
     swapSuggestions := [];
     tips := [];
     source := None |}.

(** Five recipes with distinct identifiers; one contains nuts. *)
Definition corpus : list Recipe :=
  [ dish "soup" "Onion soup" 30 [];
    dish "satay" "Peanut satay" 25 ["nuts"];
    dish "gratin" "Onion gratin" 40 ["dairy"];
    dish "tart" "Onion tart" 35 ["gluten"; "eggs"];
    dish "bhaji" "Onion bhaji" 20 [] ].

(** A corpus too small for three options; one recipe contains nuts. *)
Definition smallCorpus : list Recipe :=
  [ dish "satay" "Peanut satay" 25 ["nuts"];
    dish "gratin" "Onion gratin" 40 ["dairy"] ].

(** Four slow recipes: none meets the 45 minute limit. *)
Definition slowCorpus : list Recipe :=
  [ dish "roast" "Roast onions" 60 [];
    dish "confit" "Onion confit" 90 [];
    dish "braise" "Braised onions" 75 [];
    dish "jam" "Onion jam" 120 [] ].

Definition pasta : Ingredient :=
  {| name := "pasta"; quantity := 250; unit := "g";
     optional := Some false; notes := None |}.

Definition butter : Ingredient :=
  {| name := "butter"; quantity := 30; unit := "g";
     optional := None; notes := Some "softened" |}.

Definition newline : string := String (ascii_of_nat 10) EmptyString.

(** JSON texts are written with ['] where the text has a double quote. *)
Definition json (s : string) : string :=
  JS.mapChars (fun c => if Ascii.eqb c "'" then JS.dquote else c) s.

(** A reply whose fenced block is not JSON, followed by a JSON object. *)
Definition brokenFenceReply : string :=
  ("```" ++ newline ++ "not json" ++ newline ++ "``` " ++ json "{'a':1}")%string.

(** The reply of the extractor test of the repository. *)
Definition fencedReply : string :=
  (newline ++ "```json" ++ newline
   ++ json "{'assistantSummary':'ok','recipes':[]}" ++ newline ++ "```")%string.

Definition proseReply : string := json "Here you go: {'a':[1,2]} enjoy".

(** An empty fenced block, then a block that holds an array. *)
Definition emptyFirstBlock : string :=
  ("```" ++ newline ++ "```" ++ newline
   ++ "```json" ++ newline ++ "[1,2]" ++ newline ++ "```")%string.


(** A raw recipe with wrong types, a missing field and an extra one. *)
Definition garbledRecipe : Json.value :=
  Json.Obj [("title", Json.Num (Json.Finite 7));
            ("difficulty", Json.Str "Impossible");
            ("dietaryTags", Json.Arr [Json.Str "vegan"; Json.Str "paleo"; Json.Null]);
            ("allergens", Json.Str "nuts");
            ("ingredients",
             Json.Arr [Json.Obj [("name", Json.Str " rice "); ("unit", Json.Str "bag");
                                 ("quantity", Json.Str "2.5")];
                       Json.Obj [("quantity", Json.Num (Json.Finite 3))];
                       Json.Str "salt"]);
            ("steps", Json.Bool true);
            ("rating", Json.Num (Json.Finite 5))].

(** The body of a chat completion whose message content is the JSON
    text [content], escaped as a JSON string. *)
Definition chatBody (content : string) : string :=
  json ("{'choices':[{'message':{'content':'" ++ content ++ "'}}]}")%string.


(** The model answers with one recipe. *)
Definition lentilReply : Llm.Response :=
  {| Llm.ok := true; Llm.status := 200;
     Llm.responseBody :=
       chatBody
         ("{\'assistantSummary\':\'Here are your recipes.\',\'recipes\':"
          ++ "[{\'title\':\'LLM Lentil Bowl\',\'cookTimeMinutes\':28,"
          ++ "\'ingredients\':[{\'name\':\'red lentils\',\'quantity\':250,"
          ++ "\'unit\':\'g\'}],"
          ++ "\'steps\':[{\'text\':\'Simmer until tender.\',\'timerMinutes\':20}]}]}") |}.

Definition request : Llm.RecipeRequestInput :=
  {| Llm.pantryItems := ["lentils"; "onion"];
     Llm.preferences := avoidingNuts;
     Llm.goal := "Create a bold lentil dish.";
     Llm.recipeCount := Json.Finite 4;
     Llm.settings := {| Llm.apiKey := "sk-test"; Llm.model := "gpt-4.1-mini";
                        Llm.endpoint := "https://api.openai.com/v1/chat/completions";
                        Llm.creativity := 8 # 10 |};
     Llm.refinementContext := None |}.

Definition uuids (k : nat) : string := ("uuid-" ++ Llm.decimal k)%string.

(** The model answers with one usable recipe and a [null]. *)
Definition nullEntryReply : Llm.Response :=
  {| Llm.ok := true; Llm.status := 200;
     Llm.responseBody :=
       chatBody ("{\'assistantSummary\':\'Two ideas.\',\'recipes\':"
                 ++ "[{\'title\':\'Dal\'},null]}") |}.

(** A reply whose content is a list of parts. *)
Definition partsReply : Json.value :=
  Json.Obj
    [("choices",
      Json.Arr
        [Json.Obj
           [("message",
             Json.Obj
               [("content",
                 Json.Arr [Json.Obj [("text", Json.Str "  ")];
                           Json.Str "loose";
                           Json.Obj [("text", Json.Str " first part ")];
                           Json.Obj [("text", Json.Str "second part")]])])]])].

(** A recipe as the builder leaves it when nothing was filled in. *)
Definition blankRecipe : Recipe :=
  {| id := "";
     title := "   ";
     description := "";
     cuisine := " ";
     difficulty := "Easy";
     cookTimeMinutes := 0;
     servings := 5 # 2;
     dietaryTags := [];
     allergens := [];
     equipment := [];
     ingredients := [];
     steps := [];
     swapSuggestions := [];
     tips := [];
     source := Some "custom" |}.

Definition base64Alphabet : string :=
  "ABCDEFGHIJKLMNOPQRSTUVWXYZabcdefghijklmnopqrstuvwxyz0123456789+/".

Definition sextet (n : nat) : ascii :=
  match String.get n base64Alphabet with
  | Some c => c
  | None => "="%char
  end.

(** The base64 encoder of the platform, to run the URL form on. *)
Fixpoint btoa (s : string) : string :=
  match s with
  | EmptyString => EmptyString
  | String a EmptyString =>
      let x := JS.code a in
      String (sextet (x / 4)) (String (sextet (x mod 4 * 16)) "==")
  | String a (String b EmptyString) =>
      let x := JS.code a in
      let y := JS.code b in
      String (sextet (x / 4))
        (String (sextet (x mod 4 * 16 + y / 16))
           (String (sextet (y mod 16 * 4)) "="))
  | String a (String b (String c rest)) =>
      let x := JS.code a in
      let y := JS.code b in
      let z := JS.code c in
      String (sextet (x / 4))
        (String (sextet (x mod 4 * 16 + y / 16))
           (String (sextet (y mod 16 * 4 + z / 64))
              (String (sextet (z mod 64)) (btoa rest))))
  end.

(** Two bytes whose encoding uses [+], [/] and padding *)
Definition twoBytes : string :=
  String (ascii_of_nat 251) (String (ascii_of_nat 240) EmptyString).

(** The same request with a recipe count that is not a number. *)
Definition nanRequest : Llm.RecipeRequestInput :=
  {| Llm.pantryItems := Llm.pantryItems request;
     Llm.preferences := Llm.preferences request;
     Llm.goal := Llm.goal request;
     Llm.recipeCount := Json.NaN;
     Llm.settings := Llm.settings request;
     Llm.refinementContext := None |}.

End Samples.

(* ================================================================= *)
(** ** Properties of the rounding to the nearest double *)

Module FloatFacts.
Import Notions.
Local Open Scope Q_scope.

(** *** Powers of two *)

Lemma pow2_pos e : 0 < 2 ^ e.
Proof. apply Qpower_0_lt. reflexivity. Qed.

Lemma pow2_plus a b : 2 ^ (a + b) == 2 ^ a * 2 ^ b.
Proof. apply Qpower_plus. discriminate. Qed.

Lemma pow2_le a b : (a <= b)%Z -> 2 ^ a <= 2 ^ b.
Proof. intros H. apply Qpower_le_compat_l; [exact H | discriminate]. Qed.

Lemma pow2_lt a b : (a < b)%Z -> 2 ^ a < 2 ^ b.
Proof. intros H. apply Qpower_lt_compat_l; [exact H | reflexivity]. Qed.

Lemma pow2_inject n : (0 <= n)%Z -> inject_Z (2 ^ n) == 2 ^ n.
Proof. intros H. now rewrite Zpower_Qpower. Qed.

(** *** The binade of a positive rational *)

Lemma ilog2_spec x : 0 < x -> 2 ^ JS.ilog2 x <= x < 2 ^ (JS.ilog2 x + 1).
Proof.
  intros Hx. unfold JS.ilog2.
  destruct x as [p q]. cbn [Qnum Qden].
  assert (Hp : (0 < p)%Z) by (unfold Qlt in Hx; simpl in Hx; lia).
  destruct (Z.log2_spec p Hp) as [Hp1 Hp2].
  destruct (Z.log2_spec (Z.pos q) (Pos2Z.is_pos q)) as [Hq1 Hq2].
  pose proof (Z.log2_nonneg p) as Hlp.
  pose proof (Z.log2_nonneg (Z.pos q)) as Hlq.
  set (lp := Z.log2 p) in *. set (lq := Z.log2 (Z.pos q)) in *.
  assert (Hval : p # q == inject_Z p / inject_Z (Z.pos q))
    by (rewrite Qmake_Qdiv; reflexivity).
  assert (Hqpos : 0 < inject_Z (Z.pos q))
    by (change 0 with (inject_Z 0); rewrite <- Zlt_Qlt; lia).
  assert (Hmul : (p # q) * inject_Z (Z.pos q) == inject_Z p)
    by (rewrite Hval; field; lra).
  assert (Hupper : p # q < 2 ^ (lp - lq + 1)).
  { apply (Qmult_lt_r _ _ (inject_Z (Z.pos q)) Hqpos). rewrite Hmul.
    apply Qlt_le_trans with (2 ^ (lp - lq + 1) * 2 ^ lq).
    - rewrite <- pow2_plus. replace (lp - lq + 1 + lq)%Z with (lp + 1)%Z by ring.
      rewrite <- pow2_inject by lia. rewrite <- Zlt_Qlt.
      replace (lp + 1)%Z with (Z.succ lp) by ring. exact Hp2.
    - apply Qmult_le_l; [apply pow2_pos|].
      rewrite <- pow2_inject by lia. now rewrite <- Zle_Qle. }
  assert (Hlower : 2 ^ (lp - lq - 1) < p # q).
  { apply (Qmult_lt_r _ _ (inject_Z (Z.pos q)) Hqpos). rewrite Hmul.
    apply Qlt_le_trans with (2 ^ (lp - lq - 1) * 2 ^ (lq + 1)).
    - apply Qmult_lt_l; [apply pow2_pos|].
      rewrite <- pow2_inject by lia. rewrite <- Zlt_Qlt.
      replace (lq + 1)%Z with (Z.succ lq) by ring. exact Hq2.
    - rewrite <- pow2_plus. replace (lp - lq - 1 + (lq + 1))%Z with lp by ring.
      rewrite <- pow2_inject by lia. now rewrite <- Zle_Qle. }
  destruct (Qle_bool (2 ^ (lp - lq)) (p # q)) eqn:Hcmp.
  - apply Qle_bool_iff in Hcmp. split; assumption.
  - assert (Hlt : p # q < 2 ^ (lp - lq)).
    { apply Qnot_le_lt. intros Hle. apply Qle_bool_iff in Hle. congruence. }
    split.
    + apply Qlt_le_weak. exact Hlower.
    + replace (lp - lq - 1 + 1)%Z with (lp - lq)%Z by ring. exact Hlt.
Qed.

Lemma ilog2_unique x e : 2 ^ e <= x < 2 ^ (e + 1) -> JS.ilog2 x = e.
Proof.
  intros [Hlo Hhi].
  assert (Hx : 0 < x) by (pose proof (pow2_pos e); lra).
  destruct (ilog2_spec x Hx) as [Hlo' Hhi'].
  destruct (Z.lt_trichotomy (JS.ilog2 x) e) as [Hlt|[Heq|Hgt]]; [|exact Heq|].
  - pose proof (pow2_le (JS.ilog2 x + 1) e ltac:(lia)). lra.
  - pose proof (pow2_le (e + 1) (JS.ilog2 x) ltac:(lia)). lra.
Qed.

Lemma ilog2_monotone x y : 0 < x -> x <= y -> (JS.ilog2 x <= JS.ilog2 y)%Z.
Proof.
  intros Hx Hxy.
  destruct (ilog2_spec x Hx) as [Hlo _].
  destruct (ilog2_spec y ltac:(lra)) as [_ Hhi].
  destruct (Z.le_gt_cases (JS.ilog2 x) (JS.ilog2 y)) as [Hle|Hgt]; [exact Hle|].
  pose proof (pow2_le (JS.ilog2 y + 1) (JS.ilog2 x) ltac:(lia)). lra.
Qed.

(** *** Rounding to the nearest integer *)

Lemma roundHalfEven_near s :
  inject_Z (JS.roundHalfEven s) - (1 # 2) <= s
  /\ s <= inject_Z (JS.roundHalfEven s) + (1 # 2).
Proof.
  unfold JS.roundHalfEven.
  pose proof (Qfloor_le s) as Hlo. pose proof (Qlt_floor s) as Hhi.
  rewrite inject_Z_plus in Hhi. change (inject_Z 1) with 1 in Hhi.
  destruct (Qcompare_spec (s - inject_Z (Qfloor s)) (1 # 2)) as [Heq|Hlt|Hgt].
  - destruct (Z.even (Qfloor s)); [|rewrite inject_Z_plus; change (inject_Z 1) with 1];
      split; lra.
  - split; lra.
  - rewrite inject_Z_plus. change (inject_Z 1) with 1. split; lra.
Qed.

Lemma roundHalfEven_monotone s t :
  s <= t -> (JS.roundHalfEven s <= JS.roundHalfEven t)%Z.
Proof.
  intros Hst. pose proof (Qfloor_resp_le _ _ Hst) as Hfloor.
  destruct (Z.eq_dec (Qfloor s) (Qfloor t)) as [Hsame|Hdiff].
  - unfold JS.roundHalfEven. rewrite Hsame.
    destruct (Qcompare_spec (s - inject_Z (Qfloor t)) (1 # 2)) as [Hs|Hs|Hs];
      destruct (Qcompare_spec (t - inject_Z (Qfloor t)) (1 # 2)) as [Ht|Ht|Ht];
      try lia; try lra; destruct (Z.even (Qfloor t)); lia.
  - assert (Hnext : (Qfloor s + 1 <= Qfloor t)%Z) by lia.
    apply Z.le_trans with (Qfloor s + 1)%Z; [|apply Z.le_trans with (Qfloor t)].
    + unfold JS.roundHalfEven.
      destruct (Qcompare _ _); try lia. destruct (Z.even _); lia.
    + exact Hnext.
    + unfold JS.roundHalfEven.
      destruct (Qcompare _ _); try lia. destruct (Z.even _); lia.
Qed.

Lemma roundHalfEven_whole n : JS.roundHalfEven (inject_Z n) = n.
Proof.
  destruct (roundHalfEven_near (inject_Z n)) as [Hlo Hhi].
  set (k := JS.roundHalfEven (inject_Z n)) in *.
  assert (H1 : inject_Z k < inject_Z (n + 1))
    by (rewrite inject_Z_plus; change (inject_Z 1) with 1; lra).
  assert (H2 : inject_Z n < inject_Z (k + 1))
    by (rewrite inject_Z_plus; change (inject_Z 1) with 1; lra).
  rewrite <- Zlt_Qlt in H1, H2. lia.
Qed.

(** *** The nearest double *)

Lemma pow2_52 : 2 ^ 52 == two52.
Proof. reflexivity. Qed.

Lemma pow2_53 : 2 ^ 53 == two53.
Proof. reflexivity. Qed.

(** The significand of a positive number lies between [2^52] and [2^53]. *)
Lemma significand_range x :
  0 < x ->
  two52 * 2 ^ (JS.ilog2 x - 52) <= x < two53 * 2 ^ (JS.ilog2 x - 52).
Proof.
  intros Hx. destruct (ilog2_spec x Hx) as [Hlo Hhi].
  rewrite <- pow2_52, <- pow2_53, <- !pow2_plus.
  replace (52 + (JS.ilog2 x - 52))%Z with (JS.ilog2 x) by ring.
  replace (53 + (JS.ilog2 x - 52))%Z with (JS.ilog2 x + 1)%Z by ring.
  split; assumption.
Qed.

Lemma fl_positive x :
  0 < x ->
  JS.fl x = inject_Z (JS.roundHalfEven (x / 2 ^ (JS.ilog2 x - 52)))
            * 2 ^ (JS.ilog2 x - 52).
Proof.
  intros Hx. unfold JS.fl. now rewrite (proj1 (Qlt_alt 0 x) Hx).
Qed.

Lemma fl_zero x : x == 0 -> JS.fl x = 0.
Proof.
  intros Hx. unfold JS.fl. symmetry in Hx.
  now rewrite (proj1 (Qeq_alt 0 x) Hx).
Qed.

Lemma significand_whole x :
  0 < x ->
  (4503599627370496
   <= JS.roundHalfEven (x / 2 ^ (JS.ilog2 x - 52))
   <= 9007199254740992)%Z.
Proof.
  intros Hx. destruct (significand_range x Hx) as [Hlo Hhi].
  pose proof (pow2_pos (JS.ilog2 x - 52)) as Hpos.
  set (E := 2 ^ (JS.ilog2 x - 52)) in *.
  assert (Hs1 : inject_Z 4503599627370496 <= x / E)
    by (apply Qle_shift_div_l; [exact Hpos | exact Hlo]).
  assert (Hs2 : x / E <= inject_Z 9007199254740992)
    by (apply Qle_shift_div_r; [exact Hpos | apply Qlt_le_weak; exact Hhi]).
  apply roundHalfEven_monotone in Hs1, Hs2.
  rewrite roundHalfEven_whole in Hs1, Hs2. split; assumption.
Qed.

(** A double differs from the number it stands for by at most the
    unit roundoff, relatively. *)
Lemma fl_error x :
  0 <= x -> - (x * roundoff) <= JS.fl x - x <= x * roundoff.
Proof.
  intros Hx. destruct (Qle_lt_or_eq _ _ Hx) as [Hpos|Hzero].
  - rewrite (fl_positive x Hpos).
    destruct (significand_range x Hpos) as [Hlo _].
    pose proof (pow2_pos (JS.ilog2 x - 52)) as HE.
    set (E := 2 ^ (JS.ilog2 x - 52)) in *.
    destruct (roundHalfEven_near (x / E)) as [Hnear1 Hnear2].
    set (m := inject_Z (JS.roundHalfEven (x / E))) in *.
    assert (Hx' : x == (x / E) * E) by (field; lra).
    set (s := x / E) in *.
    assert (H1 : (m - (1 # 2)) * E <= s * E)
      by (apply Qmult_le_compat_r; lra).
    assert (H2 : s * E <= (m + (1 # 2)) * E)
      by (apply Qmult_le_compat_r; lra).
    unfold roundoff, two52 in *. split; lra.
  - rewrite (fl_zero x) by (symmetry; exact Hzero).
    rewrite <- Hzero. unfold roundoff. split; lra.
Qed.

Lemma fl_nonneg x : 0 <= x -> 0 <= JS.fl x.
Proof.
  intros Hx. destruct (Qle_lt_or_eq _ _ Hx) as [Hpos|Hzero].
  - rewrite (fl_positive x Hpos).
    destruct (significand_whole x Hpos) as [Hm _].
    apply Qmult_le_0_compat; [|apply Qlt_le_weak, pow2_pos].
    change 0 with (inject_Z 0). rewrite <- Zle_Qle. lia.
  - rewrite (fl_zero x) by (symmetry; exact Hzero). lra.
Qed.

(** Rounding to the nearest double keeps the order. *)
Lemma fl_monotone x y : 0 <= x -> x <= y -> JS.fl x <= JS.fl y.
Proof.
  intros Hx Hxy. destruct (Qle_lt_or_eq _ _ Hx) as [Hpos|Hzero].
  - assert (Hy : 0 < y) by lra.
    rewrite (fl_positive x Hpos), (fl_positive y Hy).
    pose proof (ilog2_monotone x y Hpos Hxy) as Hexp.
    destruct (significand_whole x Hpos) as [_ Hmx].
    destruct (significand_whole y Hy) as [Hmy _].
    pose proof (pow2_pos (JS.ilog2 x - 52)) as HEx.
    pose proof (pow2_pos (JS.ilog2 y - 52)) as HEy.
    destruct (Z.eq_dec (JS.ilog2 x) (JS.ilog2 y)) as [Hsame|Hdiff].
    + rewrite Hsame in *. apply Qmult_le_compat_r; [|lra].
      rewrite <- Zle_Qle. apply roundHalfEven_monotone.
      apply Qmult_le_compat_r; [exact Hxy|].
      apply Qlt_le_weak, Qinv_lt_0_compat. exact HEy.
    + apply Qle_trans with (two53 * 2 ^ (JS.ilog2 x - 52)).
      * apply Qmult_le_compat_r; [|lra].
        unfold two53. change 9007199254740992 with (inject_Z 9007199254740992).
        now rewrite <- Zle_Qle.
      * apply Qle_trans with (two52 * 2 ^ (JS.ilog2 y - 52)).
        -- rewrite <- pow2_52, <- pow2_53, <- !pow2_plus.
           apply pow2_le. lia.
        -- apply Qmult_le_compat_r; [|lra].
           unfold two52. change 4503599627370496 with (inject_Z 4503599627370496).
           now rewrite <- Zle_Qle.
  - rewrite (fl_zero x) by (symmetry; exact Hzero).
    apply fl_nonneg. lra.
Qed.

Lemma fl_comp x y : 0 <= x -> x == y -> JS.fl x == JS.fl y.
Proof.
  intros Hx Hxy. apply Qle_antisym; apply fl_monotone; lra.
Qed.

(** Three doubles: one tenth, which is not a binary fraction; and two
    odd numbers above [2^53], which go to the even significand. *)
Example fl_tenth : JS.fl (1 # 10) == 3602879701896397 # 36028797018963968.
Proof. vm_compute. reflexivity. Qed.

Example fl_ties_to_even :
  JS.fl 9007199254740993 == 9007199254740992
  /\ JS.fl 9007199254740995 == 9007199254740996
  /\ JS.fl 100 == 100.
Proof. repeat split; vm_compute; reflexivity. Qed.

(** The two roundings of [(x / ...) * 100] together move a percentage
    by less than [2^-45]. *)
Lemma percent_error x :
  0 <= x <= 1 ->
  - percentNoise <= JS.fmul (JS.fl x) 100 - 100 * x <= percentNoise.
Proof.
  intros [Hx0 Hx1]. unfold JS.fmul.
  pose proof (fl_error x Hx0) as [Hlo1 Hhi1].
  pose proof (fl_nonneg x Hx0) as Hf1.
  assert (Hy : 0 <= JS.fl x * 100) by lra.
  pose proof (fl_error (JS.fl x * 100) Hy) as [Hlo2 Hhi2].
  set (f1 := JS.fl x) in *. set (f2 := JS.fl (f1 * 100)) in *.
  unfold roundoff, percentNoise in *. split; lra.
Qed.

Lemma inject_Z_sub x y : inject_Z (x - y) == inject_Z x - inject_Z y.
Proof.
  unfold Z.sub, Qminus. now rewrite inject_Z_plus, inject_Z_opp.
Qed.

Lemma Qfloor_unique y k : inject_Z k <= y < inject_Z k + 1 -> Qfloor y = k.
Proof.
  intros [Hlo Hhi].
  pose proof (Qfloor_le y) as Hfloor. pose proof (Qlt_floor y) as Hnext.
  rewrite inject_Z_plus in Hnext. change (inject_Z 1) with 1 in Hnext.
  assert (H1 : inject_Z (Qfloor y) < inject_Z (k + 1))
    by (rewrite inject_Z_plus; change (inject_Z 1) with 1; lra).
  assert (H2 : inject_Z k < inject_Z (Qfloor y + 1))
    by (rewrite inject_Z_plus; change (inject_Z 1) with 1; lra).
  rewrite <- Zlt_Qlt in H1, H2. lia.
Qed.

(** A percentage of [t < 2^32] parts that is not halfway between two
    whole numbers is further from the halfway points than the noise of the
    two roundings, so [Math.round] lands where it would without them; at a
    halfway point it lands there or one lower. *)
Lemma rounded_percent (t m : Z) (f : Q) :
  (0 <= m <= t)%Z -> (0 < t < 2 ^ 32)%Z ->
  - percentNoise <= f - 100 * (inject_Z t - inject_Z m) / inject_Z t
                 <= percentNoise ->
  ((~ exists k : Z, 100 * (inject_Z t - inject_Z m) / inject_Z t
                    == inject_Z k + (1 # 2)) ->
   Qfloor (f + (1 # 2))
   = Qfloor (100 * (inject_Z t - inject_Z m) / inject_Z t + (1 # 2)))
  /\ (forall k : Z,
         100 * (inject_Z t - inject_Z m) / inject_Z t == inject_Z k + (1 # 2) ->
         (0 <= k <= 99)%Z
         /\ Qfloor (100 * (inject_Z t - inject_Z m) / inject_Z t + (1 # 2))
            = (k + 1)%Z
         /\ (Qfloor (f + (1 # 2)) = k \/ Qfloor (f + (1 # 2)) = (k + 1)%Z)).
Proof.
  intros Hm Ht Hnoise.
  assert (Htpos : 0 < inject_Z t)
    by (change 0 with (inject_Z 0); rewrite <- Zlt_Qlt; lia).
  assert (Hmq : 0 <= inject_Z m <= inject_Z t)
    by (change 0 with (inject_Z 0); rewrite <- !Zle_Qle; lia).
  set (P := 100 * (inject_Z t - inject_Z m) / inject_Z t) in *.
  assert (HP : P * inject_Z t == 100 * (inject_Z t - inject_Z m))
    by (unfold P; field; lra).
  assert (HPrange : 0 <= P <= 100).
  { split.
    - unfold P. apply Qle_shift_div_l; [exact Htpos | lra].
    - unfold P. apply Qle_shift_div_r; [exact Htpos | lra]. }
  unfold percentNoise in Hnoise. split.
  - intros Hoff.
    set (N := (200 * (t - m) + t)%Z). set (D := (2 * t)%Z).
    assert (HD : (0 < D)%Z) by (unfold D; lia).
    pose proof (Z.div_mod N D ltac:(lia)) as Hdiv.
    pose proof (Z.mod_pos_bound N D HD) as Hrem.
    set (R := (N / D)%Z) in *. set (r := (N mod D)%Z) in *.
    assert (HDq : inject_Z D == 2 * inject_Z t)
      by (unfold D; rewrite inject_Z_mult; reflexivity).
    assert (HNq : inject_Z N == 200 * (inject_Z t - inject_Z m) + inject_Z t).
    { unfold N. rewrite inject_Z_plus, inject_Z_mult.
      unfold Z.sub. rewrite inject_Z_plus, inject_Z_opp. reflexivity. }
    assert (Hsplit : inject_Z N == inject_Z D * inject_Z R + inject_Z r)
      by (rewrite Hdiv at 1; rewrite inject_Z_plus, inject_Z_mult; reflexivity).
    set (w := / inject_Z D).
    assert (HDpos : 0 < inject_Z D) by lra.
    assert (Hw : 0 < w) by (now apply Qinv_lt_0_compat).
    assert (HwD : w * inject_Z D == 1) by (unfold w; field; lra).
    assert (Hhalf : P + (1 # 2) == inject_Z R + inject_Z r * w).
    { apply (Qmult_inj_r _ _ (inject_Z D)); [lra|].
      transitivity (inject_Z N).
      - rewrite HNq, HDq.
        setoid_replace ((P + (1 # 2)) * (2 * inject_Z t))
          with (2 * (P * inject_Z t) + inject_Z t) by ring.
        rewrite HP. ring.
      - rewrite Hsplit.
        setoid_replace ((inject_Z R + inject_Z r * w) * inject_Z D)
          with (inject_Z D * inject_Z R + inject_Z r * (w * inject_Z D)) by ring.
        rewrite HwD. ring. }
    destruct (Z.eq_dec r 0) as [Hzero|Hsome].
    + exfalso. apply Hoff. exists (R - 1)%Z.
      rewrite Hzero in Hhalf. rewrite inject_Z_sub.
      change (inject_Z 1) with 1. change (inject_Z 0) with 0 in Hhalf. lra.
    + assert (Hr1 : 1 <= inject_Z r)
        by (change 1 with (inject_Z 1); rewrite <- Zle_Qle; lia).
      assert (Hr2 : inject_Z r <= inject_Z D - 1)
        by (change 1 with (inject_Z 1); rewrite <- inject_Z_sub, <- Zle_Qle; lia).
      assert (Hg1 : 1 * w <= inject_Z r * w)
        by (apply Qmult_le_compat_r; lra).
      assert (Hg2 : inject_Z r * w <= (inject_Z D - 1) * w)
        by (apply Qmult_le_compat_r; lra).
      assert (HDmax : inject_Z D <= 8589934592).
      { change 8589934592 with (inject_Z 8589934592). rewrite <- Zle_Qle.
        unfold D. change (2 ^ 32)%Z with 4294967296%Z in Ht. lia. }
      assert (Hwmin : inject_Z D * w <= 8589934592 * w)
        by (apply Qmult_le_compat_r; lra).
      set (g := inject_Z r * w) in *.
      rewrite (Qfloor_unique (f + (1 # 2)) R) by (split; lra).
      symmetry. apply Qfloor_unique. split; lra.
  - intros k Hk.
    assert (Hkq : - (1 # 2) <= inject_Z k <= 100 - (1 # 2)) by lra.
    assert (Hk0 : inject_Z (-1) < inject_Z k)
      by (change (inject_Z (-1)) with (-1); lra).
    assert (Hk99 : inject_Z k < inject_Z 100)
      by (change (inject_Z 100) with 100; lra).
    rewrite <- Zlt_Qlt in Hk0, Hk99.
    split; [lia|]. split.
    + apply Qfloor_unique. rewrite inject_Z_plus. change (inject_Z 1) with 1.
      split; lra.
    + pose proof (Qfloor_le (f + (1 # 2))) as Hfloor.
      pose proof (Qlt_floor (f + (1 # 2))) as Hnext.
      rewrite inject_Z_plus in Hnext. change (inject_Z 1) with 1 in Hnext.
      set (F := Qfloor (f + (1 # 2))) in *.
      assert (H1 : inject_Z F < inject_Z (k + 2))
        by (rewrite inject_Z_plus; change (inject_Z 2) with 2; lra).
      assert (H2 : inject_Z (k - 1) < inject_Z F)
        by (rewrite inject_Z_sub; change (inject_Z 1) with 1; lra).
      rewrite <- Zlt_Qlt in H1, H2. lia.
Qed.

End FloatFacts.

(* ================================================================= *)
(** ** Properties of the matching engine *)

Module EngineFacts.
Import Engine Notions.

Lemma includesStr_In xs x : includesStr xs x = true <-> In x xs.
Proof.
  unfold includesStr. rewrite existsb_exists. split.
  - intros [y [Hy Heq]]. apply String.eqb_eq in Heq. now subst.
  - intros Hin. exists x. split; [assumption | apply String.eqb_refl].
Qed.

(** *** Generic list facts *)

Ltac distinct_strings :=
  repeat (apply NoDup_cons; [simpl; intuition discriminate|]); apply NoDup_nil.

Lemma In_firstn {A : Type} (n : nat) (l : list A) (x : A) :
  In x (firstn n l) -> In x l.
Proof.
  revert n. induction l as [|a l IH]; intros [|n]; simpl; try tauto.
  intros [->|Hin]; eauto.
Qed.

Section ListFacts.
Context {A B : Type}.
Variable f : A -> B.

Lemma NoDup_map_firstn (n : nat) (l : list A) :
  NoDup (map f l) -> NoDup (map f (firstn n l)).
Proof.
  revert n. induction l as [|a l IH]; intros [|n]; simpl; try constructor.
  - inversion H as [|? ? Hnotin Hnd]; subst.
    intros Hin. apply Hnotin. apply in_map_iff in Hin.
    destruct Hin as [y [Hy Hin]]. apply in_map_iff. exists y.
    split; [assumption | eapply In_firstn; eassumption].
  - inversion H; subst. now apply IH.
Qed.

Lemma NoDup_map_filter (p : A -> bool) (l : list A) :
  NoDup (map f l) -> NoDup (map f (filter p l)).
Proof.
  induction l as [|a l IH]; simpl; intros Hnd; [constructor|].
  inversion Hnd as [|? ? Hnotin Hnd']; subst.
  destruct (p a); simpl; [constructor|]; auto.
  intros Hin. apply Hnotin. apply in_map_iff in Hin.
  destruct Hin as [y [Hy Hin]]. apply filter_In in Hin.
  apply in_map_iff. exists y. tauto.
Qed.

Lemma Permutation_filter_length (p : A -> bool) (l l' : list A) :
  Permutation l l' ->
  List.length (filter p l) = List.length (filter p l').
Proof.
  induction 1; simpl; try congruence.
  - destruct (p x); simpl; congruence.
  - destruct (p x), (p y); reflexivity.
Qed.
End ListFacts.

(** *** The allergen filter *)

Lemma allergenSatisfied_disjoint recipe blocked :
  allergenSatisfied recipe blocked = true ->
  forall a, In a (allergens recipe) -> ~ In a blocked.
Proof.
  unfold allergenSatisfied. destruct blocked as [|b blocked]; [tauto|].
  intros Hsat a Ha Hblocked.
  apply negb_true_iff in Hsat.
  assert (Hex : existsb (fun allergen => includesStr (b :: blocked) allergen)
                        (allergens recipe) = true).
  { apply existsb_exists. exists a. split; [assumption|].
    now apply includesStr_In. }
  congruence.
Qed.

(** *** Sorting *)

Lemma insertByScore_perm entry sorted :
  Permutation (entry :: sorted) (insertByScore entry sorted).
Proof.
  induction sorted as [|other rest IH]; simpl; [reflexivity|].
  destruct (JS.gt _ _); [|reflexivity].
  rewrite perm_swap. now constructor.
Qed.

Lemma sortByScore_perm entries : Permutation entries (sortByScore entries).
Proof.
  induction entries as [|e entries IH]; simpl; [constructor|].
  rewrite <- insertByScore_perm. now constructor.
Qed.

(** The sorted list is ordered best first. *)
Lemma insertByScore_sorted entry sorted :
  Sorted (fun a b => (score b <= score a)%Q) sorted ->
  Sorted (fun a b => (score b <= score a)%Q) (insertByScore entry sorted).
Proof.
  induction sorted as [|other rest IH]; simpl; intros Hsorted.
  - repeat constructor.
  - unfold JS.gt. destruct (Qle_bool (score other - score entry) 0) eqn:Hle; simpl.
    + apply Qle_bool_iff in Hle. constructor; [exact Hsorted|].
      constructor. lra.
    + assert (Hgt : (score entry <= score other)%Q).
      { destruct (Qlt_le_dec 0 (score other - score entry)) as [Hlt|Hge]; [lra|].
        apply Qle_bool_iff in Hge. congruence. }
      inversion Hsorted as [|? ? Hrest Hhd]; subst.
      constructor; [now apply IH|].
      destruct rest as [|next rest]; simpl.
      * constructor. exact Hgt.
      * destruct (JS.gt (score next - score entry) 0);
          constructor; [|exact Hgt].
        inversion Hhd; assumption.
Qed.

Lemma sortByScore_sorted entries :
  Sorted (fun a b => (score b <= score a)%Q) (sortByScore entries).
Proof.
  induction entries as [|e entries IH]; simpl; [constructor|].
  now apply insertByScore_sorted.
Qed.

Lemma recipe_scoreRecipe pantryItems preferences (l : list Recipe) :
  map recipe (map (fun r => scoreRecipe r pantryItems preferences) l) = l.
Proof.
  rewrite map_map. simpl. apply map_id.
Qed.

(** *** The backfill loop *)

Lemma backfillStep_cases selected entry :
  backfillStep selected entry = selected
  \/ (backfillStep selected entry = selected ++ [recipe entry]
      /\ (List.length selected < 6)%nat
      /\ ~ In (id (recipe entry)) (map id selected)).
Proof.
  unfold backfillStep.
  destruct (6 <=? List.length selected)%nat eqn:Hfull; [now left|].
  destruct (existsb _ selected) eqn:Hfound; [now left|].
  right. split; [reflexivity|]. split.
  - apply Nat.leb_gt in Hfull. exact Hfull.
  - intros Hin. apply in_map_iff in Hin. destruct Hin as [r [Hr Hin]].
    assert (existsb (fun chosen => String.eqb (id chosen) (id (recipe entry)))
                    selected = true).
    { apply existsb_exists. exists r. split; [assumption|].
      now apply String.eqb_eq. }
    congruence.
Qed.

Lemma backfillStep_skips selected entry :
  backfillStep selected entry = selected ->
  (6 <= List.length selected)%nat \/ In (id (recipe entry)) (map id selected).
Proof.
  unfold backfillStep.
  destruct (6 <=? List.length selected)%nat eqn:Hfull.
  - left. now apply Nat.leb_le.
  - destruct (existsb _ selected) eqn:Hfound.
    + intros _. right. apply existsb_exists in Hfound.
      destruct Hfound as [r [Hin Heq]]. apply String.eqb_eq in Heq.
      rewrite <- Heq. now apply in_map.
    + intros Habs. exfalso.
      apply (f_equal (@List.length Recipe)) in Habs.
      rewrite length_app in Habs. simpl in Habs. lia.
Qed.

Lemma backfill_In scored : forall selected r,
  In r (backfill scored selected) ->
  In r selected \/ In r (map recipe scored).
Proof.
  induction scored as [|e scored IH]; simpl; intros selected r Hin; [now left|].
  apply IH in Hin. destruct Hin as [Hin|Hin]; [|now right; right].
  destruct (backfillStep_cases selected e) as [->|[-> _]] in Hin; [now left|].
  apply in_app_or in Hin. destruct Hin as [Hin|[<-|[]]]; [now left|].
  right. now left.
Qed.

Lemma backfill_keeps scored : forall selected r,
  In r selected -> In r (backfill scored selected).
Proof.
  induction scored as [|e scored IH]; simpl; intros selected r Hin; [exact Hin|].
  apply IH.
  destruct (backfillStep_cases selected e) as [->|[-> _]]; [exact Hin|].
  apply in_or_app. now left.
Qed.

Lemma backfill_length_le scored : forall selected,
  (List.length selected <= 6)%nat ->
  (List.length (backfill scored selected) <= 6)%nat.
Proof.
  induction scored as [|e scored IH]; simpl; intros selected Hlen; [exact Hlen|].
  apply IH.
  destruct (backfillStep_cases selected e) as [->|[-> [Hlt _]]]; [exact Hlen|].
  rewrite length_app. simpl. lia.
Qed.

Lemma backfill_NoDup scored : forall selected,
  NoDup (map id selected) ->
  NoDup (map id (backfill scored selected)).
Proof.
  induction scored as [|e scored IH]; simpl; intros selected Hnd; [exact Hnd|].
  apply IH.
  destruct (backfillStep_cases selected e) as [->|[-> [_ Hfresh]]]; [exact Hnd|].
  rewrite map_app. simpl.
  apply NoDup_app; [exact Hnd | repeat constructor; tauto |].
  intros x Hx [<-|[]]. contradiction.
Qed.

Lemma backfill_length_ge scored : forall selected,
  (List.length selected <= List.length (backfill scored selected))%nat.
Proof.
  induction scored as [|e scored IH]; simpl; intros selected; [lia|].
  etransitivity; [|apply IH].
  destruct (backfillStep_cases selected e) as [->|[-> _]]; [lia|].
  rewrite length_app. simpl. lia.
Qed.

(** When the loop ends, either six recipes are selected or every
    identifier of the sorted list is among the selected ones. *)
Lemma backfill_exhausts scored : forall selected,
  (6 <= List.length (backfill scored selected))%nat
  \/ incl (map (fun e => id (recipe e)) scored)
          (map id (backfill scored selected)).
Proof.
  induction scored as [|e scored IH]; simpl; intros selected.
  - right. intros x [].
  - destruct (IH (backfillStep selected e)) as [Hfull|Hincl]; [now left|].
    assert (Hmono : forall r, In r (backfillStep selected e) ->
                              In r (backfill scored (backfillStep selected e)))
      by (intros r; apply backfill_keeps).
    destruct (backfillStep_cases selected e) as [Hsame|[Hpush _]].
    + destruct (backfillStep_skips _ _ Hsame) as [Hsix|Hin].
      * left. rewrite Hsame.
        pose proof (backfill_length_ge scored selected). lia.
      * right. intros x [<-|Hx]; [|now apply Hincl].
        apply in_map_iff in Hin. destruct Hin as [r [Hr Hin]].
        rewrite <- Hr. apply in_map. apply Hmono. now rewrite Hsame.
    + right. intros x [<-|Hx]; [|now apply Hincl].
      apply in_map. apply Hmono. rewrite Hpush. apply in_or_app.
      right. now left.
Qed.

(** *** The selection policy *)

Lemma scoredPool_recipes recipes pantryItems preferences :
  Permutation (allergenSafePool recipes preferences)
              (map recipe (scoredPool recipes pantryItems preferences)).
Proof.
  unfold scoredPool. rewrite <- sortByScore_perm.
  now rewrite recipe_scoreRecipe.
Qed.

Lemma scoredPool_length recipes pantryItems preferences :
  List.length (scoredPool recipes pantryItems preferences)
  = List.length (allergenSafePool recipes preferences).
Proof.
  rewrite (Permutation_length (scoredPool_recipes recipes pantryItems preferences)).
  now rewrite length_map.
Qed.

Lemma generateRecipeOptions_unfold recipes pantryItems preferences :
  generateRecipeOptions recipes pantryItems preferences =
  let allergenSafe := allergenSafePool recipes preferences in
  let scored := scoredPool recipes pantryItems preferences in
  let selected := map recipe (firstn 6 (filter strictMatch scored)) in
  let selected :=
    if (List.length selected <? 3)%nat then backfill scored selected else selected in
  if (List.length selected <? 3)%nat
  then firstn (Nat.min 3 (List.length allergenSafe)) allergenSafe
  else firstn 6 selected.
Proof. reflexivity. Qed.

Lemma strict_selection_In recipes pantryItems preferences r :
  In r (map recipe
            (firstn 6 (filter strictMatch
                              (scoredPool recipes pantryItems preferences)))) ->
  In r (allergenSafePool recipes preferences).
Proof.
  intros Hin.
  apply (Permutation_in r
           (Permutation_sym (scoredPool_recipes recipes pantryItems preferences))).
  apply in_map_iff in Hin. destruct Hin as [e [<- Hin]].
  apply in_map. apply In_firstn in Hin. now apply filter_In in Hin.
Qed.

Lemma generateRecipeOptions_In_pool recipes pantryItems preferences r :
  In r (generateRecipeOptions recipes pantryItems preferences) ->
  In r (allergenSafePool recipes preferences).
Proof.
  rewrite generateRecipeOptions_unfold. cbv zeta.
  set (scored := scoredPool recipes pantryItems preferences).
  set (strict := map recipe (firstn 6 (filter strictMatch scored))).
  destruct (List.length (if (List.length strict <? 3)%nat
                         then backfill scored strict else strict) <? 3)%nat.
  - apply In_firstn.
  - intros Hin. apply In_firstn in Hin.
    destruct (List.length strict <? 3)%nat.
    + apply backfill_In in Hin. destruct Hin as [Hin|Hin].
      * now apply (strict_selection_In recipes pantryItems).
      * apply (Permutation_in r
           (Permutation_sym (scoredPool_recipes recipes pantryItems preferences))).
        exact Hin.
    + now apply (strict_selection_In recipes pantryItems).
Qed.

Lemma generateRecipeOptions_length recipes pantryItems preferences :
  (3 <= List.length (allergenSafePool recipes preferences))%nat ->
  (3 <= List.length (generateRecipeOptions recipes pantryItems preferences) <= 6)%nat.
Proof.
  intros Hpool. rewrite generateRecipeOptions_unfold. cbv zeta.
  match goal with
  | |- context [if (List.length ?sel <? 3)%nat then firstn _ _ else _] =>
      destruct (List.length sel <? 3)%nat eqn:Hfew;
      [ | apply Nat.ltb_ge in Hfew ]
  end; rewrite length_firstn; lia.
Qed.

Lemma generateRecipeOptions_NoDup recipes pantryItems preferences :
  NoDup (map id (allergenSafePool recipes preferences)) ->
  NoDup (map id (generateRecipeOptions recipes pantryItems preferences)).
Proof.
  intros Hpool. rewrite generateRecipeOptions_unfold. cbv zeta.
  set (scored := scoredPool recipes pantryItems preferences).
  assert (Hscored : NoDup (map id (map recipe scored))).
  { eapply Permutation_NoDup; [|exact Hpool].
    apply Permutation_map. apply scoredPool_recipes. }
  assert (Hstrict : NoDup (map id (map recipe
                             (firstn 6 (filter strictMatch scored))))).
  { rewrite map_map. apply NoDup_map_firstn. apply NoDup_map_filter.
    now rewrite <- map_map. }
  match goal with
  | |- context [if (List.length ?sel <? 3)%nat then firstn _ _ else _] =>
      destruct (List.length sel <? 3)%nat
  end.
  - now apply NoDup_map_firstn.
  - apply NoDup_map_firstn.
    destruct (List.length _ <? 3)%nat; [|exact Hstrict].
    now apply backfill_NoDup.
Qed.

(** C1: with at least three allergen-safe recipes in the corpus,
    [generateRecipeOptions] returns between three and six recipes, and
    their identifiers are pairwise distinct.  The identifier of a recipe
    is unique in the data model, which is what the second part rests on;
    the bounds hold whatever the identifiers are. *)
Theorem generateRecipeOptions_three_to_six recipes pantryItems preferences :
  (3 <= List.length (allergenSafePool recipes preferences))%nat ->
  (3 <= List.length (generateRecipeOptions recipes pantryItems preferences) <= 6)%nat
  /\ (NoDup (map id recipes) ->
      NoDup (map id (generateRecipeOptions recipes pantryItems preferences))).
Proof.
  intros Hpool. split.
  - now apply generateRecipeOptions_length.
  - intros Hids. apply generateRecipeOptions_NoDup.
    unfold allergenSafePool. now apply NoDup_map_filter.
Qed.

(** C3: no recipe returned by [generateRecipeOptions] contains an
    allergen listed in [allergensToAvoid], whichever path of the selection
    produced it. *)
Theorem generateRecipeOptions_allergen_free
        recipes pantryItems preferences r allergen :
  In r (generateRecipeOptions recipes pantryItems preferences) ->
  In allergen (allergens r) ->
  ~ In allergen (allergensToAvoid preferences).
Proof.
  intros Hres. apply generateRecipeOptions_In_pool in Hres.
  apply filter_In in Hres. destruct Hres as [_ Hsafe].
  now apply allergenSatisfied_disjoint.
Qed.

(** C6, as the code has it: with fewer than three strict matches and a
    pool of at least three recipes with distinct identifiers, the
    backfill goes on until six recipes are selected or the sorted list is
    exhausted, so exactly [min 6 (pool size)] recipes are returned. *)
Theorem generateRecipeOptions_backfills_to_six recipes pantryItems preferences :
  (strictCount recipes pantryItems preferences < 3)%nat ->
  (3 <= List.length (allergenSafePool recipes preferences))%nat ->
  NoDup (map id (allergenSafePool recipes preferences)) ->
  List.length (generateRecipeOptions recipes pantryItems preferences)
  = Nat.min 6 (List.length (allergenSafePool recipes preferences)).
Proof.
  unfold strictCount. intros Hstrict Hpool Hids.
  rewrite generateRecipeOptions_unfold. cbv zeta.
  rewrite <- (scoredPool_length recipes pantryItems preferences) in *.
  set (scored := scoredPool recipes pantryItems preferences) in *.
  set (strict := map recipe (firstn 6 (filter strictMatch scored))).
  assert (Hscored : NoDup (map (fun e => id (recipe e)) scored)).
  { rewrite <- map_map. eapply Permutation_NoDup; [|exact Hids].
    apply Permutation_map. apply scoredPool_recipes. }
  assert (HstrictLen : (List.length strict < 3)%nat).
  { unfold strict. rewrite length_map, length_firstn. lia. }
  assert (HstrictNd : NoDup (map id strict)).
  { unfold strict. rewrite map_map. apply NoDup_map_firstn.
    now apply NoDup_map_filter. }
  apply Nat.ltb_lt in HstrictLen as Hfew. rewrite Hfew.
  set (filled := backfill scored strict).
  assert (Hle6 : (List.length filled <= 6)%nat)
    by (apply backfill_length_le; lia).
  assert (Hnd : NoDup (map id filled)) by now apply backfill_NoDup.
  assert (Hsub : incl (map id filled) (map (fun e => id (recipe e)) scored)).
  { intros x Hx. apply in_map_iff in Hx. destruct Hx as [r [<- Hr]].
    rewrite <- map_map. apply in_map.
    apply backfill_In in Hr. destruct Hr as [Hr|Hr]; [|exact Hr].
    unfold strict in Hr. apply in_map_iff in Hr. destruct Hr as [e [<- He]].
    apply in_map. apply In_firstn in He. now apply filter_In in He. }
  pose proof (NoDup_incl_length Hnd Hsub) as Hupper.
  rewrite !length_map in Hupper.
  assert (Hlen : List.length filled = Nat.min 6 (List.length scored)).
  { pose proof (backfill_exhausts scored strict) as Hend.
    fold filled in Hend. destruct Hend as [Hsix|Hall].
    - lia.
    - pose proof (NoDup_incl_length Hscored Hall) as Hlower.
      rewrite !length_map in Hlower. lia. }
  assert (Hnotfew : (List.length filled <? 3)%nat = false)
    by (apply Nat.ltb_ge; lia).
  rewrite Hnotfew, length_firstn. lia.
Qed.

(** C6, as stated, fails: four allergen-safe recipes with distinct
    identifiers, none a strict match, and four recipes come back. *)
Lemma generateRecipeOptions_backfill_passes_three :
  (strictCount Samples.slowCorpus ["onion"] Samples.avoidingNuts < 3)%nat
  /\ (3 <= List.length (allergenSafePool Samples.slowCorpus Samples.avoidingNuts))%nat
  /\ NoDup (map id (allergenSafePool Samples.slowCorpus Samples.avoidingNuts))
  /\ map id (generateRecipeOptions Samples.slowCorpus ["onion"] Samples.avoidingNuts)
     = ["roast"; "braise"; "confit"; "jam"]
  /\ List.length (generateRecipeOptions Samples.slowCorpus ["onion"]
                                        Samples.avoidingNuts) <> 3%nat.
Proof.
  split; [vm_compute; lia|]. split; [vm_compute; lia|].
  split; [vm_compute; distinct_strings|].
  split; [vm_compute; reflexivity | vm_compute; lia].
Qed.

(** *** Pantry fit *)

Lemma Math_round_comp x y : (x == y)%Q -> JS.Math_round x = JS.Math_round y.
Proof.
  intros Heq. unfold JS.Math_round. f_equal. apply Qfloor_comp.
  now rewrite Heq.
Qed.

Lemma Math_round_inject (z : Z) : JS.Math_round (inject_Z z) = inject_Z z.
Proof.
  unfold JS.Math_round. f_equal.
  assert (Hlo := Qfloor_le (inject_Z z + (1 # 2))).
  assert (Hhi := Qlt_floor (inject_Z z + (1 # 2))).
  set (k := Qfloor (inject_Z z + (1 # 2))) in *.
  assert (H1 : (inject_Z k < inject_Z (z + 1))%Q).
  { rewrite inject_Z_plus. change (inject_Z 1) with 1%Q. lra. }
  assert (H2 : (inject_Z z < inject_Z (k + 1))%Q) by lra.
  rewrite <- Zlt_Qlt in H1, H2. lia.
Qed.

Lemma ofNat_pos n : (n <> 0)%nat -> (0 < JS.ofNat n)%Q.
Proof.
  intros Hn. unfold JS.ofNat. change 0%Q with (inject_Z 0).
  rewrite <- Zlt_Qlt. lia.
Qed.

Lemma missing_none recipe pantryItems :
  forallb (fun ingredient => hasIngredient (name ingredient) pantryItems)
          (ingredients recipe) = true ->
  missingIngredients recipe pantryItems = [].
Proof.
  unfold missingIngredients. induction (ingredients recipe) as [|i l IH]; simpl.
  - reflexivity.
  - intros Hall. apply andb_true_iff in Hall. destruct Hall as [-> Hall].
    simpl. now apply IH.
Qed.

Lemma missingIngredients_length recipe pantryItems :
  (List.length (missingIngredients recipe pantryItems)
   <= List.length (ingredients recipe))%nat.
Proof. unfold missingIngredients. apply filter_length_le. Qed.

Lemma ofNat_le n m : (n <= m)%nat -> (JS.ofNat n <= JS.ofNat m)%Q.
Proof. intros Hle. unfold JS.ofNat. rewrite <- Zle_Qle. lia. Qed.

(** The count of the specification is the length of the list that the
    code filters out. *)
Lemma unmatchedCount_code recipe pantryItems :
  unmatchedCount recipe pantryItems
  = List.length (missingIngredients recipe pantryItems).
Proof.
  unfold unmatchedCount, missingIngredients.
  pose proof (filter_length
                (fun ingredient => hasIngredient (name ingredient) pantryItems)
                (ingredients recipe)) as Hparts.
  cbv beta in Hparts. lia.
Qed.

(** The share of the ingredients that are matched, a number from 0 to 1 *)
Lemma matched_share recipe pantryItems :
  ingredients recipe <> [] ->
  (0 <= (JS.ofNat (List.length (ingredients recipe))
         - JS.ofNat (List.length (missingIngredients recipe pantryItems)))
        / JS.ofNat (List.length (ingredients recipe)) <= 1)%Q.
Proof.
  intros Hsome.
  assert (Hlen : List.length (ingredients recipe) <> 0%nat)
    by (destruct (ingredients recipe); [contradiction | discriminate]).
  pose proof (ofNat_pos _ Hlen) as Hpos.
  pose proof (ofNat_le _ _ (missingIngredients_length recipe pantryItems)) as Hle.
  assert (Hmissing : (0 <= JS.ofNat (List.length (missingIngredients recipe pantryItems)))%Q).
  { unfold JS.ofNat. change 0%Q with (inject_Z 0). rewrite <- Zle_Qle. lia. }
  split.
  - apply Qle_shift_div_l; [exact Hpos | lra].
  - apply Qle_shift_div_r; [exact Hpos | lra].
Qed.

Lemma pantryFitPercent_unfold recipe pantryItems :
  ingredients recipe <> [] ->
  pantryFitPercent recipe pantryItems
  = JS.Math_max 0
      (JS.Math_min 100
         (JS.Math_round
            (JS.fmul
               (JS.fl ((JS.ofNat (List.length (ingredients recipe))
                        - JS.ofNat (List.length (missingIngredients recipe pantryItems)))
                       / JS.ofNat (List.length (ingredients recipe))))
               100))).
Proof.
  intros Hsome. unfold pantryFitPercent.
  destruct (ingredients recipe) as [|i l] eqn:Hing; [contradiction|].
  reflexivity.
Qed.

Lemma pantryFitPercentSpec_unfold recipe pantryItems :
  ingredients recipe <> [] ->
  (pantryFitPercentSpec recipe pantryItems
   == Qmax 0 (Qmin 100
        (JS.Math_round
           (100 * (JS.ofNat (List.length (ingredients recipe))
                   - JS.ofNat (List.length (missingIngredients recipe pantryItems)))
            / JS.ofNat (List.length (ingredients recipe))))))%Q.
Proof.
  intros Hsome. unfold pantryFitPercentSpec. rewrite unmatchedCount_code.
  assert (Hlen : List.length (ingredients recipe) <> 0%nat)
    by (destruct (ingredients recipe); [contradiction | discriminate]).
  pose proof (ofNat_pos _ Hlen) as Hpos.
  destruct (ingredients recipe) as [|i l] eqn:Hing; [contradiction|].
  rewrite <- Hing in *.
  destruct (forallb _ (ingredients recipe)) eqn:Hall; [|reflexivity].
  rewrite (missing_none _ _ Hall). simpl List.length.
  rewrite (Math_round_comp _ (inject_Z 100)).
  - rewrite Math_round_inject. reflexivity.
  - unfold JS.ofNat at 2. simpl inject_Z. field. lra.
Qed.

Lemma clamp_inside z :
  (0 <= z <= 100)%Z -> (Qmax 0 (Qmin 100 (inject_Z z)) == inject_Z z)%Q.
Proof.
  intros [Hlo Hhi].
  assert (Hq : (0 <= inject_Z z <= 100)%Q).
  { change 0%Q with (inject_Z 0). change 100%Q with (inject_Z 100).
    rewrite <- !Zle_Qle. split; assumption. }
  rewrite (Q.min_r 100 (inject_Z z)) by apply Hq.
  apply Q.max_r. apply Hq.
Qed.

(** C8, as the code has it: [pantryFitPercent] lies in [0, 100]; it is
    0 for a recipe without ingredients and 100 when every ingredient is
    matched by the pantry.  Otherwise it is [Math.round] of the double
    [((total - missing) / total) * 100], and that is
    [round (100 * (total - missing) / total)] unless this percentage lies
    exactly halfway between two whole numbers: the two roundings of the
    doubles may then leave the product just under the half, and the result
    is the rounded percentage or one less.  The length of an array is
    below [2^32]. *)
Theorem pantryFitPercent_rounds recipe pantryItems :
  (Z.of_nat (List.length (ingredients recipe)) < 2 ^ 32)%Z ->
  (0 <= pantryFitPercent recipe pantryItems <= 100)%Q
  /\ (ingredients recipe = [] -> pantryFitPercent recipe pantryItems = 0%Q)
  /\ (ingredients recipe <> [] ->
      missingIngredients recipe pantryItems = [] ->
      (pantryFitPercent recipe pantryItems == 100)%Q)
  /\ (~ halfwayPercent recipe pantryItems ->
      (pantryFitPercent recipe pantryItems
       == pantryFitPercentSpec recipe pantryItems)%Q)
  /\ (halfwayPercent recipe pantryItems ->
      (pantryFitPercent recipe pantryItems
       == pantryFitPercentSpec recipe pantryItems)%Q
      \/ (pantryFitPercent recipe pantryItems
          == pantryFitPercentSpec recipe pantryItems - 1)%Q).
Proof.
  intros Hsize.
  assert (Hrange : (0 <= pantryFitPercent recipe pantryItems <= 100)%Q).
  { unfold pantryFitPercent.
    destruct (List.length (ingredients recipe) =? 0)%nat; [lra|].
    unfold JS.Math_max, JS.Math_min. split.
    - apply Q.le_max_l.
    - apply Q.max_lub; [lra | apply Q.le_min_l]. }
  assert (Hnone : ingredients recipe = [] ->
                  pantryFitPercent recipe pantryItems = 0%Q
                  /\ pantryFitPercentSpec recipe pantryItems = 0%Q).
  { intros Hing. unfold pantryFitPercent, pantryFitPercentSpec.
    rewrite Hing. split; reflexivity. }
  assert (Hmain :
            ingredients recipe <> [] ->
            (~ halfwayPercent recipe pantryItems ->
             (pantryFitPercent recipe pantryItems
              == pantryFitPercentSpec recipe pantryItems)%Q)
            /\ (halfwayPercent recipe pantryItems ->
                (pantryFitPercent recipe pantryItems
                 == pantryFitPercentSpec recipe pantryItems)%Q
                \/ (pantryFitPercent recipe pantryItems
                    == pantryFitPercentSpec recipe pantryItems - 1)%Q)).
  { intros Hsome.
    assert (Hlen : List.length (ingredients recipe) <> 0%nat)
      by (destruct (ingredients recipe); [contradiction | discriminate]).
    pose proof (ofNat_pos _ Hlen) as Hpos.
    pose proof (missingIngredients_length recipe pantryItems) as Hmissing.
    pose proof (matched_share recipe pantryItems Hsome) as Hshare.
    pose proof (FloatFacts.percent_error _ Hshare) as Hnoise.
    rewrite (pantryFitPercent_unfold _ _ Hsome).
    rewrite (pantryFitPercentSpec_unfold _ _ Hsome).
    unfold halfwayPercent. cbv zeta. rewrite unmatchedCount_code.
    set (fit := JS.fmul _ 100) in *.
    unfold JS.ofNat in *.
    set (t := Z.of_nat (List.length (ingredients recipe))) in *.
    set (m := Z.of_nat (List.length (missingIngredients recipe pantryItems))) in *.
    assert (Hsame : (100 * ((inject_Z t - inject_Z m) / inject_Z t)
                     == 100 * (inject_Z t - inject_Z m) / inject_Z t)%Q)
      by (field; lra).
    rewrite Hsame in Hnoise.
    destruct (FloatFacts.rounded_percent t m fit ltac:(lia) ltac:(lia) Hnoise)
      as [Hoff Hhalf].
    unfold JS.Math_max, JS.Math_min, JS.Math_round. split.
    - intros Hnot. now rewrite (Hoff Hnot).
    - intros [k Hk]. destruct (Hhalf k Hk) as [Hk99 [Hspec Hcode]].
      rewrite Hspec, (clamp_inside (k + 1)) by lia.
      destruct Hcode as [-> | ->].
      + right. rewrite (clamp_inside k) by lia.
        rewrite inject_Z_plus. change (inject_Z 1) with 1%Q. ring.
      + left. now rewrite (clamp_inside (k + 1)) by lia. }
  split; [exact Hrange|].
  split; [intros Hing; apply (Hnone Hing)|].
  split; [|split].
  - intros Hsome Hall.
    destruct (Hmain Hsome) as [Hoff _].
    rewrite Hoff.
    + rewrite (pantryFitPercentSpec_unfold _ _ Hsome), Hall. simpl List.length.
      assert (Hlen : List.length (ingredients recipe) <> 0%nat)
        by (destruct (ingredients recipe); [contradiction | discriminate]).
      pose proof (ofNat_pos _ Hlen) as Hpos.
      rewrite (Math_round_comp _ (inject_Z 100)).
      * rewrite Math_round_inject. reflexivity.
      * unfold JS.ofNat at 2. simpl inject_Z. field. lra.
    + unfold halfwayPercent. cbv zeta. rewrite unmatchedCount_code, Hall.
      simpl List.length.
      assert (Hlen : List.length (ingredients recipe) <> 0%nat)
        by (destruct (ingredients recipe); [contradiction | discriminate]).
      pose proof (ofNat_pos _ Hlen) as Hpos.
      intros [k Hk].
      assert (Hk' : (inject_Z k == 100 - (1 # 2))%Q).
      { rewrite <- (Qplus_inj_r _ _ (1 # 2)).
        rewrite <- Hk. unfold JS.ofNat at 2. simpl inject_Z. field. lra. }
      assert (H1 : (inject_Z 99 < inject_Z k)%Q)
        by (change (inject_Z 99) with 99%Q; lra).
      assert (H2 : (inject_Z k < inject_Z 100)%Q)
        by (change (inject_Z 100) with 100%Q; lra).
      rewrite <- Zlt_Qlt in H1, H2. lia.
  - intros Hnot. destruct (ingredients recipe) as [|i l] eqn:Hing.
    + destruct (Hnone eq_refl) as [-> ->]. reflexivity.
    + apply Hmain; [discriminate | exact Hnot].
  - intros Hhalf. destruct (ingredients recipe) as [|i l] eqn:Hing.
    + left. destruct (Hnone eq_refl) as [-> ->]. reflexivity.
    + apply Hmain; [discriminate | exact Hhalf].
Qed.

Lemma pantryFitPercent_rounds_witness :
  (Z.of_nat (List.length (ingredients Samples.feast)) < 2 ^ 32)%Z
  /\ halfwayPercent Samples.feast ["onion"]
  /\ (0 <= pantryFitPercent Samples.feast ["onion"] <= 100)%Q
  /\ ((pantryFitPercent Samples.feast ["onion"]
       == pantryFitPercentSpec Samples.feast ["onion"])%Q
      \/ (pantryFitPercent Samples.feast ["onion"]
          == pantryFitPercentSpec Samples.feast ["onion"] - 1)%Q).
Proof.
  assert (Hsize : (Z.of_nat (List.length (ingredients Samples.feast)) < 2 ^ 32)%Z)
    by (vm_compute; reflexivity).
  assert (Hhalf : halfwayPercent Samples.feast ["onion"])
    by (exists 57%Z; vm_compute; reflexivity).
  split; [exact Hsize|]. split; [exact Hhalf|].
  split.
  - exact (proj1 (pantryFitPercent_rounds Samples.feast ["onion"] Hsize)).
  - exact (proj2 (proj2 (proj2 (proj2
             (pantryFitPercent_rounds Samples.feast ["onion"] Hsize)))) Hhalf).
Defined.

(** C8, as stated, fails: with 23 of 40 ingredients matched the
    percentage is 57.5 and its rounding 58, but the double
    [(23 / 40) * 100] lies just under 57.5 and the code returns 57. *)
Lemma pantryFitPercent_rounds_down_at_tie :
  List.length (ingredients Samples.feast) = 40%nat
  /\ List.length (missingIngredients Samples.feast ["onion"]) = 17%nat
  /\ (JS.fmul (JS.fdiv (40 - 17) 40) 100
      == 8092405580431359 # 140737488355328)%Q
  /\ (pantryFitPercent Samples.feast ["onion"] == 57)%Q
  /\ (pantryFitPercentSpec Samples.feast ["onion"] == 58)%Q
  /\ ~ (pantryFitPercent Samples.feast ["onion"]
        == pantryFitPercentSpec Samples.feast ["onion"])%Q.
Proof.
  split; [reflexivity|]. split; [vm_compute; reflexivity|].
  assert (Hcode : (pantryFitPercent Samples.feast ["onion"] == 57)%Q)
    by (vm_compute; reflexivity).
  assert (Hspec : (pantryFitPercentSpec Samples.feast ["onion"] == 58)%Q)
    by (vm_compute; reflexivity).
  split; [vm_compute; reflexivity|].
  split; [exact Hcode|]. split; [exact Hspec|].
  rewrite Hcode, Hspec. discriminate.
Qed.

(** *** Scaling *)


Ltac constant_divisors :=
  unfold Qdiv in *;
  change (/ 2)%Q with (1 # 2)%Q in *;
  change (/ 10)%Q with (1 # 10)%Q in *.







(** C10: with [currentServings <= 0] or [targetServings <= 0],
    [scaleIngredients] returns its input list as it is. *)
Theorem scaleIngredients_nonpositive_servings
        ingredients currentServings targetServings :
  (currentServings <= 0)%Q \/ (targetServings <= 0)%Q ->
  scaleIngredients ingredients currentServings targetServings = ingredients.
Proof.
  intros Hnonpos. unfold scaleIngredients, JS.le.
  destruct Hnonpos as [Hle|Hle]; apply Qle_bool_iff in Hle; rewrite Hle.
  - reflexivity.
  - now rewrite orb_true_r.
Qed.

Lemma scaleIngredients_nonpositive_servings_witness :
  ((4 <= 0)%Q \/ (-2 <= 0)%Q)
  /\ scaleIngredients [Samples.pasta; Samples.butter] 4 (-2)
     = [Samples.pasta; Samples.butter].
Proof.
  assert (Hneg : (4 <= 0)%Q \/ (-2 <= 0)%Q) by (right; discriminate).
  split; [exact Hneg|].
  exact (scaleIngredients_nonpositive_servings
           [Samples.pasta; Samples.butter] 4 (-2) Hneg).
Defined.

(** *** Runs of the selection policy on the sample corpora *)

Lemma generateRecipeOptions_three_to_six_witness :
  (3 <= List.length (allergenSafePool Samples.corpus Samples.avoidingNuts))%nat
  /\ NoDup (map id Samples.corpus)
  /\ (3 <= List.length (generateRecipeOptions Samples.corpus ["onion"]
                                              Samples.avoidingNuts) <= 6)%nat
  /\ NoDup (map id (generateRecipeOptions Samples.corpus ["onion"]
                                          Samples.avoidingNuts)).
Proof.
  assert (Hpool : (3 <= List.length
                          (allergenSafePool Samples.corpus Samples.avoidingNuts))%nat)
    by (vm_compute; lia).
  assert (Hids : NoDup (map id Samples.corpus)) by (simpl; distinct_strings).
  destruct (generateRecipeOptions_three_to_six
              Samples.corpus ["onion"] Samples.avoidingNuts Hpool)
    as [Hlen Hnd].
  split; [exact Hpool|]. split; [exact Hids|]. split; [exact Hlen|].
  exact (Hnd Hids).
Defined.

Lemma generateRecipeOptions_allergen_free_witness :
  (In (Samples.dish "gratin" "Onion gratin" 40 ["dairy"])
      (generateRecipeOptions Samples.corpus ["onion"] Samples.avoidingNuts)
   /\ In "dairy" (allergens (Samples.dish "gratin" "Onion gratin" 40 ["dairy"]))
   /\ ~ In "dairy" (allergensToAvoid Samples.avoidingNuts))
  /\ (generateRecipeOptions Samples.smallCorpus [] Samples.avoidingNuts
      = [Samples.dish "gratin" "Onion gratin" 40 ["dairy"]]
      /\ ~ In "dairy" (allergensToAvoid Samples.avoidingNuts)).
Proof.
  assert (Hres : In (Samples.dish "gratin" "Onion gratin" 40 ["dairy"])
                    (generateRecipeOptions Samples.corpus ["onion"]
                                           Samples.avoidingNuts))
    by (vm_compute; repeat ((left; reflexivity) || right)).
  assert (Hsmall : generateRecipeOptions Samples.smallCorpus [] Samples.avoidingNuts
                   = [Samples.dish "gratin" "Onion gratin" 40 ["dairy"]])
    by (vm_compute; reflexivity).
  assert (Hin : In (Samples.dish "gratin" "Onion gratin" 40 ["dairy"])
                   (generateRecipeOptions Samples.smallCorpus []
                                          Samples.avoidingNuts))
    by (rewrite Hsmall; left; reflexivity).
  assert (Hdairy : In "dairy"
                      (allergens (Samples.dish "gratin" "Onion gratin" 40 ["dairy"])))
    by (left; reflexivity).
  split.
  - split; [exact Hres|]. split; [exact Hdairy|].
    exact (generateRecipeOptions_allergen_free
             Samples.corpus ["onion"] Samples.avoidingNuts _ _ Hres Hdairy).
  - split; [exact Hsmall|].
    exact (generateRecipeOptions_allergen_free
             Samples.smallCorpus [] Samples.avoidingNuts _ _ Hin Hdairy).
Defined.

Lemma generateRecipeOptions_backfills_to_six_witness :
  (strictCount Samples.slowCorpus ["onion"] Samples.avoidingNuts < 3)%nat
  /\ (3 <= List.length (allergenSafePool Samples.slowCorpus Samples.avoidingNuts))%nat
  /\ NoDup (map id (allergenSafePool Samples.slowCorpus Samples.avoidingNuts))
  /\ List.length (generateRecipeOptions Samples.slowCorpus ["onion"]
                                        Samples.avoidingNuts)
     = Nat.min 6 (List.length (allergenSafePool Samples.slowCorpus
                                                Samples.avoidingNuts)).
Proof.
  assert (Hstrict : (strictCount Samples.slowCorpus ["onion"]
                                 Samples.avoidingNuts < 3)%nat)
    by (vm_compute; lia).
  assert (Hpool : (3 <= List.length (allergenSafePool Samples.slowCorpus
                                                      Samples.avoidingNuts))%nat)
    by (vm_compute; lia).
  assert (Hids : NoDup (map id (allergenSafePool Samples.slowCorpus
                                                 Samples.avoidingNuts)))
    by (vm_compute; distinct_strings).
  split; [exact Hstrict|]. split; [exact Hpool|]. split; [exact Hids|].
  exact (generateRecipeOptions_backfills_to_six
           Samples.slowCorpus ["onion"] Samples.avoidingNuts Hstrict Hpool Hids).
Defined.

(** *** Runs taken from the repository's tests and scenarios *)

(** 200 g of pasta for four servings is 100 g for two. *)
Example scaleIngredients_halves :
  map quantity
      (scaleIngredients [ {| name := "pasta"; quantity := 200; unit := "g";
                             optional := None; notes := None |} ] 4 2)
  = [100%Q].
Proof. reflexivity. Qed.

(** A pantry entry matches an ingredient when either contains the other
    as a run of whole words. *)
Example hasIngredient_runs :
  hasIngredient "dried pasta" ["dried pasta"; "garlic"] = true
  /\ hasIngredient "chopped tomatoes" ["dried pasta"; "garlic"] = false
  /\ hasIngredient "tomatoes" ["Chopped Tomatoes (tin)"] = true
  /\ hasIngredient "tomato" ["chopped tomatoes"] = false.
Proof. repeat split; reflexivity. Qed.

Example generateRecipeOptions_run :
  map id (generateRecipeOptions Samples.corpus ["onion"] Samples.avoidingNuts)
  = ["soup"; "gratin"; "tart"; "bhaji"].
Proof. vm_compute. reflexivity. Qed.

(* ----------------------------------------------------------------- *)
(** *** Text normalisation *)

Ltac each_char c :=
  destruct c as [[] [] [] [] [] [] [] []]; vm_compute; try reflexivity;
  try discriminate; auto.

Lemma keepChar_lowerChar_clean c :
  let c' := keepChar (JS.lowerChar c) in
  (wordChar c' = true /\ JS.isSpace c' = false)
  \/ JS.isSpace c' = true.
Proof. each_char c. Qed.

Lemma wordChar_fixed c :
  wordChar c = true ->
  JS.lowerChar c = c /\ keepChar c = c /\ JS.isSpace c = false
  /\ Ascii.eqb c " " = false.
Proof. each_char c. Qed.

Lemma space_fixed :
  JS.lowerChar " " = " "%char /\ keepChar " " = " "%char
  /\ JS.isSpace " " = true.
Proof. repeat split. Qed.

(** Collapsing the runs of white space of a text made of word characters
    and white space leaves single spaces between the words. *)
Lemma collapseFrom_tidy s : forall inRun,
  (forall c, In c (list_ascii_of_string s) ->
             wordChar c = true /\ JS.isSpace c = false \/ JS.isSpace c = true) ->
  tidy inRun (collapseFrom inRun s) = true.
Proof.
  induction s as [|c s IH]; intros inRun Hclean; [reflexivity|].
  assert (Hrest : forall c', In c' (list_ascii_of_string s) ->
                     wordChar c' = true /\ JS.isSpace c' = false
                     \/ JS.isSpace c' = true)
    by (intros c' Hin; apply Hclean; now right).
  destruct (Hclean c (or_introl eq_refl)) as [[Hword Hnospace]|Hspace].
  - simpl. rewrite Hnospace. simpl.
    destruct (wordChar_fixed c Hword) as [_ [_ [_ Hneq]]].
    rewrite Hneq, Hword. simpl. now apply IH.
  - simpl. rewrite Hspace. destruct inRun.
    + now apply IH.
    + simpl. now apply IH.
Qed.

Lemma tidy_weaken s : tidy true s = true -> tidy false s = true.
Proof.
  destruct s as [|c s]; [reflexivity|]. simpl.
  destruct (Ascii.eqb c " "); [discriminate | tauto].
Qed.

Lemma tidy_trimStart_id s : tidy true s = true -> JS.trimStart s = s.
Proof.
  destruct s as [|c s]; [reflexivity|]. simpl.
  destruct (Ascii.eqb c " ") eqn:Hc; [discriminate|].
  intros Htidy. apply andb_true_iff in Htidy. destruct Htidy as [Hword _].
  destruct (wordChar_fixed c Hword) as [_ [_ [Hnospace _]]].
  now rewrite Hnospace.
Qed.

Lemma tidy_isSpace c :
  Ascii.eqb c " " = false -> wordChar c = true -> JS.isSpace c = false.
Proof. intros _ Hword. now destruct (wordChar_fixed c Hword) as [_ [_ [H _]]]. Qed.

Lemma tidy_trimStart s : forall afterSpace,
  tidy afterSpace s = true -> tidy true (JS.trimStart s) = true.
Proof.
  intros afterSpace. destruct s as [|c s]; [reflexivity|]. simpl.
  destruct (Ascii.eqb c " ") eqn:Hc.
  - apply Ascii.eqb_eq in Hc. subst c. simpl.
    intros Htidy. apply andb_true_iff in Htidy. destruct Htidy as [_ Htidy].
    now rewrite (tidy_trimStart_id s Htidy).
  - intros Htidy. apply andb_true_iff in Htidy. destruct Htidy as [Hword Htidy].
    rewrite (tidy_isSpace c Hc Hword). simpl. now rewrite Hc, Hword.
Qed.

Lemma trimEnd_cases c s :
  JS.trimEnd (String c s) =
  match JS.trimEnd s with
  | EmptyString => if JS.isSpace c then EmptyString else String c EmptyString
  | kept => String c kept
  end.
Proof. reflexivity. Qed.

Lemma tidy_cons afterSpace c s :
  tidy afterSpace (String c s) =
  if Ascii.eqb c " " then negb afterSpace && tidy true s
  else wordChar c && tidy false s.
Proof. reflexivity. Qed.

Lemma tidy_trimEnd s : forall afterSpace,
  tidy afterSpace s = true ->
  tidy afterSpace (JS.trimEnd s) = true /\ lastIsSpace (JS.trimEnd s) = false.
Proof.
  induction s as [|c s IH]; intros afterSpace; [now split|].
  rewrite trimEnd_cases, tidy_cons.
  destruct (Ascii.eqb c " ") eqn:Hc.
  - apply Ascii.eqb_eq in Hc. subst c. intros Htidy.
    apply andb_true_iff in Htidy. destruct Htidy as [Hafter Htidy].
    destruct (IH true Htidy) as [Hkept Hlast].
    destruct (JS.trimEnd s) as [|k kept] eqn:Hend; [now split|].
    split.
    + rewrite tidy_cons. change (Ascii.eqb " " " ") with true. cbv iota.
      now rewrite Hafter, Hkept.
    + exact Hlast.
  - intros Htidy. apply andb_true_iff in Htidy. destruct Htidy as [Hword Htidy].
    destruct (IH false Htidy) as [Hkept Hlast].
    destruct (JS.trimEnd s) as [|k kept] eqn:Hend.
    + rewrite (tidy_isSpace c Hc Hword). split.
      * rewrite tidy_cons. now rewrite Hc, Hword.
      * cbn. apply (tidy_isSpace c Hc Hword).
    + split.
      * rewrite tidy_cons. now rewrite Hc, Hword, Hkept.
      * exact Hlast.
Qed.

Lemma mapChars_In f s c :
  In c (list_ascii_of_string (JS.mapChars f s)) ->
  exists c0, c = f c0.
Proof.
  induction s as [|a s IH]; simpl; [tauto|].
  intros [<-|Hin]; [now exists a | now apply IH].
Qed.

Lemma mapChars_mapChars f g s :
  JS.mapChars f (JS.mapChars g s) = JS.mapChars (fun c => f (g c)) s.
Proof. induction s as [|a s IH]; simpl; [reflexivity | now rewrite IH]. Qed.

Lemma normaliseText_normalised value :
  isNormalised (normaliseText value) = true.
Proof.
  unfold normaliseText, isNormalised, JS.trim, collapseSpaces, JS.toLowerCase.
  rewrite mapChars_mapChars.
  set (cleaned := JS.mapChars (fun c => keepChar (JS.lowerChar c)) value).
  assert (Hclean : tidy false (collapseFrom false cleaned) = true).
  { apply collapseFrom_tidy. intros c Hin.
    destruct (mapChars_In _ _ _ Hin) as [c0 ->].
    apply keepChar_lowerChar_clean. }
  apply tidy_trimStart in Hclean.
  destruct (tidy_trimEnd _ _ Hclean) as [Htidy Hlast].
  now rewrite Htidy, Hlast.
Qed.

Lemma tidy_mapChars_id f s : forall afterSpace,
  (forall c, wordChar c = true -> f c = c) -> f " "%char = " "%char ->
  tidy afterSpace s = true -> JS.mapChars f s = s.
Proof.
  intros afterSpace Hword Hspace. revert afterSpace.
  induction s as [|c s IH]; intros afterSpace; [reflexivity|]. simpl.
  destruct (Ascii.eqb c " ") eqn:Hc.
  - apply Ascii.eqb_eq in Hc. subst c. intros Htidy.
    apply andb_true_iff in Htidy. destruct Htidy as [_ Htidy].
    rewrite Hspace. f_equal. now apply (IH true).
  - intros Htidy. apply andb_true_iff in Htidy. destruct Htidy as [Hw Htidy].
    rewrite (Hword c Hw). f_equal. now apply (IH false).
Qed.

Lemma tidy_collapse_id s : forall afterSpace,
  tidy afterSpace s = true -> collapseFrom afterSpace s = s.
Proof.
  induction s as [|c s IH]; intros afterSpace; [reflexivity|]. simpl.
  destruct (Ascii.eqb c " ") eqn:Hc.
  - apply Ascii.eqb_eq in Hc. subst c. simpl.
    destruct afterSpace; [discriminate|]. simpl. intros Htidy.
    f_equal. now apply IH.
  - intros Htidy. apply andb_true_iff in Htidy. destruct Htidy as [Hw Htidy].
    rewrite (tidy_isSpace c Hc Hw). f_equal. now apply IH.
Qed.

Lemma tidy_trimEnd_id s : forall afterSpace,
  tidy afterSpace s = true -> lastIsSpace s = false -> JS.trimEnd s = s.
Proof.
  induction s as [|c s IH]; intros afterSpace; [reflexivity|].
  rewrite trimEnd_cases, tidy_cons.
  destruct (Ascii.eqb c " ") eqn:Hc.
  - apply Ascii.eqb_eq in Hc. subst c. intros Htidy Hlast.
    apply andb_true_iff in Htidy. destruct Htidy as [_ Htidy].
    destruct s as [|k s]; [discriminate Hlast|].
    rewrite (IH true Htidy Hlast). reflexivity.
  - intros Htidy Hlast. apply andb_true_iff in Htidy. destruct Htidy as [Hw Htidy].
    destruct s as [|k s].
    + simpl. now rewrite (tidy_isSpace c Hc Hw).
    + rewrite (IH false Htidy Hlast). reflexivity.
Qed.

Lemma normaliseText_fixes s : isNormalised s = true -> normaliseText s = s.
Proof.
  unfold isNormalised. intros Hnorm. apply andb_true_iff in Hnorm.
  destruct Hnorm as [Htidy Hlast]. apply negb_true_iff in Hlast.
  unfold normaliseText, JS.trim, collapseSpaces, JS.toLowerCase.
  rewrite (tidy_mapChars_id JS.lowerChar s true); try assumption;
    [|intros c Hw; apply (wordChar_fixed c Hw) | reflexivity].
  rewrite (tidy_mapChars_id keepChar s true); try assumption;
    [|intros c Hw; apply (wordChar_fixed c Hw) | reflexivity].
  rewrite (tidy_collapse_id s false (tidy_weaken s Htidy)).
  rewrite (tidy_trimStart_id s Htidy).
  now apply (tidy_trimEnd_id s true).
Qed.

Lemma normaliseText_idempotent value :
  normaliseText (normaliseText value) = normaliseText value.
Proof. apply normaliseText_fixes. apply normaliseText_normalised. Qed.

(* ----------------------------------------------------------------- *)
(** *** Matching ingredients against the pantry *)

Lemma startsWith_refl s : JS.startsWith s s = true.
Proof.
  induction s as [|c s IH]; simpl; [reflexivity|].
  now rewrite Ascii.eqb_refl.
Qed.

Lemma includes_refl s : JS.includes s s = true.
Proof. destruct s; simpl; [reflexivity|]. now rewrite Ascii.eqb_refl, startsWith_refl. Qed.

Lemma containsToken_same source token :
  normaliseText source = normaliseText token ->
  containsToken source token = true.
Proof. unfold containsToken. intros ->. apply includes_refl. Qed.

(** The test that [hasIngredient] applies to one pantry item. *)
Lemma hasIngredient_exists ingredientName pantryItems :
  hasIngredient ingredientName pantryItems = true <->
  exists item,
    In item pantryItems
    /\ (containsToken (normaliseText item) (normaliseText ingredientName)
        || containsToken (normaliseText ingredientName) (normaliseText item)) = true.
Proof.
  unfold hasIngredient. destruct pantryItems as [|first rest].
  - split; [discriminate | intros [item [[] _]]].
  - apply existsb_exists.
Qed.

(** X1: matching looks at normalised text only.  An ingredient is found
    in every pantry that holds an item with the same normalised text,
    whatever the case, punctuation and spacing of the two spellings. *)
Theorem hasIngredient_same_text ingredientName item pantryItems :
  In item pantryItems ->
  normaliseText item = normaliseText ingredientName ->
  hasIngredient ingredientName pantryItems = true.
Proof.
  intros Hin Hsame. apply hasIngredient_exists. exists item.
  split; [exact Hin|]. apply orb_true_iff. left.
  apply containsToken_same. now rewrite Hsame.
Qed.

Lemma hasIngredient_same_text_witness :
  In "Olive-Oil, (extra)" ["garlic"; "Olive-Oil, (extra)"]
  /\ normaliseText "Olive-Oil, (extra)" = normaliseText "  olive-oil EXTRA!"
  /\ hasIngredient "  olive-oil EXTRA!" ["garlic"; "Olive-Oil, (extra)"] = true.
Proof.
  assert (Hin : In "Olive-Oil, (extra)" ["garlic"; "Olive-Oil, (extra)"])
    by (right; left; reflexivity).
  assert (Hsame : normaliseText "Olive-Oil, (extra)" = normaliseText "  olive-oil EXTRA!")
    by reflexivity.
  split; [exact Hin|]. split; [exact Hsame|].
  exact (hasIngredient_same_text _ _ _ Hin Hsame).
Defined.

(** Matching one name against one pantry item is symmetric. *)
Lemma hasIngredient_symmetric a b :
  hasIngredient a [b] = hasIngredient b [a].
Proof.
  unfold hasIngredient. simpl. rewrite !orb_false_r. apply orb_comm.
Qed.

Lemma hasIngredient_monotone ingredientName pantryItems largerPantry :
  incl pantryItems largerPantry ->
  hasIngredient ingredientName pantryItems = true ->
  hasIngredient ingredientName largerPantry = true.
Proof.
  intros Hincl Hfound. apply hasIngredient_exists in Hfound.
  destruct Hfound as [item [Hin Hmatch]].
  apply hasIngredient_exists. exists item. split; [now apply Hincl | exact Hmatch].
Qed.

Lemma filter_length_le_pointwise {A} (f g : A -> bool) (l : list A) :
  (forall x, In x l -> g x = true -> f x = true) ->
  (List.length (filter g l) <= List.length (filter f l))%nat.
Proof.
  induction l as [|x l IH]; simpl; intros Himp; [lia|].
  assert (Hrest : (List.length (filter g l) <= List.length (filter f l))%nat)
    by (apply IH; intros y Hy; apply Himp; now right).
  destruct (g x) eqn:Hg.
  - rewrite (Himp x (or_introl eq_refl) Hg). simpl. lia.
  - destruct (f x); simpl; lia.
Qed.

Lemma filter_all {A} (f : A -> bool) (l : list A) :
  (forall x, f x = true) -> filter f l = l.
Proof.
  intros Hall. induction l as [|x l IH]; simpl; [reflexivity|].
  now rewrite Hall, IH.
Qed.

Lemma Math_round_monotone x y : (x <= y)%Q -> (JS.Math_round x <= JS.Math_round y)%Q.
Proof.
  intros Hle. unfold JS.Math_round. rewrite <- Zle_Qle.
  apply Qfloor_resp_le. lra.
Qed.

(** X2: a larger pantry never hurts.  Every pantry item added keeps the
    ingredients that were found, leaves at most as many ingredients
    missing, and gives a pantry fit at least as high. *)
Theorem pantry_growth recipe pantryItems largerPantry :
  incl pantryItems largerPantry ->
  (forall ingredientName,
      hasIngredient ingredientName pantryItems = true ->
      hasIngredient ingredientName largerPantry = true)
  /\ (List.length (missingIngredients recipe largerPantry)
      <= List.length (missingIngredients recipe pantryItems))%nat
  /\ (pantryFitPercent recipe pantryItems
      <= pantryFitPercent recipe largerPantry)%Q.
Proof.
  intros Hincl.
  assert (Hmono : forall ingredientName,
             hasIngredient ingredientName pantryItems = true ->
             hasIngredient ingredientName largerPantry = true)
    by (intros n; now apply hasIngredient_monotone).
  assert (Hmissing : (List.length (missingIngredients recipe largerPantry)
                      <= List.length (missingIngredients recipe pantryItems))%nat).
  { unfold missingIngredients. apply filter_length_le_pointwise.
    intros i _ Hnot. apply negb_true_iff in Hnot. apply negb_true_iff.
    destruct (hasIngredient (name i) pantryItems) eqn:Hhad; [|reflexivity].
    apply Hmono in Hhad. congruence. }
  split; [exact Hmono|]. split; [exact Hmissing|].
  unfold pantryFitPercent.
  destruct (List.length (ingredients recipe) =? 0)%nat eqn:Hnone; [lra|].
  apply Nat.eqb_neq in Hnone. pose proof (ofNat_pos _ Hnone) as Hpos.
  assert (Hsome : ingredients recipe <> [])
    by (destruct (ingredients recipe); [contradiction | discriminate]).
  pose proof (matched_share recipe pantryItems Hsome) as [Hshare _].
  unfold JS.Math_max, JS.Math_min.
  apply Q.max_le_compat_l, Q.min_le_compat_l, Math_round_monotone.
  unfold JS.fmul, JS.fdiv. apply FloatFacts.fl_monotone.
  - apply Qmult_le_0_compat; [now apply FloatFacts.fl_nonneg | lra].
  - apply Qmult_le_compat_r; [|lra].
    apply FloatFacts.fl_monotone; [exact Hshare|].
    unfold Qdiv. apply Qmult_le_compat_r.
    + pose proof (ofNat_le _ _ Hmissing). lra.
    + apply Qlt_le_weak. now apply Qinv_lt_0_compat.
Qed.

Lemma pantry_growth_witness :
  incl ["garlic"] ["garlic"; "Red Onion"]
  /\ (pantryFitPercent (Samples.dish "soup" "Onion soup" 30 []) ["garlic"]
      <= pantryFitPercent (Samples.dish "soup" "Onion soup" 30 [])
                          ["garlic"; "Red Onion"])%Q.
Proof.
  assert (Hincl : incl ["garlic"] ["garlic"; "Red Onion"])
    by (intros x [<-|[]]; left; reflexivity).
  split; [exact Hincl|].
  exact (proj2 (proj2 (pantry_growth (Samples.dish "soup" "Onion soup" 30 [])
                                     _ _ Hincl))).
Defined.

(** X3: with an empty pantry every ingredient of a recipe is missing and
    the pantry fit is 0. *)
Theorem empty_pantry recipe :
  missingIngredients recipe [] = ingredients recipe
  /\ (pantryFitPercent recipe [] == 0)%Q.
Proof.
  assert (Hall : missingIngredients recipe [] = ingredients recipe).
  { unfold missingIngredients. apply filter_all. reflexivity. }
  split; [exact Hall|].
  unfold pantryFitPercent. rewrite Hall.
  destruct (List.length (ingredients recipe) =? 0)%nat eqn:Hnone; [reflexivity|].
  apply Nat.eqb_neq in Hnone. pose proof (ofNat_pos _ Hnone) as Hpos.
  unfold JS.fmul, JS.fdiv.
  rewrite (FloatFacts.fl_zero
             ((JS.ofNat (List.length (ingredients recipe))
               - JS.ofNat (List.length (ingredients recipe)))
              / JS.ofNat (List.length (ingredients recipe))))
    by (field; lra).
  rewrite (FloatFacts.fl_zero (0 * 100)) by reflexivity.
  reflexivity.
Qed.

(* ----------------------------------------------------------------- *)
(** *** Scores *)

Lemma coverage_bounds total missing :
  (missing <= total)%nat -> (total <> 0)%nat ->
  (0 <= (JS.ofNat total - JS.ofNat missing) / JS.ofNat total <= 1)%Q.
Proof.
  intros Hle Hpos. pose proof (ofNat_pos _ Hpos) as Htotal.
  pose proof (ofNat_le _ _ Hle) as Hmissing.
  assert (Hnonneg : (0 <= JS.ofNat missing)%Q).
  { unfold JS.ofNat. change 0%Q with (inject_Z 0). rewrite <- Zle_Qle. lia. }
  split.
  - apply Qle_shift_div_l; [exact Htotal | lra].
  - apply Qle_shift_div_r; [exact Htotal | lra].
Qed.

(** X4: a score lies between -96 and 138, and the score of a strict
    match is at least 38: its pantry coverage plus the four bonuses. *)
Theorem scoreRecipe_bounds recipe pantryItems preferences :
  (-96 <= score (scoreRecipe recipe pantryItems preferences) <= 138)%Q
  /\ (strictMatch (scoreRecipe recipe pantryItems preferences) = true ->
      (38 <= score (scoreRecipe recipe pantryItems preferences))%Q).
Proof.
  unfold scoreRecipe. cbn [score strictMatch].
  set (coverage :=
         if (List.length (ingredients recipe) =? 0)%nat then 0%Q
         else ((JS.ofNat (List.length (ingredients recipe))
                - JS.ofNat (List.length (missingIngredients recipe pantryItems)))
               / JS.ofNat (List.length (ingredients recipe)))%Q).
  assert (Hcov : (0 <= coverage <= 1)%Q).
  { unfold coverage.
    destruct (List.length (ingredients recipe) =? 0)%nat eqn:Hnone; [lra|].
    apply Nat.eqb_neq in Hnone.
    apply coverage_bounds; [apply missingIngredients_length | exact Hnone]. }
  set (late := ((maxCookTime preferences - cookTimeMinutes recipe) / 5)%Q).
  assert (Htime : JS.le (cookTimeMinutes recipe) (maxCookTime preferences) = false ->
                  (-12 <= JS.Math_max (-12) late <= 0)%Q).
  { intros Hlate. unfold JS.le in Hlate. unfold JS.Math_max. split.
    - apply Q.le_max_l.
    - apply Q.max_lub; [lra|]. unfold late.
      destruct (Qlt_le_dec (maxCookTime preferences) (cookTimeMinutes recipe))
        as [Hlt|Hge].
      + unfold Qdiv. change (/ 5)%Q with (1 # 5)%Q. lra.
      + apply Qle_bool_iff in Hge. congruence. }
  destruct (JS.le (cookTimeMinutes recipe) (maxCookTime preferences)) eqn:Htm;
    [|specialize (Htime eq_refl)];
    destruct (cuisineSatisfied recipe (prefCuisine preferences));
    destruct (dietarySatisfied recipe (dietary preferences));
    destruct (equipmentSatisfied recipe (prefEquipment preferences));
    cbn [andb]; split; try (intros; discriminate); try lra;
    intros _; lra.
Qed.

Lemma scoreRecipe_bounds_witness :
  strictMatch (scoreRecipe (Samples.dish "soup" "Onion soup" 30 []) ["onion"]
                           Samples.avoidingNuts) = true
  /\ (38 <= score (scoreRecipe (Samples.dish "soup" "Onion soup" 30 []) ["onion"]
                               Samples.avoidingNuts))%Q.
Proof.
  assert (Hstrict : strictMatch (scoreRecipe (Samples.dish "soup" "Onion soup" 30 [])
                                             ["onion"] Samples.avoidingNuts) = true)
    by reflexivity.
  split; [exact Hstrict|].
  exact (proj2 (scoreRecipe_bounds _ _ _) Hstrict).
Defined.

(* ----------------------------------------------------------------- *)
(** *** More on the selection policy *)

(** The entries of the sorted list that the backfill loop would push
    onto [selected]. *)
Lemma backfill_length_fresh scored : forall selected,
  (List.length (backfill scored selected)
   <= List.length selected
      + List.length
          (filter (fun e => negb (existsb (fun chosen =>
                                             String.eqb (id chosen) (id (recipe e)))
                                          selected))
                  scored))%nat.
Proof.
  induction scored as [|e scored IH]; intros selected; simpl; [lia|].
  destruct (backfillStep_cases selected e) as [->|[-> [_ Hfresh]]].
  - specialize (IH selected). destruct (negb _); simpl; lia.
  - specialize (IH (selected ++ [recipe e])). rewrite length_app in IH.
    simpl in IH.
    assert (Hnot : existsb (fun chosen => String.eqb (id chosen) (id (recipe e)))
                           selected = false).
    { destruct (existsb _ selected) eqn:Hex; [|reflexivity].
      exfalso. apply Hfresh. apply existsb_exists in Hex.
      destruct Hex as [r [Hin Heq]]. apply String.eqb_eq in Heq.
      rewrite <- Heq. now apply in_map. }
    rewrite Hnot. simpl.
    assert (Hshrink :
              (List.length
                 (filter (fun e0 => negb (existsb (fun chosen =>
                                            String.eqb (id chosen) (id (recipe e0)))
                                          (selected ++ [recipe e])))
                         scored)
               <= List.length
                    (filter (fun e0 => negb (existsb (fun chosen =>
                                               String.eqb (id chosen) (id (recipe e0)))
                                             selected))
                            scored))%nat).
    { apply filter_length_le_pointwise. intros x _ Hx.
      apply negb_true_iff in Hx. apply negb_true_iff.
      rewrite existsb_app in Hx. apply orb_false_iff in Hx. tauto. }
    lia.
Qed.

Lemma firstn_all_le {A} (n : nat) (l : list A) :
  (List.length l <= n)%nat -> firstn n l = l.
Proof. intros Hle. now apply firstn_all2. Qed.

(** X5: when fewer than three recipes pass the allergen filter, they
    are all returned, in the order of the corpus and whatever their
    scores. *)
Theorem generateRecipeOptions_small_pool recipes pantryItems preferences :
  (List.length (allergenSafePool recipes preferences) < 3)%nat ->
  generateRecipeOptions recipes pantryItems preferences
  = allergenSafePool recipes preferences.
Proof.
  intros Hsmall. rewrite generateRecipeOptions_unfold. cbv zeta.
  pose proof (scoredPool_length recipes pantryItems preferences) as Hlen.
  set (scored := scoredPool recipes pantryItems preferences) in *.
  set (strict := map recipe (firstn 6 (filter strictMatch scored))).
  pose proof (filter_length strictMatch scored) as Hsplit.
  assert (Hfirst : firstn 6 (filter strictMatch scored) = filter strictMatch scored).
  { apply firstn_all_le. pose proof (filter_length_le strictMatch scored). lia. }
  assert (HstrictLen : List.length strict = List.length (filter strictMatch scored)).
  { unfold strict. now rewrite Hfirst, length_map. }
  assert (Hfilled : (List.length (backfill scored strict) < 3)%nat).
  { pose proof (backfill_length_fresh scored strict) as Hbound.
    assert (Hfresh :
              (List.length
                 (filter (fun e => negb (existsb (fun chosen =>
                                           String.eqb (id chosen) (id (recipe e)))
                                         strict))
                         scored)
               <= List.length (filter (fun e => negb (strictMatch e)) scored))%nat).
    { apply filter_length_le_pointwise. intros e Hin Hfresh.
      apply negb_true_iff in Hfresh. apply negb_true_iff.
      destruct (strictMatch e) eqn:Hstrict; [|reflexivity].
      assert (Hchosen : existsb (fun chosen => String.eqb (id chosen) (id (recipe e)))
                                strict = true).
      { apply existsb_exists. exists (recipe e). split; [|apply String.eqb_refl].
        unfold strict. rewrite Hfirst. apply in_map. apply filter_In. tauto. }
      congruence. }
    lia. }
  assert (Hstrict3 : (List.length strict <? 3)%nat = true)
    by (apply Nat.ltb_lt; lia).
  rewrite Hstrict3.
  apply Nat.ltb_lt in Hfilled. rewrite Hfilled.
  apply firstn_all_le. lia.
Qed.

Lemma generateRecipeOptions_small_pool_witness :
  (List.length (allergenSafePool Samples.smallCorpus Samples.avoidingNuts) < 3)%nat
  /\ generateRecipeOptions Samples.smallCorpus ["onion"] Samples.avoidingNuts
     = allergenSafePool Samples.smallCorpus Samples.avoidingNuts.
Proof.
  assert (Hsmall : (List.length (allergenSafePool Samples.smallCorpus
                                                  Samples.avoidingNuts) < 3)%nat)
    by (vm_compute; lia).
  split; [exact Hsmall|].
  exact (generateRecipeOptions_small_pool _ ["onion"] _ Hsmall).
Defined.

Lemma sortByScore_strongly_sorted entries :
  StronglySorted (fun a b => (score b <= score a)%Q) (sortByScore entries).
Proof.
  apply Sorted_StronglySorted; [|apply sortByScore_sorted].
  intros a b c Hab Hbc. lra.
Qed.

Lemma StronglySorted_filter {A} (R : A -> A -> Prop) (f : A -> bool) (l : list A) :
  StronglySorted R l -> StronglySorted R (filter f l).
Proof.
  induction 1 as [|a l Hsorted IH Hall]; simpl; [constructor|].
  destruct (f a); [|exact IH]. constructor; [exact IH|].
  apply Forall_forall. intros x Hx. apply filter_In in Hx.
  rewrite Forall_forall in Hall. now apply Hall.
Qed.

Lemma StronglySorted_firstn {A} (R : A -> A -> Prop) (n : nat) (l : list A) :
  StronglySorted R l -> StronglySorted R (firstn n l).
Proof.
  intros Hsorted. revert n.
  induction Hsorted as [|a l Hsorted IH Hall]; intros [|n]; simpl; try constructor.
  - apply IH.
  - apply Forall_forall. intros x Hx. apply In_firstn in Hx.
    rewrite Forall_forall in Hall. now apply Hall.
Qed.

Lemma StronglySorted_map {A B} (R : B -> B -> Prop) (g : A -> B) (l : list A) :
  StronglySorted (fun a b => R (g a) (g b)) l -> StronglySorted R (map g l).
Proof.
  induction 1 as [|a l Hsorted IH Hall]; simpl; constructor; [exact IH|].
  apply Forall_forall. intros y Hy. apply in_map_iff in Hy.
  destruct Hy as [x [<- Hx]]. rewrite Forall_forall in Hall. now apply Hall.
Qed.

Lemma scoredPool_entry recipes pantryItems preferences e :
  In e (scoredPool recipes pantryItems preferences) ->
  e = scoreRecipe (recipe e) pantryItems preferences.
Proof.
  unfold scoredPool. intros Hin.
  apply (Permutation_in e (Permutation_sym (sortByScore_perm _))) in Hin.
  apply in_map_iff in Hin. destruct Hin as [r [<- _]]. reflexivity.
Qed.

(** X6: with three or more strict matches nothing else is returned:
    the result is the six best strict matches (or all of them if there are
    fewer), every returned recipe satisfies the four preference checks,
    and the scores never increase along the list. *)
Theorem generateRecipeOptions_strict_only recipes pantryItems preferences :
  (3 <= strictCount recipes pantryItems preferences)%nat ->
  List.length (generateRecipeOptions recipes pantryItems preferences)
  = Nat.min 6 (strictCount recipes pantryItems preferences)
  /\ Forall (fun r => strictMatch (scoreRecipe r pantryItems preferences) = true)
            (generateRecipeOptions recipes pantryItems preferences)
  /\ StronglySorted
       (fun a b => (score (scoreRecipe b pantryItems preferences)
                    <= score (scoreRecipe a pantryItems preferences))%Q)
       (generateRecipeOptions recipes pantryItems preferences).
Proof.
  unfold strictCount. intros Hthree.
  rewrite generateRecipeOptions_unfold. cbv zeta.
  set (scored := scoredPool recipes pantryItems preferences) in *.
  set (best := firstn 6 (filter strictMatch scored)).
  assert (Hlen : List.length (map recipe best)
                 = Nat.min 6 (List.length (filter strictMatch scored))).
  { unfold best. now rewrite length_map, length_firstn. }
  assert (Hnotfew : (List.length (map recipe best) <? 3)%nat = false)
    by (apply Nat.ltb_ge; lia).
  rewrite Hnotfew, Hnotfew.
  assert (Hsix : firstn 6 (map recipe best) = map recipe best)
    by (apply firstn_all_le; lia).
  rewrite Hsix.
  assert (Hentry : forall e, In e best ->
                     strictMatch e = true
                     /\ e = scoreRecipe (recipe e) pantryItems preferences).
  { intros e He. unfold best in He. apply In_firstn in He.
    apply filter_In in He. destruct He as [Hin Hstrict].
    split; [exact Hstrict | now apply (scoredPool_entry recipes)]. }
  split; [exact Hlen|]. split.
  - apply Forall_forall. intros r Hr. apply in_map_iff in Hr.
    destruct Hr as [e [<- He]]. destruct (Hentry e He) as [Hstrict Heq].
    now rewrite <- Heq.
  - apply StronglySorted_map.
    assert (Hbest : StronglySorted (fun a b => (score b <= score a)%Q) best).
    { unfold best. apply StronglySorted_firstn, StronglySorted_filter.
      apply sortByScore_strongly_sorted. }
    clear - Hbest Hentry.
    induction Hbest as [|a l Hsorted IH Hall]; constructor.
    + apply IH. intros e He. apply Hentry. now right.
    + apply Forall_forall. intros b Hb. rewrite Forall_forall in Hall.
      destruct (Hentry a (or_introl eq_refl)) as [_ Ha].
      destruct (Hentry b (or_intror Hb)) as [_ Hb'].
      rewrite <- Ha, <- Hb'. now apply Hall.
Qed.

Lemma generateRecipeOptions_strict_only_witness :
  (3 <= strictCount Samples.corpus ["onion"] Samples.avoidingNuts)%nat
  /\ List.length (generateRecipeOptions Samples.corpus ["onion"] Samples.avoidingNuts)
     = Nat.min 6 (strictCount Samples.corpus ["onion"] Samples.avoidingNuts).
Proof.
  assert (Hthree : (3 <= strictCount Samples.corpus ["onion"]
                                     Samples.avoidingNuts)%nat)
    by (vm_compute; lia).
  split; [exact Hthree|].
  exact (proj1 (generateRecipeOptions_strict_only _ _ _ Hthree)).
Defined.

(* ----------------------------------------------------------------- *)
(** *** More on rounding and scaling *)

Lemma ge_true x y : JS.ge x y = true <-> (y <= x)%Q.
Proof. unfold JS.ge. apply Qle_bool_iff. Qed.

Lemma ge_false x y : JS.ge x y = false <-> (x < y)%Q.
Proof.
  unfold JS.ge. split.
  - intros Hfalse. destruct (Qlt_le_dec x y) as [Hlt|Hge]; [exact Hlt|].
    apply Qle_bool_iff in Hge. congruence.
  - intros Hlt. destruct (Qle_bool y x) eqn:Hle; [|reflexivity].
    apply Qle_bool_iff in Hle. lra.
Qed.

Lemma roundQuantity_comp x y : (x == y)%Q -> (roundQuantity x == roundQuantity y)%Q.
Proof.
  intros Heq. unfold roundQuantity, JS.ge.
  rewrite <- (Qleb_comp 50 50 (Qeq_refl 50) x y Heq).
  rewrite <- (Qleb_comp 10 10 (Qeq_refl 10) x y Heq).
  destruct (Qle_bool 50 x); [|destruct (Qle_bool 10 x)].
  - now rewrite (Math_round_comp x y Heq).
  - rewrite (Math_round_comp (x * 2) (y * 2)); [reflexivity | now rewrite Heq].
  - rewrite (Math_round_comp (x * 10) (y * 10)); [reflexivity | now rewrite Heq].
Qed.

Lemma Math_round_ge (z : Z) x : (inject_Z z <= x)%Q -> (inject_Z z <= JS.Math_round x)%Q.
Proof.
  intros Hle. rewrite <- (Math_round_inject z). now apply Math_round_monotone.
Qed.

Lemma Math_round_le (z : Z) x : (x <= inject_Z z)%Q -> (JS.Math_round x <= inject_Z z)%Q.
Proof.
  intros Hle. rewrite <- (Math_round_inject z). now apply Math_round_monotone.
Qed.

Lemma Math_round_round x : JS.Math_round (JS.Math_round x) = JS.Math_round x.
Proof. unfold JS.Math_round at 2. apply Math_round_inject. Qed.

(** X7: [roundQuantity] is idempotent: a rounded quantity is on the
    grid of its own range, so rounding it again gives the same number. *)
Theorem roundQuantity_idempotent value :
  (roundQuantity (roundQuantity value) == roundQuantity value)%Q.
Proof.
  destruct (JS.ge value 50) eqn:H50; [|destruct (JS.ge value 10) eqn:H10].
  - assert (Hv : roundQuantity value = JS.Math_round value)
      by (unfold roundQuantity; now rewrite H50).
    rewrite Hv. apply ge_true in H50.
    pose proof (Math_round_ge 50 value H50) as Hr.
    change (inject_Z 50) with 50%Q in Hr. apply ge_true in Hr.
    unfold roundQuantity. rewrite Hr, Math_round_round. reflexivity.
  - assert (Hv : roundQuantity value = (JS.Math_round (value * 2) / 2)%Q)
      by (unfold roundQuantity; now rewrite H50, H10).
    rewrite Hv. apply ge_false in H50. apply ge_true in H10.
    set (k := JS.Math_round (value * 2)).
    assert (Hlo : (20 <= k)%Q) by (apply (Math_round_ge 20); unfold inject_Z; lra).
    assert (Hhi : (k <= 100)%Q) by (apply (Math_round_le 100); unfold inject_Z; lra).
    unfold roundQuantity.
    destruct (JS.ge (k / 2) 50) eqn:Hk50.
    + apply ge_true in Hk50.
      assert (Hk : (k == 100)%Q) by (constant_divisors; lra).
      rewrite (Math_round_comp (k / 2) (inject_Z 50));
        [|rewrite Hk; reflexivity].
      rewrite Math_round_inject, Hk. reflexivity.
    + assert (Hk10 : JS.ge (k / 2) 10 = true)
        by (apply ge_true; constant_divisors; lra).
      rewrite Hk10.
      rewrite (Math_round_comp (k / 2 * 2) k); [|field].
      unfold k. rewrite Math_round_round. reflexivity.
  - assert (Hv : roundQuantity value = (JS.Math_round (value * 10) / 10)%Q)
      by (unfold roundQuantity; now rewrite H50, H10).
    rewrite Hv. apply ge_false in H50. apply ge_false in H10.
    set (k := JS.Math_round (value * 10)).
    assert (Hhi : (k <= 100)%Q) by (apply (Math_round_le 100); unfold inject_Z; lra).
    unfold roundQuantity.
    destruct (JS.ge (k / 10) 50) eqn:Hk50.
    + apply ge_true in Hk50. constant_divisors. lra.
    + destruct (JS.ge (k / 10) 10) eqn:Hk10.
      * apply ge_true in Hk10.
        assert (Hk : (k == 100)%Q) by (constant_divisors; lra).
        rewrite (Math_round_comp (k / 10 * 2) (inject_Z 20));
          [|rewrite Hk; reflexivity].
        rewrite Math_round_inject, Hk. reflexivity.
      * rewrite (Math_round_comp (k / 10 * 10) k); [|field].
        unfold k. rewrite Math_round_round. reflexivity.
Qed.

(** X8: [roundQuantity] is monotone, also across the limits 10 and 50
    where the grid changes, and never turns a quantity that is not negative
    into a negative one. *)
Theorem roundQuantity_monotone x y :
  (x <= y)%Q ->
  (roundQuantity x <= roundQuantity y)%Q
  /\ ((0 <= x)%Q -> (0 <= roundQuantity x)%Q).
Proof.
  intros Hle.
  assert (Hrange : forall v,
             (JS.ge v 50 = true /\ (50 <= roundQuantity v)%Q)
             \/ (JS.ge v 50 = false /\ JS.ge v 10 = true
                 /\ (10 <= roundQuantity v <= 50)%Q)
             \/ (JS.ge v 50 = false /\ JS.ge v 10 = false
                 /\ (roundQuantity v <= 10)%Q)).
  { intros v. unfold roundQuantity.
    destruct (JS.ge v 50) eqn:H50; [|destruct (JS.ge v 10) eqn:H10].
    - left. split; [reflexivity|]. apply ge_true in H50.
      now apply (Math_round_ge 50).
    - right. left. apply ge_false in H50. apply ge_true in H10.
      split; [reflexivity|]. split; [reflexivity|].
      pose proof (Math_round_ge 20 (v * 2)) as Hlo.
      pose proof (Math_round_le 100 (v * 2)) as Hhi.
      constant_divisors. split; [|].
      + assert (inject_Z 20 <= v * 2)%Q by (change (inject_Z 20) with 20%Q; lra).
        specialize (Hlo H). change (inject_Z 20) with 20%Q in Hlo. lra.
      + assert (v * 2 <= inject_Z 100)%Q by (change (inject_Z 100) with 100%Q; lra).
        specialize (Hhi H). change (inject_Z 100) with 100%Q in Hhi. lra.
    - right. right. apply ge_false in H50. apply ge_false in H10.
      split; [reflexivity|]. split; [reflexivity|].
      pose proof (Math_round_le 100 (v * 10)) as Hhi.
      constant_divisors.
      assert (v * 10 <= inject_Z 100)%Q by (change (inject_Z 100) with 100%Q; lra).
      specialize (Hhi H). change (inject_Z 100) with 100%Q in Hhi. lra. }
  split.
  - destruct (Hrange x) as [[Hx50 Hx]|[[Hx50 [Hx10 Hx]]|[Hx50 [Hx10 Hx]]]];
      destruct (Hrange y) as [[Hy50 Hy]|[[Hy50 [Hy10 Hy]]|[Hy50 [Hy10 Hy]]]];
      try lra;
      try (apply ge_true in Hx50; apply ge_false in Hy50; lra);
      try (apply ge_true in Hx10; apply ge_false in Hy10; lra).
    + unfold roundQuantity. rewrite Hx50, Hy50. now apply Math_round_monotone.
    + unfold roundQuantity. rewrite Hx50, Hy50, Hx10, Hy10.
      pose proof (Math_round_monotone (x * 2) (y * 2)) as Hm.
      constant_divisors. assert (x * 2 <= y * 2)%Q by lra. specialize (Hm H). lra.
    + unfold roundQuantity. rewrite Hx50, Hy50, Hx10, Hy10.
      pose proof (Math_round_monotone (x * 10) (y * 10)) as Hm.
      constant_divisors. assert (x * 10 <= y * 10)%Q by lra. specialize (Hm H). lra.
  - intros Hpos. unfold roundQuantity.
    destruct (JS.ge x 50); [|destruct (JS.ge x 10)].
    + apply (Math_round_ge 0). exact Hpos.
    + pose proof (Math_round_ge 0 (x * 2)) as Hr. constant_divisors.
      assert (inject_Z 0 <= x * 2)%Q by (change (inject_Z 0) with 0%Q; lra).
      specialize (Hr H). change (inject_Z 0) with 0%Q in Hr. lra.
    + pose proof (Math_round_ge 0 (x * 10)) as Hr. constant_divisors.
      assert (inject_Z 0 <= x * 10)%Q by (change (inject_Z 0) with 0%Q; lra).
      specialize (Hr H). change (inject_Z 0) with 0%Q in Hr. lra.
Qed.

Lemma roundQuantity_monotone_witness :
  ((99 # 10) <= 10)%Q
  /\ (roundQuantity (99 # 10) <= roundQuantity 10)%Q
  /\ (0 <= roundQuantity (99 # 10))%Q.
Proof.
  assert (Hle : ((99 # 10) <= 10)%Q) by discriminate.
  assert (Hpos : (0 <= 99 # 10)%Q) by discriminate.
  split; [exact Hle|].
  destruct (roundQuantity_monotone _ _ Hle) as [Hmono Hkeep].
  split; [exact Hmono | exact (Hkeep Hpos)].
Defined.

(* ----------------------------------------------------------------- *)
(** *** White space at the ends of a text *)

Lemma append_assoc (a b c : string) : ((a ++ b) ++ c = a ++ (b ++ c))%string.
Proof. induction a as [|x a IH]; simpl; [reflexivity | now rewrite IH]. Qed.

Lemma append_empty_r (a : string) : (a ++ EmptyString)%string = a.
Proof. induction a as [|x a IH]; simpl; [reflexivity | now rewrite IH]. Qed.

Lemma trimStart_strips s :
  exists lead, s = (lead ++ JS.trimStart s)%string /\ allSpace lead = true.
Proof.
  induction s as [|c s [lead [Hs Hlead]]]; simpl.
  - exists EmptyString. split; reflexivity.
  - destruct (JS.isSpace c) eqn:Hc.
    + exists (String c lead). simpl. rewrite Hc, Hlead. split; [|reflexivity].
      now f_equal.
    + exists EmptyString. split; reflexivity.
Qed.

Lemma trimEnd_strips s :
  exists trail, s = (JS.trimEnd s ++ trail)%string /\ allSpace trail = true.
Proof.
  induction s as [|c s [trail [Hs Htrail]]].
  - exists EmptyString. split; reflexivity.
  - rewrite trimEnd_cases. destruct (JS.trimEnd s) as [|k kept] eqn:Hend.
    + destruct (JS.isSpace c) eqn:Hc.
      * exists (String c trail). simpl in *. rewrite Hc, Htrail.
        split; [now f_equal | reflexivity].
      * exists trail. simpl in *. split; [now f_equal | exact Htrail].
    + exists trail. split; [|exact Htrail]. simpl. f_equal. exact Hs.
Qed.

Lemma trim_strips s :
  exists lead trail,
    s = (lead ++ JS.trim s ++ trail)%string
    /\ allSpace lead = true /\ allSpace trail = true.
Proof.
  destruct (trimStart_strips s) as [lead [Hs Hlead]].
  destruct (trimEnd_strips (JS.trimStart s)) as [trail [Ht Htrail]].
  exists lead, trail. unfold JS.trim. split; [|split; assumption].
  rewrite <- Ht. exact Hs.
Qed.

Lemma trimStart_headInk s : startsWithInk (JS.trimStart s).
Proof.
  induction s as [|c s IH]; simpl; [exact I|].
  destruct (JS.isSpace c) eqn:Hc; [exact IH | exact Hc].
Qed.

Lemma headInk_trimStart s : startsWithInk s -> JS.trimStart s = s.
Proof. destruct s as [|c s]; simpl; [reflexivity|]. now intros ->. Qed.

Lemma headInk_trimEnd s : startsWithInk s -> startsWithInk (JS.trimEnd s).
Proof.
  destruct s as [|c s]; [exact (fun H => H)|]. rewrite trimEnd_cases. simpl. intros Hc.
  destruct (JS.trimEnd s); [now rewrite Hc | exact Hc].
Qed.

Lemma trimEnd_idempotent s : JS.trimEnd (JS.trimEnd s) = JS.trimEnd s.
Proof.
  induction s as [|c s IH]; [reflexivity|].
  rewrite trimEnd_cases. destruct (JS.trimEnd s) as [|k kept] eqn:Hend.
  - destruct (JS.isSpace c) eqn:Hc; [reflexivity|]. simpl. now rewrite Hc.
  - rewrite trimEnd_cases, IH. reflexivity.
Qed.

Lemma trim_idempotent s : JS.trim (JS.trim s) = JS.trim s.
Proof.
  unfold JS.trim.
  rewrite (headInk_trimStart (JS.trimEnd (JS.trimStart s))).
  - apply trimEnd_idempotent.
  - apply headInk_trimEnd, trimStart_headInk.
Qed.

Lemma mapChars_app f a b :
  JS.mapChars f (a ++ b)%string = (JS.mapChars f a ++ JS.mapChars f b)%string.
Proof. induction a as [|c a IH]; simpl; [reflexivity | now rewrite IH]. Qed.

Lemma space_kept c : JS.isSpace c = true -> keepChar (JS.lowerChar c) = c.
Proof. each_char c. Qed.

Lemma allSpace_mapChars s :
  allSpace s = true ->
  JS.mapChars (fun c => keepChar (JS.lowerChar c)) s = s.
Proof.
  induction s as [|c s IH]; simpl; [reflexivity|]. intros Hall.
  apply andb_true_iff in Hall. destruct Hall as [Hc Hs].
  now rewrite (space_kept c Hc), IH.
Qed.

Lemma collapse_after_run s : forall inRun,
  JS.trimStart (collapseFrom inRun s) = collapseFrom true s.
Proof.
  induction s as [|c s IH]; intros inRun; [reflexivity|]. simpl.
  destruct (JS.isSpace c) eqn:Hc.
  - destruct inRun; [apply IH|]. simpl. apply IH.
  - simpl. now rewrite Hc.
Qed.

Lemma collapse_lead lead s :
  allSpace lead = true ->
  collapseFrom true (lead ++ s)%string = collapseFrom true s.
Proof.
  induction lead as [|c lead IH]; simpl; [reflexivity|]. intros Hall.
  apply andb_true_iff in Hall. destruct Hall as [Hc Hlead].
  rewrite Hc. now apply IH.
Qed.

Lemma collapse_all_space trail : forall inRun,
  allSpace trail = true -> JS.trimEnd (collapseFrom inRun trail) = EmptyString.
Proof.
  induction trail as [|c trail IH]; intros inRun; [reflexivity|]. simpl.
  intros Hall. apply andb_true_iff in Hall. destruct Hall as [Hc Htrail].
  rewrite Hc. destruct inRun; [now apply IH|].
  rewrite trimEnd_cases, (IH true Htrail). reflexivity.
Qed.

Lemma collapse_trail trail s : forall inRun,
  allSpace trail = true ->
  JS.trimEnd (collapseFrom inRun (s ++ trail)%string)
  = JS.trimEnd (collapseFrom inRun s).
Proof.
  intros inRun Htrail. revert inRun.
  induction s as [|c s IH]; intros inRun.
  - simpl append. rewrite (collapse_all_space trail inRun Htrail). reflexivity.
  - simpl. destruct (JS.isSpace c).
    + destruct inRun; [apply IH|]. now rewrite !trimEnd_cases, IH.
    + now rewrite !trimEnd_cases, IH.
Qed.

Lemma normaliseText_collapse value :
  normaliseText value
  = JS.trimEnd (collapseFrom true
                  (JS.mapChars (fun c => keepChar (JS.lowerChar c)) value)).
Proof.
  unfold normaliseText, JS.trim, collapseSpaces, JS.toLowerCase.
  now rewrite mapChars_mapChars, collapse_after_run.
Qed.

(** Trimming a text first does not change what it normalises to. *)
Lemma normaliseText_trim value :
  normaliseText (JS.trim value) = normaliseText value.
Proof.
  destruct (trim_strips value) as [lead [trail [Hvalue [Hlead Htrail]]]].
  remember (JS.trim value) as core eqn:Hcore. clear Hcore. subst value.
  rewrite !normaliseText_collapse.
  rewrite !mapChars_app, (allSpace_mapChars lead Hlead),
    (allSpace_mapChars trail Htrail).
  now rewrite (collapse_lead lead _ Hlead), (collapse_trail trail _ true Htrail).
Qed.

(** X9: [normaliseText] yields a canonical text: words of lower-case
    letters, digits and hyphens separated by single spaces, with no space
    at either end.  Normalising it again changes nothing, and white space
    around the input makes no difference. *)
Theorem normaliseText_canonical value :
  isNormalised (normaliseText value) = true
  /\ normaliseText (normaliseText value) = normaliseText value
  /\ normaliseText (JS.trim value) = normaliseText value.
Proof.
  pose proof (normaliseText_normalised value) as Hshape.
  split; [exact Hshape|]. split.
  - now apply normaliseText_fixes.
  - apply normaliseText_trim.
Qed.

(* ----------------------------------------------------------------- *)
(** *** Sets of strings *)

Lemma setAdd_In set x y : In y (setAdd set x) <-> In y set \/ y = x.
Proof.
  unfold setAdd. destruct (includesStr set x) eqn:Hin.
  - apply includesStr_In in Hin. split; [now left | intros [H| ->]; assumption].
  - rewrite in_app_iff. simpl. split.
    + intros [H|[H|[]]]; [now left | now right].
    + intros [H|H]; [now left | right; now left].
Qed.

Lemma setAdd_NoDup set x : NoDup set -> NoDup (setAdd set x).
Proof.
  unfold setAdd. intros Hnd. destruct (includesStr set x) eqn:Hin; [exact Hnd|].
  apply NoDup_app; [exact Hnd | repeat constructor; tauto |].
  intros y Hy [<-|[]]. apply includesStr_In in Hy. congruence.
Qed.

Lemma setAdd_extends set x : exists extra, setAdd set x = set ++ extra.
Proof.
  unfold setAdd. destruct (includesStr set x).
  - exists []. now rewrite app_nil_r.
  - now exists [x].
Qed.

Lemma includesStr_false set x : includesStr set x = false <-> ~ In x set.
Proof.
  rewrite <- includesStr_In. destruct (includesStr set x); split; intros H;
    try discriminate; try reflexivity; try (exfalso; now apply H); congruence.
Qed.

(* ----------------------------------------------------------------- *)
(** *** [normalisePantryItems] *)

Lemma pantryStep_invariant state item :
  pantryInvariant state -> pantryInvariant (pantryStep state item).
Proof.
  unfold pantryInvariant, pantryStep. intros [Hkeys [Hnd Hink]].
  destruct (negb (JS.nonEmpty (normaliseText item))) eqn:Hempty; simpl orb.
  - now repeat split.
  - destruct (includesStr (fst state) (normaliseText item)) eqn:Hseen.
    + now repeat split.
    + cbn [fst snd]. apply negb_false_iff in Hempty.
      unfold setAdd. rewrite Hseen. repeat split.
      * rewrite map_app, Hkeys. simpl. now rewrite normaliseText_trim.
      * apply NoDup_app; [exact Hnd | repeat constructor; tauto |].
        intros y Hy [<-|[]]. apply includesStr_In in Hy. congruence.
      * apply Forall_app. split; [exact Hink | now repeat constructor].
Qed.

Lemma pantryLoop_facts items : forall state,
  pantryInvariant state ->
  let final := fold_left pantryStep items state in
  pantryInvariant final
  /\ incl (fst state) (fst final)
  /\ (forall item, In item items -> JS.nonEmpty (normaliseText item) = true ->
                   In (normaliseText item) (fst final))
  /\ (forall x, In x (snd final) ->
                In x (snd state) \/ exists item, In item items /\ x = JS.trim item).
Proof.
  induction items as [|item items IH]; intros state Hinv; cbn zeta.
  - simpl. repeat split; try assumption; try apply Hinv.
    + apply incl_refl.
    + intros item [].
    + intros x Hx. now left.
  - simpl fold_left.
    destruct (IH (pantryStep state item) (pantryStep_invariant _ _ Hinv))
      as [Hfinal [Hgrow [Hcover Hfrom]]].
    assert (Hstep : incl (fst state) (fst (pantryStep state item))
                    /\ (JS.nonEmpty (normaliseText item) = true ->
                        In (normaliseText item) (fst (pantryStep state item)))
                    /\ (forall x, In x (snd (pantryStep state item)) ->
                                  In x (snd state) \/ x = JS.trim item)).
    { unfold pantryStep.
      destruct (negb (JS.nonEmpty (normaliseText item))) eqn:Hempty; simpl orb.
      - apply negb_true_iff in Hempty. repeat split.
        + apply incl_refl.
        + congruence.
        + intros x Hx. now left.
      - destruct (includesStr (fst state) (normaliseText item)) eqn:Hseen.
        + repeat split.
          * apply incl_refl.
          * intros _. now apply includesStr_In.
          * intros x Hx. now left.
        + cbn [fst snd]. repeat split.
          * intros y Hy. apply setAdd_In. now left.
          * intros _. apply setAdd_In. now right.
          * intros x Hx. apply in_app_or in Hx.
            destruct Hx as [Hx|[<-|[]]]; [now left | now right]. }
    destruct Hstep as [Hstep1 [Hstep2 Hstep3]].
    split; [exact Hfinal|]. split; [|split].
    + intros y Hy. apply Hgrow, Hstep1, Hy.
    + intros other [<-|Hin] Hink; [apply Hgrow, Hstep2, Hink | now apply Hcover].
    + intros x Hx. destruct (Hfrom x Hx) as [Hold|[other [Hin Heq]]].
      * destruct (Hstep3 x Hold) as [Hstate| ->]; [now left|].
        right. exists item. split; [now left | reflexivity].
      * right. exists other. split; [now right | exact Heq].
Qed.

Lemma pantryInvariant_start : pantryInvariant ([], []).
Proof. repeat split; constructor. Qed.

Lemma normalisePantryItems_facts pantryItems :
  NoDup (map normaliseText (normalisePantryItems pantryItems))
  /\ Forall (fun entry => JS.nonEmpty (normaliseText entry) = true)
            (normalisePantryItems pantryItems)
  /\ (forall entry, In entry (normalisePantryItems pantryItems) ->
                    exists item, In item pantryItems /\ entry = JS.trim item)
  /\ (forall item, In item pantryItems ->
                   JS.nonEmpty (normaliseText item) = true ->
                   In (normaliseText item)
                      (map normaliseText (normalisePantryItems pantryItems))).
Proof.
  unfold normalisePantryItems.
  destruct (pantryLoop_facts pantryItems ([], []) pantryInvariant_start)
    as [[Hkeys [Hnd Hink]] [_ [Hcover Hfrom]]].
  rewrite <- Hkeys. split; [exact Hnd|]. split; [|split].
  - rewrite Hkeys in Hink. rewrite Forall_map in Hink. exact Hink.
  - intros entry Hentry. destruct (Hfrom entry Hentry) as [[]|Hitem]. exact Hitem.
  - exact Hcover.
Qed.

Lemma pantryLoop_distinct items : forall state,
  NoDup (map normaliseText items) ->
  Forall (fun item => JS.nonEmpty (normaliseText item) = true) items ->
  (forall item, In item items -> ~ In (normaliseText item) (fst state)) ->
  fold_left pantryStep items state
  = (fst state ++ map normaliseText items, snd state ++ map JS.trim items).
Proof.
  induction items as [|item items IH]; intros [seen cleaned] Hnd Hink Hnew.
  - simpl. now rewrite !app_nil_r.
  - simpl in Hnd. inversion Hnd as [|? ? Hfirst Hrest]; subst.
    inversion Hink as [|? ? Hitem Hitems]; subst.
    simpl fold_left.
    assert (Hstep : pantryStep (seen, cleaned) item
                    = (seen ++ [normaliseText item], cleaned ++ [JS.trim item])).
    { unfold pantryStep. cbn [fst snd]. rewrite Hitem. cbn [negb orb].
      assert (Hunseen : includesStr seen (normaliseText item) = false).
      { apply includesStr_false. apply (Hnew item). now left. }
      unfold setAdd. now rewrite Hunseen. }
    rewrite Hstep, IH; try assumption.
    + cbn [fst snd map]. now rewrite <- !app_assoc.
    + cbn [fst]. intros other Hother Hin. apply in_app_or in Hin.
      destruct Hin as [Hin|[Heq|[]]].
      * apply (Hnew other); [now right | exact Hin].
      * apply Hfirst. rewrite Heq. now apply in_map.
Qed.

(** X10: the cleaned pantry holds one entry per normalised text.  No two
    of its entries normalise to the same text, none normalises to the
    empty text, every entry is an item of the input with the white space
    at its ends removed, every item of the input that normalises to a text
    which is not empty has an entry with that text, and cleaning a pantry
    that is clean already changes nothing. *)
Theorem normalisePantryItems_clean pantryItems :
  NoDup (map normaliseText (normalisePantryItems pantryItems))
  /\ Forall (fun entry => JS.nonEmpty (normaliseText entry) = true)
            (normalisePantryItems pantryItems)
  /\ (forall entry, In entry (normalisePantryItems pantryItems) ->
                    exists item, In item pantryItems /\ entry = JS.trim item)
  /\ (forall item, In item pantryItems ->
                   JS.nonEmpty (normaliseText item) = true ->
                   In (normaliseText item)
                      (map normaliseText (normalisePantryItems pantryItems)))
  /\ normalisePantryItems (normalisePantryItems pantryItems)
     = normalisePantryItems pantryItems.
Proof.
  destruct (normalisePantryItems_facts pantryItems)
    as [Hnd [Hink [Hfrom Hcover]]].
  repeat (split; [assumption|]).
  set (cleaned := normalisePantryItems pantryItems) in *.
  unfold normalisePantryItems at 1.
  rewrite (pantryLoop_distinct cleaned ([], []) Hnd Hink);
    [|intros item _ []].
  cbn [fst snd app]. rewrite <- (map_id cleaned) at 2.
  apply map_ext_in. intros entry Hentry.
  destruct (Hfrom entry Hentry) as [item [_ ->]]. apply trim_idempotent.
Qed.

(* ----------------------------------------------------------------- *)
(** *** The cleaned pantry matches like the pantry *)

Lemma startsWith_length s t :
  JS.startsWith s t = true -> (String.length t <= String.length s)%nat.
Proof.
  revert s. induction t as [|a t IH]; intros s; simpl; [lia|].
  destruct s as [|b s]; [discriminate|]. intros Hstarts.
  apply andb_true_iff in Hstarts. destruct Hstarts as [_ Hrest].
  apply IH in Hrest. simpl. lia.
Qed.

Lemma includes_length s t :
  JS.includes s t = true -> (String.length t <= String.length s)%nat.
Proof.
  induction s as [|c s IH]; simpl.
  - rewrite orb_false_r. destruct t; [simpl; lia | discriminate].
  - intros Hinc. apply orb_true_iff in Hinc. destruct Hinc as [Hstarts|Hrest].
    + now apply (startsWith_length (String c s)).
    + apply IH in Hrest. lia.
Qed.

Lemma string_length_app a b :
  String.length (a ++ b)%string = (String.length a + String.length b)%nat.
Proof. induction a as [|c a IH]; simpl; [reflexivity | now rewrite IH]. Qed.

Lemma includes_cons c s t :
  JS.includes (String c s) t = JS.startsWith (String c s) t || JS.includes s t.
Proof. reflexivity. Qed.

Lemma startsWith_cons b s a p :
  JS.startsWith (String b s) (String a p) = Ascii.eqb a b && JS.startsWith s p.
Proof. reflexivity. Qed.

Lemma no_space_start c s t :
  Ascii.eqb c " " = false -> JS.startsWith (String c s) (String " " t) = false.
Proof. intros Hc. now rewrite startsWith_cons, Ascii.eqb_sym, Hc. Qed.

(** A tidy text followed by one space has no two spaces in a row. *)
Lemma tidy_single_spaces s : forall afterSpace,
  tidy afterSpace s = true -> lastIsSpace s = false -> s <> EmptyString ->
  JS.includes (s ++ " ")%string "  " = false.
Proof.
  induction s as [|c s IH]; intros afterSpace Htidy Hlast Hne; [contradiction|].
  rewrite tidy_cons in Htidy.
  destruct s as [|k s].
  - change ((String c EmptyString ++ " ")%string) with (String c " ").
    rewrite includes_cons.
    destruct (Ascii.eqb c " ") eqn:Hc.
    + apply Ascii.eqb_eq in Hc. subst c. discriminate Hlast.
    + now rewrite (no_space_start c _ _ Hc).
  - change ((String c (String k s) ++ " ")%string)
      with (String c (String k s ++ " ")%string).
    rewrite includes_cons.
    assert (Hrest : lastIsSpace (String k s) = false) by exact Hlast.
    destruct (Ascii.eqb c " ") eqn:Hc.
    + apply andb_true_iff in Htidy. destruct Htidy as [_ Htidy].
      rewrite (IH true Htidy Hrest); [|discriminate].
      rewrite orb_false_r.
      rewrite tidy_cons in Htidy.
      destruct (Ascii.eqb k " ") eqn:Hk; [discriminate Htidy|].
      change ((String k s ++ " ")%string) with (String k (s ++ " ")%string).
      rewrite startsWith_cons, (no_space_start k _ _ Hk). apply andb_false_r.
    + apply andb_true_iff in Htidy. destruct Htidy as [_ Htidy].
      rewrite (IH false Htidy Hrest); [|discriminate].
      now rewrite (no_space_start c _ _ Hc).
Qed.

Lemma normalised_single_spaces s :
  isNormalised s = true -> s <> EmptyString ->
  JS.includes (" " ++ s ++ " ")%string "  " = false.
Proof.
  unfold isNormalised. intros Hnorm Hne. apply andb_true_iff in Hnorm.
  destruct Hnorm as [Htidy Hlast]. apply negb_true_iff in Hlast.
  change (" " ++ s ++ " ")%string with (String " " (s ++ " ")%string).
  rewrite includes_cons, (tidy_single_spaces s true Htidy Hlast Hne).
  rewrite orb_false_r. destruct s as [|c s]; [contradiction|].
  rewrite tidy_cons in Htidy.
  destruct (Ascii.eqb c " ") eqn:Hc; [discriminate Htidy|].
  change ((String c s ++ " ")%string) with (String c (s ++ " ")%string).
  rewrite startsWith_cons, (no_space_start c _ _ Hc). apply andb_false_r.
Qed.

Lemma nonEmpty_false s : JS.nonEmpty s = false <-> s = EmptyString.
Proof. destruct s; simpl; split; intros H; congruence. Qed.

(** A pantry item without a letter or digit matches no name that has one. *)
Lemma blank_item_never_matches item ingredientName :
  JS.nonEmpty (normaliseText item) = false ->
  JS.nonEmpty (normaliseText ingredientName) = true ->
  containsToken (normaliseText item) (normaliseText ingredientName)
  || containsToken (normaliseText ingredientName) (normaliseText item) = false.
Proof.
  intros Hblank Hink. apply nonEmpty_false in Hblank.
  unfold containsToken. rewrite !normaliseText_idempotent, Hblank.
  set (text := normaliseText ingredientName) in *.
  apply orb_false_iff. split.
  - destruct (JS.includes _ _) eqn:Hinc; [|reflexivity].
    apply includes_length in Hinc. rewrite !string_length_app in Hinc.
    destruct text; [discriminate Hink|]. simpl in Hinc. lia.
  - apply normalised_single_spaces.
    + apply normaliseText_normalised.
    + intros Hempty. now rewrite Hempty in Hink.
Qed.

(** X11: cleaning the pantry does not change what is found in it: a
    name with at least one letter or digit matches the cleaned pantry
    exactly when it matches the pantry as it was typed. *)
Theorem normalisePantryItems_same_matches ingredientName pantryItems :
  JS.nonEmpty (normaliseText ingredientName) = true ->
  hasIngredient ingredientName (normalisePantryItems pantryItems)
  = hasIngredient ingredientName pantryItems.
Proof.
  intros Hink.
  destruct (normalisePantryItems_facts pantryItems) as [_ [_ [Hfrom Hcover]]].
  assert (Hiff : hasIngredient ingredientName (normalisePantryItems pantryItems) = true
                 <-> hasIngredient ingredientName pantryItems = true).
  { rewrite !hasIngredient_exists. split.
    - intros [entry [Hentry Hmatch]].
      destruct (Hfrom entry Hentry) as [item [Hitem ->]].
      exists item. split; [exact Hitem|].
      now rewrite normaliseText_trim in Hmatch.
    - intros [item [Hitem Hmatch]].
      destruct (JS.nonEmpty (normaliseText item)) eqn:Hkey.
      + specialize (Hcover item Hitem Hkey). apply in_map_iff in Hcover.
        destruct Hcover as [entry [Hsame Hentry]].
        exists entry. split; [exact Hentry | now rewrite Hsame].
      + rewrite (blank_item_never_matches item ingredientName Hkey Hink) in Hmatch.
        discriminate. }
  destruct (hasIngredient ingredientName (normalisePantryItems pantryItems));
    destruct (hasIngredient ingredientName pantryItems); try reflexivity.
  - symmetry. now apply Hiff.
  - now apply Hiff.
Qed.

Lemma normalisePantryItems_same_matches_witness :
  JS.nonEmpty (normaliseText "Red onion") = true
  /\ hasIngredient "Red onion" (normalisePantryItems [" ONION "; "??"; "onion!"])
     = hasIngredient "Red onion" [" ONION "; "??"; "onion!"].
Proof.
  assert (Hink : JS.nonEmpty (normaliseText "Red onion") = true) by reflexivity.
  split; [exact Hink|].
  exact (normalisePantryItems_same_matches "Red onion" _ Hink).
Defined.

(* ----------------------------------------------------------------- *)
(** *** [buildSwapSuggestions] and [buildShoppingList] *)

Lemma addings_facts {A} (wanted : A -> bool) (label : A -> string) (l : list A) :
  forall set,
    let final := fold_left (fun acc e => if wanted e then setAdd acc (label e) else acc)
                           l set in
    (NoDup set -> NoDup final)
    /\ (exists extra, final = set ++ extra)
    /\ (forall y, In y final <->
                  In y set \/ exists e, In e l /\ wanted e = true /\ label e = y).
Proof.
  induction l as [|e l IH]; intros set; cbn zeta.
  - simpl. split; [tauto|]. split; [exists []; now rewrite app_nil_r|].
    intros y. split; [now left | intros [H|[e [[] _]]]; exact H].
  - simpl fold_left.
    destruct (IH (if wanted e then setAdd set (label e) else set))
      as [Hnd [[extra Hext] Hin]].
    split; [|split].
    + intros Hset. apply Hnd. destruct (wanted e); [now apply setAdd_NoDup | exact Hset].
    + destruct (wanted e).
      * destruct (setAdd_extends set (label e)) as [first Hfirst].
        exists (first ++ extra). now rewrite Hext, Hfirst, app_assoc.
      * now exists extra.
    + intros y. rewrite Hin. split.
      * intros [Hy|[e' [He' [Hw Hl]]]].
        -- destruct (wanted e) eqn:Hwe; [|now left].
           apply setAdd_In in Hy. destruct Hy as [Hy| ->]; [now left|].
           right. exists e. split; [now left | now split].
        -- right. exists e'. split; [now right | now split].
      * intros [Hy|[e' [[<-|He'] [Hw Hl]]]].
        -- left. destruct (wanted e); [apply setAdd_In; now left | exact Hy].
        -- left. rewrite Hw. apply setAdd_In. now right.
        -- right. exists e'. now repeat split.
Qed.

Lemma newSet_facts xs :
  NoDup (newSet xs) /\ (forall y, In y (newSet xs) <-> In y xs).
Proof.
  unfold newSet.
  destruct (addings_facts (fun _ : string => true) (fun x => x) xs [])
    as [Hnd [_ Hin]].
  cbn zeta in *. split; [apply Hnd; constructor|].
  intros y. rewrite Hin. split.
  - intros [[]|[e [He [_ <-]]]]. exact He.
  - intros Hy. right. now exists y.
Qed.

Lemma dictionary_swaps_facts ingredients0 : forall set,
  let final :=
    fold_left (fun acc ingredient =>
                 addDictionarySwaps acc (normaliseText (name ingredient)))
              ingredients0 set in
  (NoDup set -> NoDup final)
  /\ (exists extra, final = set ++ extra)
  /\ (forall y, In y final -> In y set \/ In y (map snd swapDictionary)).
Proof.
  induction ingredients0 as [|i l IH]; intros set; cbn zeta.
  - simpl. split; [tauto|]. split; [exists []; now rewrite app_nil_r | now left].
  - simpl fold_left.
    destruct (IH (addDictionarySwaps set (normaliseText (name i))))
      as [Hnd [[extra Hext] Hin]].
    unfold addDictionarySwaps in *.
    destruct (addings_facts
                (fun entry : string * string =>
                   JS.includes (normaliseText (name i)) (fst entry))
                snd swapDictionary set) as [Hnd' [[first Hfirst] Hin']].
    cbn zeta in *. split; [|split].
    + intros Hset. now apply Hnd, Hnd'.
    + exists (first ++ extra). now rewrite Hext, Hfirst, app_assoc.
    + intros y Hy. destruct (Hin y Hy) as [Hy'|Hdict]; [|now right].
      apply Hin' in Hy'. destruct Hy' as [Hset|[entry [Hentry [_ <-]]]];
        [now left | right; now apply in_map].
Qed.

Lemma firstn_NoDup {A} (n : nat) (l : list A) : NoDup l -> NoDup (firstn n l).
Proof.
  intros Hnd. rewrite <- (map_id (firstn n l)). apply NoDup_map_firstn.
  now rewrite map_id.
Qed.

(** X12: the swap suggestions are at most six, without repetition;
    the suggestions the recipe declares come first, in the order of their
    first occurrence, and every other one is a text of the swap table or
    one of the two fixed hints. *)
Theorem buildSwapSuggestions_shape recipe dietaryTags0 pantryItems :
  let suggestions := buildSwapSuggestions recipe dietaryTags0 pantryItems in
  (List.length suggestions <= 6)%nat
  /\ NoDup suggestions
  /\ (exists others,
        suggestions = firstn 6 (newSet (swapSuggestions recipe) ++ others))
  /\ (forall s, In s suggestions ->
                In s (swapSuggestions recipe)
                \/ In s (map snd swapDictionary)
                \/ s = veganHint \/ s = missingHint).
Proof.
  cbn zeta. unfold buildSwapSuggestions.
  destruct (newSet_facts (swapSuggestions recipe)) as [Hnd0 Hin0].
  set (own := newSet (swapSuggestions recipe)) in *.
  destruct (dictionary_swaps_facts (ingredients recipe) own)
    as [Hnd1 [[extra1 Hext1] Hin1]].
  cbn zeta in *.
  set (withTable :=
         fold_left (fun acc ingredient =>
                      addDictionarySwaps acc (normaliseText (name ingredient)))
                   (ingredients recipe) own) in *.
  set (withVegan := if includesStr dietaryTags0 "vegan"
                    then setAdd withTable veganHint else withTable).
  set (withMissing :=
         if (0 <? List.length (missingIngredients recipe pantryItems))%nat
         then setAdd withVegan missingHint else withVegan).
  assert (Hnd2 : NoDup withVegan).
  { unfold withVegan. destruct (includesStr dietaryTags0 "vegan");
      [apply setAdd_NoDup|]; now apply Hnd1. }
  assert (Hnd3 : NoDup withMissing).
  { unfold withMissing. destruct (0 <? _)%nat; [now apply setAdd_NoDup | exact Hnd2]. }
  assert (Hext2 : exists extra, withVegan = own ++ extra).
  { unfold withVegan. destruct (includesStr dietaryTags0 "vegan").
    - destruct (setAdd_extends withTable veganHint) as [e He].
      exists (extra1 ++ e). now rewrite He, Hext1, app_assoc.
    - now exists extra1. }
  assert (Hext3 : exists extra, withMissing = own ++ extra).
  { destruct Hext2 as [extra2 Hext2]. unfold withMissing. destruct (0 <? _)%nat.
    - destruct (setAdd_extends withVegan missingHint) as [e He].
      exists (extra2 ++ e). now rewrite He, Hext2, app_assoc.
    - now exists extra2. }
  assert (Hin2 : forall s, In s withVegan ->
                   In s withTable \/ s = veganHint).
  { intros s. unfold withVegan. destruct (includesStr dietaryTags0 "vegan");
      [apply setAdd_In | now left]. }
  assert (Hin3 : forall s, In s withMissing ->
                   In s withVegan \/ s = missingHint).
  { intros s. unfold withMissing. destruct (0 <? _)%nat;
      [apply setAdd_In | now left]. }
  split; [rewrite length_firstn; lia|]. split; [now apply firstn_NoDup|]. split.
  - destruct Hext3 as [others ->]. now exists others.
  - intros s Hs. apply In_firstn in Hs.
    destruct (Hin3 s Hs) as [Hs'|Hs']; [|tauto].
    destruct (Hin2 s Hs') as [Hs''|Hs'']; [|tauto].
    destruct (Hin1 s Hs'') as [Hown|Hdict]; [|tauto].
    left. now apply Hin0.
Qed.

Section ShoppingListFacts.
Variable localeCompare : string -> string -> Z.

Lemma insertByName_perm x sorted :
  Permutation (x :: sorted) (insertByName localeCompare x sorted).
Proof.
  induction sorted as [|y rest IH]; simpl; [reflexivity|].
  destruct (0 <? localeCompare x y)%Z; [|reflexivity].
  rewrite perm_swap. now constructor.
Qed.

Lemma sortByName_perm names :
  Permutation names (sortByName localeCompare names).
Proof.
  induction names as [|x names IH]; simpl; [constructor|].
  rewrite <- insertByName_perm. now constructor.
Qed.

Lemma neededItems_facts pantryItems recipes : forall set,
  let final :=
    fold_left
      (fun acc recipe =>
         fold_left (fun acc' ingredient => setAdd acc' (name ingredient))
                   (missingIngredients recipe pantryItems) acc)
      recipes set in
  (NoDup set -> NoDup final)
  /\ (forall y, In y final <->
                In y set
                \/ exists recipe ingredient,
                     In recipe recipes
                     /\ In ingredient (missingIngredients recipe pantryItems)
                     /\ name ingredient = y).
Proof.
  induction recipes as [|r recipes IH]; intros set; cbn zeta.
  - simpl. split; [tauto|]. intros y. split; [now left|].
    intros [H|[r [i [[] _]]]]. exact H.
  - simpl fold_left.
    destruct (addings_facts (fun _ : Ingredient => true) name
                            (missingIngredients r pantryItems) set)
      as [Hnd1 [_ Hin1]].
    cbn zeta in *.
    destruct (IH (fold_left (fun acc' ingredient => setAdd acc' (name ingredient))
                            (missingIngredients r pantryItems) set))
      as [Hnd Hin].
    split; [intros Hset; now apply Hnd, Hnd1|].
    intros y. rewrite Hin, Hin1. split.
    + intros [[Hy|[i [Hi [_ Hname]]]]|[r' [i [Hr' Hi]]]].
      * now left.
      * right. exists r, i. split; [now left | now split].
      * right. exists r', i. split; [now right | exact Hi].
    + intros [Hy|[r' [i [[<-|Hr'] [Hi Hname]]]]].
      * left. now left.
      * left. right. exists i. now repeat split.
      * right. exists r', i. now repeat split.
Qed.

(** X13: whatever the collation of the host, the shopping list names
    each missing ingredient once: it has no repetition, and a name is on
    it exactly when some recipe of the list has an ingredient of that name
    which is not found in the pantry. *)
Theorem buildShoppingList_exact recipes pantryItems :
  NoDup (buildShoppingList localeCompare recipes pantryItems)
  /\ (forall item,
         In item (buildShoppingList localeCompare recipes pantryItems) <->
         exists recipe ingredient,
           In recipe recipes
           /\ In ingredient (missingIngredients recipe pantryItems)
           /\ name ingredient = item).
Proof.
  unfold buildShoppingList.
  destruct (neededItems_facts pantryItems recipes []) as [Hnd Hin].
  cbn zeta in *. split.
  - eapply Permutation_NoDup; [apply sortByName_perm|]. apply Hnd. constructor.
  - intros item. split.
    + intros Hitem.
      apply (Permutation_in item (Permutation_sym (sortByName_perm _))) in Hitem.
      apply Hin in Hitem. destruct Hitem as [[]|Hitem]. exact Hitem.
    + intros Hitem. apply (Permutation_in item (sortByName_perm _)).
      apply Hin. now right.
Qed.

End ShoppingListFacts.

(* ----------------------------------------------------------------- *)
(** *** What scaling leaves alone *)

Lemma roundQuantity_nonneg value : (0 <= value)%Q -> (0 <= roundQuantity value)%Q.
Proof.
  intros Hpos. unfold roundQuantity.
  assert (Hround : forall x, (0 <= x)%Q -> (0 <= JS.Math_round x)%Q).
  { intros x Hx. apply (Math_round_ge 0). exact Hx. }
  destruct (JS.ge value 50); [|destruct (JS.ge value 10)].
  - now apply Hround.
  - assert (H2 : (0 <= JS.Math_round (value * 2))%Q) by (apply Hround; lra).
    constant_divisors. lra.
  - assert (H10 : (0 <= JS.Math_round (value * 10))%Q) by (apply Hround; lra).
    constant_divisors. lra.
Qed.

Lemma le_false_pos x : JS.le x 0 = false -> (0 < x)%Q.
Proof.
  unfold JS.le. intros Hfalse.
  destruct (Qlt_le_dec 0 x) as [Hlt|Hle]; [exact Hlt|].
  apply Qle_bool_iff in Hle. congruence.
Qed.

(** X14: scaling never adds, drops or reorders ingredients, never
    touches a name, unit, optional flag or note, and never makes a
    quantity negative that was not negative before. *)
Theorem scaleIngredients_keeps ingredients0 currentServings targetServings :
  Forall2 (fun original scaled =>
             name scaled = name original
             /\ unit scaled = unit original
             /\ optional scaled = optional original
             /\ notes scaled = notes original
             /\ ((0 <= quantity original)%Q -> (0 <= quantity scaled)%Q))
          ingredients0
          (scaleIngredients ingredients0 currentServings targetServings).
Proof.
  unfold scaleIngredients.
  destruct (JS.le currentServings 0) eqn:Hcurrent; simpl orb.
  - induction ingredients0; constructor; tauto.
  - destruct (JS.le targetServings 0) eqn:Htarget.
    + induction ingredients0; constructor; tauto.
    + apply le_false_pos in Hcurrent. apply le_false_pos in Htarget.
      assert (Hfactor : (0 < targetServings / currentServings)%Q).
      { apply Qlt_shift_div_l; [exact Hcurrent | lra]. }
      induction ingredients0 as [|i rest IH]; simpl; constructor; [|exact IH].
      repeat split. cbn [quantity]. intros Hpos. apply roundQuantity_nonneg.
      apply Qmult_le_0_compat; [exact Hpos | lra].
Qed.

End EngineFacts.

(* ================================================================= *)
(** ** Properties of the LLM utilities *)

Module LlmFacts.
Import Json Llm Notions.

(** *** Field by field *)

Lemma get_getOpt v key : isNullish v = false -> get v key = Ok (getOpt v key).
Proof. destruct v; simpl; intros H; try discriminate; reflexivity. Qed.

Lemma keepAllowed_allowed options items :
  Forall (fun s => In s options) (keepAllowed (setHas options) items).
Proof.
  induction items as [|item items IH]; simpl; [constructor|].
  destruct item; try exact IH.
  destruct (includesStr options s) eqn:Hin; [|exact IH].
  constructor; [|exact IH]. now apply EngineFacts.includesStr_In.
Qed.


Lemma filterMap_Forall {A B} (f : A -> option B) (P : B -> Prop) :
  (forall x y, f x = Some y -> P y) ->
  forall xs, Forall P (filterMap f xs).
Proof.
  intros Hf. induction xs as [|x xs IH]; simpl; [constructor|].
  destruct (f x) eqn:Hx; [|exact IH].
  constructor; [eapply Hf; eassumption | exact IH].
Qed.

Lemma chosen_unit_allowed (v : value) :
  In (match v with
      | Str u => if allowedUnitSet (Str u) then u else "g"
      | _ => "g"
      end) Engine.UNIT_OPTIONS.
Proof.
  destruct v as [| | | |u| |]; try (left; reflexivity).
  unfold allowedUnitSet, setHas.
  destruct (includesStr Engine.UNIT_OPTIONS u) eqn:Hallowed.
  - now apply EngineFacts.includesStr_In.
  - left; reflexivity.
Qed.

Lemma chosen_difficulty_allowed (v : value) :
  In (match v with
      | Str d => if includesStr difficultyValues d then d else "Easy"
      | _ => "Easy"
      end) difficultyValues.
Proof.
  destruct v as [| | | |d| |]; try (left; reflexivity).
  destruct (includesStr difficultyValues d) eqn:Hallowed.
  - now apply EngineFacts.includesStr_In.
  - left; reflexivity.
Qed.

Lemma normalizeIngredient_unit raw ingredient :
  normalizeIngredient raw = Some ingredient ->
  In (unit ingredient) Engine.UNIT_OPTIONS.
Proof.
  unfold normalizeIngredient.
  destruct (negb (truthy raw) || negb (isObjectType raw)); [discriminate|].
  destruct (negb (JS.nonEmpty _)); [discriminate|].
  intros Hsome. injection Hsome as <-. apply chosen_unit_allowed.
Qed.

Lemma nonEmpty_or_default {A} (xs fallback : list A) :
  fallback <> [] ->
  (if (0 <? List.length xs)%nat then xs else fallback) <> [].
Proof. destruct xs; simpl; [tauto | discriminate]. Qed.

(** C2: on every raw value other than [null] and [undefined], whatever
    the types of its fields and whichever are missing or unexpected,
    [normalizeRecipe] returns a recipe, and that recipe has ingredients
    and steps and only allowed values as unit, difficulty, dietary tags,
    allergens and equipment. *)
Theorem normalizeRecipe_total_and_valid rawRecipe index uuid :
  isNullish rawRecipe = false ->
  exists recipe,
    normalizeRecipe rawRecipe index uuid = Ok recipe
    /\ RecipeInvariants recipe.
Proof.
  intros Hobj. unfold normalizeRecipe.
  rewrite (get_getOpt _ _ Hobj). cbn [bind].
  eexists. split; [reflexivity|].
  unfold RecipeInvariants.
  cbn [ingredients steps difficulty dietaryTags allergens equipment].
  repeat split.
  - apply nonEmpty_or_default. discriminate.
  - apply nonEmpty_or_default. discriminate.
  - destruct (0 <? _)%nat.
    + destruct (getOpt rawRecipe "ingredients"); try constructor.
      apply filterMap_Forall. exact normalizeIngredient_unit.
    + constructor; [|constructor].
      now apply EngineFacts.includesStr_In.
  - apply chosen_difficulty_allowed.
  - destruct (getOpt rawRecipe "dietaryTags"); try constructor.
    apply keepAllowed_allowed.
  - destruct (getOpt rawRecipe "allergens"); try constructor.
    apply keepAllowed_allowed.
  - destruct (getOpt rawRecipe "equipment");
      try (constructor; [now apply EngineFacts.includesStr_In | constructor]).
    apply keepAllowed_allowed.
Qed.

Lemma normalizeRecipe_total_and_valid_witness :
  isNullish Samples.garbledRecipe = false
  /\ exists recipe,
       normalizeRecipe Samples.garbledRecipe 2 "f3a1" = Ok recipe
       /\ RecipeInvariants recipe.
Proof.
  assert (Hobj : isNullish Samples.garbledRecipe = false) by reflexivity.
  split; [exact Hobj|].
  exact (normalizeRecipe_total_and_valid Samples.garbledRecipe 2 "f3a1" Hobj).
Defined.




(** *** The extractor *)

Lemma startsWith_drop s p :
  JS.startsWith s p = true -> s = (p ++ JS.drop (String.length p) s)%string.
Proof.
  revert s. induction p as [|a p IH]; intros s; simpl; [reflexivity|].
  destruct s as [|b s]; [discriminate|].
  intros Hstarts. apply andb_true_iff in Hstarts. destruct Hstarts as [Hab Hrest].
  apply Ascii.eqb_eq in Hab. subst b. simpl. f_equal. now apply IH.
Qed.

Lemma trimStart_split s :
  exists gap, s = (gap ++ JS.trimStart s)%string /\ allSpace gap = true.
Proof.
  induction s as [|c s [gap [Hs Hgap]]]; simpl.
  - exists EmptyString. split; reflexivity.
  - destruct (JS.isSpace c) eqn:Hc.
    + exists (String c gap). simpl. rewrite Hc, Hgap. split; [|reflexivity].
      now f_equal.
    + exists EmptyString. split; reflexivity.
Qed.

Lemma lazyCapture_eq body :
  lazyCapture body =
  if JS.startsWith (JS.trimStart body) fence then Some EmptyString
  else match body with
       | EmptyString => None
       | String c rest => option_map (String c) (lazyCapture rest)
       end.
Proof. destruct body; reflexivity. Qed.

Lemma lazyCapture_sound body : forall captured,
  lazyCapture body = Some captured ->
  exists gap after,
    body = (captured ++ gap ++ fence ++ after)%string /\ allSpace gap = true.
Proof.
  induction body as [|c body IH]; intros captured; rewrite lazyCapture_eq.
  - discriminate.
  - destruct (JS.startsWith (JS.trimStart (String c body)) fence) eqn:Hclose.
    + intros Hsome. injection Hsome as <-.
      destruct (trimStart_split (String c body)) as [gap [Hsplit Hgap]].
      exists gap, (JS.drop 3 (JS.trimStart (String c body))). split; [|exact Hgap].
      cbn [append]. rewrite Hsplit at 1. f_equal.
      now apply (startsWith_drop _ fence).
    + destruct (lazyCapture body) as [inner|] eqn:Hinner; [|discriminate].
      intros Hsome. injection Hsome as <-.
      destruct (IH inner eq_refl) as [gap [after [Hbody Hgap]]].
      exists gap, after. split; [|exact Hgap]. cbn [append]. now f_equal.
Qed.

Lemma afterFence_eq s :
  afterFence s =
  if JS.startsWith s fence then Some (JS.drop 3 s)
  else match s with
       | EmptyString => None
       | String _ rest => afterFence rest
       end.
Proof. destruct s; reflexivity. Qed.

Lemma afterFence_sound s : forall opened,
  afterFence s = Some opened ->
  exists before, s = (before ++ fence ++ opened)%string.
Proof.
  induction s as [|c s IH]; intros opened; rewrite afterFence_eq.
  - discriminate.
  - destruct (JS.startsWith (String c s) fence) eqn:Hopen.
    + intros Hsome. injection Hsome as <-. exists EmptyString.
      exact (startsWith_drop _ fence Hopen).
    + intros Hsome. destruct (IH _ Hsome) as [before Hs].
      exists (String c before). cbn [append]. now f_equal.
Qed.

(** What [codeFenceMatch] captures does stand in the text the way the
    regular expression asks: after an opening fence, an optional [json]
    in any case and white space, and before white space and a closing
    fence. *)
Lemma codeFenceMatch_sound rawText captured :
  codeFenceMatch rawText = Some captured ->
  exists before tag gap gap' after,
    rawText = (before ++ fence ++ tag ++ gap ++ captured
               ++ gap' ++ fence ++ after)%string
    /\ (tag = EmptyString \/ JS.toLowerCase tag = "json")
    /\ allSpace gap = true /\ allSpace gap' = true.
Proof.
  unfold codeFenceMatch.
  destruct (afterFence rawText) as [opened|] eqn:Hopen; [|discriminate].
  intros Hcap.
  destruct (afterFence_sound _ _ Hopen) as [before ->].
  destruct (lazyCapture_sound _ _ Hcap) as [gap' [after [Hbody Hgap']]].
  destruct (trimStart_split (skipJsonTag opened)) as [gap [Hskip Hgap]].
  rewrite Hbody in Hskip.
  assert (Htag : exists tag, opened = (tag ++ skipJsonTag opened)%string
                             /\ (tag = EmptyString \/ JS.toLowerCase tag = "json")).
  { unfold skipJsonTag.
    destruct (JS.startsWith (JS.toLowerCase opened) "json") eqn:Htagged.
    - apply (startsWith_drop _ "json") in Htagged.
      destruct opened as [|a [|b [|c [|d rest]]]];
        cbn in Htagged; try discriminate Htagged.
      exists (String a (String b (String c (String d EmptyString)))).
      split; [reflexivity|]. right. cbn. congruence.
    - exists EmptyString. split; [reflexivity | now left]. }
  destruct Htag as [tag [Hopened Htag]].
  exists before, tag, gap, gap', after.
  split; [|split; [exact Htag | split; assumption]].
  rewrite Hopened at 1. rewrite Hskip. reflexivity.
Qed.

Lemma indexOf_eq s t :
  JS.indexOf s t =
  if JS.startsWith s t then Some 0%nat
  else match s with
       | EmptyString => None
       | String _ rest => option_map S (JS.indexOf rest t)
       end.
Proof. destruct s; reflexivity. Qed.

(** The fence that [afterFence] passes is the leftmost one of the text. *)
Lemma afterFence_leftmost s : forall opened,
  afterFence s = Some opened ->
  exists before,
    s = (before ++ fence ++ opened)%string
    /\ JS.indexOf s fence = Some (String.length before).
Proof.
  induction s as [|c s IH]; intros opened; rewrite afterFence_eq, indexOf_eq.
  - discriminate.
  - destruct (JS.startsWith (String c s) fence) eqn:Hopen.
    + intros Hsome. injection Hsome as <-. exists EmptyString.
      split; [exact (startsWith_drop _ fence Hopen) | reflexivity].
    + intros Hsome. destruct (IH _ Hsome) as [before [Hs Hindex]].
      exists (String c before). cbn [append String.length]. rewrite Hindex.
      split; [now f_equal | reflexivity].
Qed.

Lemma startsWith_app s t p :
  JS.startsWith s p = true -> JS.startsWith (s ++ t)%string p = true.
Proof.
  revert s. induction p as [|a p IH]; intros s;
    [intros _; now destruct (s ++ t)%string|].
  destruct s as [|b s]; [discriminate|].
  cbn [append]. rewrite !EngineFacts.startsWith_cons. intros Hstarts.
  apply andb_true_iff in Hstarts. destruct Hstarts as [-> Hrest].
  now rewrite (IH _ Hrest).
Qed.

Lemma indexOf_spaces gap s :
  allSpace gap = true ->
  JS.startsWith s fence = true ->
  JS.indexOf (gap ++ s)%string fence = Some (String.length gap).
Proof.
  intros Hgap Hfence. induction gap as [|c gap IH].
  - cbn [append String.length]. rewrite indexOf_eq. now rewrite Hfence.
  - cbn [allSpace] in Hgap. apply andb_true_iff in Hgap. destruct Hgap as [Hc Hgap].
    cbn [append String.length]. rewrite indexOf_eq.
    assert (Hno : JS.startsWith (String c (gap ++ s)) fence = false).
    { unfold fence. rewrite EngineFacts.startsWith_cons.
      destruct (Ascii.eqb_spec "`" c) as [<-|_]; [discriminate Hc | reflexivity]. }
    rewrite Hno, (IH Hgap). reflexivity.
Qed.

Lemma trimStart_ink s c rest :
  JS.trimStart s = String c rest -> JS.isSpace c = false.
Proof.
  induction s as [|a s IH]; cbn [JS.trimStart]; [discriminate|].
  destruct (JS.isSpace a) eqn:Ha; [exact IH|].
  intros Heq. injection Heq as <- _. exact Ha.
Qed.

(** The capture is lazy: the fence that closes it is the first fence
    of the text that follows the opening. *)
Lemma lazyCapture_next body : forall captured,
  lazyCapture body = Some captured ->
  exists gap after,
    body = (captured ++ gap ++ fence ++ after)%string
    /\ allSpace gap = true
    /\ JS.indexOf body fence
       = Some (String.length captured + String.length gap)%nat.
Proof.
  induction body as [|c body IH]; intros captured; rewrite lazyCapture_eq.
  - discriminate.
  - destruct (JS.startsWith (JS.trimStart (String c body)) fence) eqn:Hclose.
    + intros Hsome. injection Hsome as <-.
      destruct (trimStart_split (String c body)) as [gap [Hsplit Hgap]].
      exists gap, (JS.drop 3 (JS.trimStart (String c body))).
      split; [|split; [exact Hgap|]].
      * cbn [append]. rewrite Hsplit at 1. f_equal.
        now apply (startsWith_drop _ fence).
      * rewrite Hsplit at 1. cbn [String.length plus].
        now apply indexOf_spaces.
    + destruct (lazyCapture body) as [inner|] eqn:Hinner; [|discriminate].
      intros Hsome. injection Hsome as <-.
      destruct (IH inner eq_refl) as [gap [after [Hbody [Hgap Hindex]]]].
      exists gap, after. split; [|split; [exact Hgap|]].
      * cbn [append]. now f_equal.
      * rewrite indexOf_eq.
        assert (Hno : JS.startsWith (String c body) fence = false).
        { destruct (JS.startsWith (String c body) fence) eqn:Hstarts; [|reflexivity].
          assert (Hc : JS.isSpace c = false).
          { unfold fence in Hstarts. rewrite EngineFacts.startsWith_cons in Hstarts.
            apply andb_true_iff in Hstarts. destruct Hstarts as [Hc _].
            apply Ascii.eqb_eq in Hc. now subst c. }
          cbn [JS.trimStart] in Hclose. rewrite Hc in Hclose. congruence. }
        rewrite Hno, Hindex. reflexivity.
Qed.

(** Where the candidate of strategy (b) stands in the text. *)
Lemma fencedBlock_first rawText block :
  fencedBlock rawText = Some block ->
  exists before tag gap gap' after,
    rawText = (before ++ fence ++ tag ++ gap ++ block
               ++ gap' ++ fence ++ after)%string
    /\ JS.indexOf rawText fence = Some (String.length before)
    /\ (tag = EmptyString \/ JS.toLowerCase tag = "json")
    /\ allSpace gap = true /\ allSpace gap' = true
    /\ JS.nonEmpty block = true
    /\ JS.trimStart block = block
    /\ JS.indexOf (block ++ gap' ++ fence ++ after)%string fence
       = Some (String.length block + String.length gap')%nat.
Proof.
  unfold fencedBlock, codeFenceMatch.
  destruct (afterFence rawText) as [opened|] eqn:Hopen; [|discriminate].
  destruct (lazyCapture (JS.trimStart (skipJsonTag opened))) as [captured|] eqn:Hcap;
    [|discriminate].
  destruct (JS.nonEmpty captured) eqn:Hfilled; [|discriminate].
  intros Hsome. injection Hsome as <-.
  destruct (afterFence_leftmost _ _ Hopen) as [before [Htext Hindex]].
  destruct (lazyCapture_next _ _ Hcap) as [gap' [after [Hbody [Hgap' Hnext]]]].
  destruct (trimStart_split (skipJsonTag opened)) as [gap [Hskip Hgap]].
  assert (Hink : JS.trimStart captured = captured).
  { destruct captured as [|c rest]; [discriminate Hfilled|].
    cbn [append] in Hbody. apply trimStart_ink in Hbody.
    cbn [JS.trimStart]. now rewrite Hbody. }
  rewrite Hbody in Hnext. rewrite Hbody in Hskip.
  assert (Htag : exists tag, opened = (tag ++ skipJsonTag opened)%string
                             /\ (tag = EmptyString \/ JS.toLowerCase tag = "json")).
  { unfold skipJsonTag.
    destruct (JS.startsWith (JS.toLowerCase opened) "json") eqn:Htagged.
    - apply (startsWith_drop _ "json") in Htagged.
      destruct opened as [|a [|b [|c [|d rest]]]];
        cbn in Htagged; try discriminate Htagged.
      exists (String a (String b (String c (String d EmptyString)))).
      split; [reflexivity|]. right. cbn. congruence.
    - exists EmptyString. split; [reflexivity | now left]. }
  destruct Htag as [tag [Hopened Htag]].
  exists before, tag, gap, gap', after.
  split; [|split; [exact Hindex|split; [exact Htag|]]].
  - rewrite Htext. rewrite Hopened at 1. rewrite Hskip. reflexivity.
  - split; [exact Hgap|]. split; [exact Hgap'|].
    split; [exact Hfilled|]. split; [exact Hink | exact Hnext].
Qed.

Lemma extractJsonFromText_eq rawText :
  extractJsonFromText rawText =
  match wholeText rawText with
  | Some parsed => Ok parsed
  | None =>
      match fencedBlock rawText with
      | Some block => JSON_parse block
      | None =>
          match braceSlice rawText with
          | Some candidate => JSON_parse candidate
          | None => Throw noJson
          end
      end
  end.
Proof.
  unfold extractJsonFromText, wholeText, fencedBlock, braceSlice.
  destruct (JSON_parse rawText) as [parsed|e].
  - destruct (truthy parsed) eqn:Htruthy; [reflexivity|].
    destruct (codeFenceMatch rawText) as [captured|];
      [destruct (JS.nonEmpty captured); [reflexivity|]|];
      destruct (JS.indexOf rawText "{") as [start|];
      destruct (JS.lastIndexOf rawText "}") as [finish|];
      try reflexivity;
      destruct (start <? finish)%nat; reflexivity.
  - cbn [truthy].
    destruct (codeFenceMatch rawText) as [captured|];
      [destruct (JS.nonEmpty captured); [reflexivity|]|];
      destruct (JS.indexOf rawText "{") as [start|];
      destruct (JS.lastIndexOf rawText "}") as [finish|];
      try reflexivity;
      destruct (start <? finish)%nat; reflexivity.
Qed.

(** C4, as the code has it: the whole text is returned when it parses
    to a truthy value.  Otherwise exactly one further strategy decides,
    chosen by the shape of the text and not by which parse succeeds.
    The candidate of strategy (b) is what the first match of the fence
    pattern captures: it stands after the leftmost fence of the text, an
    optional [json] in any case and all the white space that follows, it
    ends at the white space before the next fence, and it counts only
    when it is not empty.
    When there is such a candidate the result is its parse, whatever the
    braces of the text would give; when there is none, also because the
    first match captures nothing while a later block has contents, the
    text from the first [{] to the last [}] is parsed; and failing that
    too, the error is [Model response did not include JSON.] *)
Theorem extractJsonFromText_cascade rawText :
  (forall parsed,
      wholeText rawText = Some parsed ->
      extractJsonFromText rawText = Ok parsed)
  /\ (forall block,
         wholeText rawText = None ->
         fencedBlock rawText = Some block ->
         extractJsonFromText rawText = JSON_parse block)
  /\ (forall candidate,
         wholeText rawText = None ->
         fencedBlock rawText = None ->
         braceSlice rawText = Some candidate ->
         extractJsonFromText rawText = JSON_parse candidate)
  /\ (wholeText rawText = None ->
      fencedBlock rawText = None ->
      braceSlice rawText = None ->
      extractJsonFromText rawText = Throw noJson)
  /\ (forall block,
         fencedBlock rawText = Some block ->
         exists before tag gap gap' after,
           rawText = (before ++ fence ++ tag ++ gap ++ block
                      ++ gap' ++ fence ++ after)%string
           /\ JS.indexOf rawText fence = Some (String.length before)
           /\ (tag = EmptyString \/ JS.toLowerCase tag = "json")
           /\ allSpace gap = true /\ allSpace gap' = true
           /\ JS.nonEmpty block = true
           /\ JS.trimStart block = block
           /\ JS.indexOf (block ++ gap' ++ fence ++ after)%string fence
              = Some (String.length block + String.length gap')%nat).
Proof.
  rewrite extractJsonFromText_eq. repeat split.
  - intros parsed ->. reflexivity.
  - intros block -> ->. reflexivity.
  - intros candidate -> -> ->. reflexivity.
  - intros -> -> ->. reflexivity.
  - apply fencedBlock_first.
Qed.

Lemma extractJsonFromText_cascade_witness :
  (wholeText (Samples.json "{'a':1}") = Some (Obj [("a", Num (Finite 1))])
   /\ extractJsonFromText (Samples.json "{'a':1}") = Ok (Obj [("a", Num (Finite 1))]))
  /\ (wholeText Samples.fencedReply = None
      /\ fencedBlock Samples.fencedReply
         = Some (Samples.json "{'assistantSummary':'ok','recipes':[]}")
      /\ extractJsonFromText Samples.fencedReply
         = JSON_parse (Samples.json "{'assistantSummary':'ok','recipes':[]}"))
  /\ (wholeText Samples.proseReply = None
      /\ fencedBlock Samples.proseReply = None
      /\ braceSlice Samples.proseReply = Some (Samples.json "{'a':[1,2]}")
      /\ extractJsonFromText Samples.proseReply = JSON_parse (Samples.json "{'a':[1,2]}"))
  /\ (wholeText "no braces here" = None
      /\ fencedBlock "no braces here" = None
      /\ braceSlice "no braces here" = None
      /\ extractJsonFromText "no braces here" = Throw noJson).
Proof.
  assert (Ha : wholeText (Samples.json "{'a':1}") = Some (Obj [("a", Num (Finite 1))]))
    by reflexivity.
  assert (Hb1 : wholeText Samples.fencedReply = None) by reflexivity.
  assert (Hb2 : fencedBlock Samples.fencedReply
                = Some (Samples.json "{'assistantSummary':'ok','recipes':[]}"))
    by reflexivity.
  assert (Hc1 : wholeText Samples.proseReply = None) by reflexivity.
  assert (Hc2 : fencedBlock Samples.proseReply = None) by reflexivity.
  assert (Hc3 : braceSlice Samples.proseReply = Some (Samples.json "{'a':[1,2]}"))
    by reflexivity.
  assert (Hd1 : wholeText "no braces here" = None) by reflexivity.
  assert (Hd2 : fencedBlock "no braces here" = None) by reflexivity.
  assert (Hd3 : braceSlice "no braces here" = None) by reflexivity.
  split; [split; [exact Ha|]|split; [|split]].
  - exact (proj1 (extractJsonFromText_cascade _) _ Ha).
  - split; [exact Hb1|]. split; [exact Hb2|].
    exact (proj1 (proj2 (extractJsonFromText_cascade _)) _ Hb1 Hb2).
  - split; [exact Hc1|]. split; [exact Hc2|]. split; [exact Hc3|].
    exact (proj1 (proj2 (proj2 (extractJsonFromText_cascade _))) _ Hc1 Hc2 Hc3).
  - split; [exact Hd1|]. split; [exact Hd2|]. split; [exact Hd3|].
    exact (proj1 (proj2 (proj2 (proj2 (extractJsonFromText_cascade _)))) Hd1 Hd2 Hd3).
Defined.

(** C4, as stated, fails: in this reply the text from the first [{] to
    the last [}] parses, so strategy (c) would succeed, but the fenced
    block before it is not JSON and the call ends in a [SyntaxError]. *)
Lemma extractJsonFromText_fails_on_broken_fence :
  braceSlice Samples.brokenFenceReply = Some (Samples.json "{'a':1}")
  /\ JSON_parse (Samples.json "{'a':1}") = Ok (Obj [("a", Num (Finite 1))])
  /\ someStrategyParses Samples.brokenFenceReply
  /\ fencedBlock Samples.brokenFenceReply = Some "not json"
  /\ extractJsonFromText Samples.brokenFenceReply = Throw SyntaxError.
Proof.
  split; [reflexivity|]. split; [reflexivity|]. split; [|split; reflexivity].
  right. right. exists (Samples.json "{'a':1}"), (Obj [("a", Num (Finite 1))]).
  split; reflexivity.
Qed.

(** *** The orchestrator *)

Lemma arraySlice0_nonempty {A} (xs : list A) (k : Q) :
  xs <> [] -> (1 <= k)%Q -> JS.arraySlice0 xs k <> [].
Proof.
  intros Hxs Hk. unfold JS.arraySlice0.
  assert (Hquot : (1 <= Qnum k ÷ Z.pos (Qden k))%Z).
  { apply Z.quot_le_lower_bound; [lia|].
    unfold Qle in Hk. simpl in Hk. lia. }
  destruct (Qnum k ÷ Z.pos (Qden k) <? 0)%Z eqn:Hneg.
  - apply Z.ltb_lt in Hneg. lia.
  - destruct xs as [|x xs]; [contradiction|].
    destruct (Z.to_nat (Qnum k ÷ Z.pos (Qden k))) eqn:Hn; [lia|].
    simpl. discriminate.
Qed.

(** The count that bounds the slice is a number from 1 to 6, unless the
    requested count is [NaN], which goes through both clamps. *)
Lemma clamped_count count :
  match Math_max (Finite 1) (Math_min (Finite 6) count) with
  | Finite limit => count <> NaN /\ (1 <= limit <= 6)%Q
  | NaN => count = NaN
  | _ => False
  end.
Proof.
  destruct count as [q| | |]; cbn [Math_max Math_min].
  - split; [discriminate|]. split; [apply Q.le_max_l|].
    apply Q.max_lub; [lra | apply Q.le_min_l].
  - split; [discriminate|]. split; [apply Q.le_max_l|].
    apply Q.max_lub; lra.
  - split; [discriminate|]. lra.
  - reflexivity.
Qed.

Lemma finishGeneration_slice input uuids payload result :
  finishGeneration input uuids payload = Ok result ->
  exists normalized,
    normalized <> []
    /\ recipes result
       = slice0 normalized
                (Math_max (Finite 1) (Math_min (Finite 6) (recipeCount input))).
Proof.
  unfold finishGeneration.
  destruct (get payload "recipes") as [rawRecipes|e]; [|discriminate].
  cbn [bind].
  destruct (match rawRecipes with
            | Arr items => normalizeAll items 0 uuids
            | _ => Ok []
            end) as [normalized|e]; [|discriminate].
  cbn [bind].
  destruct (List.length normalized =? 0)%nat eqn:Hlen; [discriminate|].
  intros Hok. injection Hok as <-. cbn [recipes].
  exists normalized. split; [|reflexivity].
  destruct normalized; [discriminate Hlen | discriminate].
Qed.

Lemma finishGeneration_nonempty input uuids payload result :
  recipeCount input <> NaN ->
  finishGeneration input uuids payload = Ok result ->
  recipes result <> [].
Proof.
  intros Hcount Hok.
  destruct (finishGeneration_slice _ _ _ _ Hok) as [normalized [Hsome ->]].
  pose proof (clamped_count (recipeCount input)) as Hclamp.
  destruct (Math_max (Finite 1) (Math_min (Finite 6) (recipeCount input)))
    as [limit| | |]; try contradiction.
  cbn [slice0]. apply arraySlice0_nonempty; [exact Hsome | apply Hclamp].
Qed.

(** A count of [NaN] empties the list after the check for an empty list
    has passed. *)
Lemma finishGeneration_NaN input uuids payload result :
  recipeCount input = NaN ->
  finishGeneration input uuids payload = Ok result ->
  recipes result = [].
Proof.
  intros Hcount Hok.
  destruct (finishGeneration_slice _ _ _ _ Hok) as [normalized [_ ->]].
  now rewrite Hcount.
Qed.

(** Whenever the payload that was extracted has a recipes array
    normalising to zero recipes (or no such array), the call fails with
    [Model returned no usable recipes.] *)
Lemma generateRecipesWithLlm_no_usable fetch uuids input payload :
  requestPayload fetch = Ok payload ->
  isNullish payload = false ->
  normalizesToNone uuids payload ->
  generateRecipesWithLlm fetch uuids input = Throw noUsableRecipes.
Proof.
  unfold generateRecipesWithLlm. intros -> Hobj Hnone. cbn [bind].
  unfold finishGeneration. rewrite (get_getOpt _ _ Hobj). cbn [bind].
  unfold normalizesToNone in Hnone.
  destruct (getOpt payload "recipes"); try reflexivity.
  rewrite Hnone. reflexivity.
Qed.

(** With a count other than [NaN], a successful call returns at least
    one recipe. *)
Lemma generateRecipesWithLlm_some fetch uuids input result :
  recipeCount input <> NaN ->
  generateRecipesWithLlm fetch uuids input = Ok result ->
  recipes result <> [].
Proof.
  unfold generateRecipesWithLlm. intros Hcount.
  destruct (requestPayload fetch) as [payload|e]; [|discriminate].
  cbn [bind]. now apply finishGeneration_nonempty.
Qed.


(** *** Runs taken from the repository's tests and scenarios *)

(** The first match of the fence pattern captures nothing, so the block
    after it is not looked at, and the text has no braces. *)
Example extractJsonFromText_empty_first_block :
  fencedBlock Samples.emptyFirstBlock = None
  /\ extractJsonFromText Samples.emptyFirstBlock = Throw noJson.
Proof. split; reflexivity. Qed.

Example extractJsonFromText_fenced :
  extractJsonFromText
    ("prefix ```json" ++ Samples.newline ++ Samples.json "{'a':1}"
     ++ Samples.newline ++ "``` suffix")%string
  = Ok (Obj [("a", Num (Finite 1))])
  /\ extractJsonFromText (Samples.json "{'a':1}") = Ok (Obj [("a", Num (Finite 1))])
  /\ extractJsonFromText "no braces at all" = Throw noJson.
Proof. repeat split; reflexivity. Qed.

Example normalizeRecipe_incomplete :
  match normalizeRecipe
          (Obj [("title", Str " Test Dish ");
                ("ingredients",
                 Arr [Obj [("name", Str "Water"); ("quantity", Num (Finite 600));
                           ("unit", Str "ml")]]);
                ("steps", Arr [Obj [("text", Str "Boil gently")]])])
          0 "0b7d" with
  | Ok recipe =>
      title recipe = "Test Dish"
      /\ map unit (ingredients recipe) = ["ml"]
      /\ map text (steps recipe) = ["Boil gently"]
      /\ source recipe = Some "llm"
  | Throw _ => False
  end.
Proof. cbn. repeat split; reflexivity. Qed.

(** [null] is the one kind of raw value on which the normaliser throws. *)
Example normalizeRecipe_null :
  normalizeRecipe Null 0 "0b7d" = Throw TypeError.
Proof. reflexivity. Qed.

(* ----------------------------------------------------------------- *)
(** *** What else the normaliser guarantees *)

Lemma gt_zero x : JS.gt x 0 = true -> (0 < x)%Q.
Proof.
  unfold JS.gt. intros Hgt. apply negb_true_iff in Hgt.
  destruct (Qlt_le_dec 0 x) as [Hlt|Hle]; [exact Hlt|].
  apply Qle_bool_iff in Hle. congruence.
Qed.

Lemma normalizeIngredient_floors raw ingredient :
  normalizeIngredient raw = Some ingredient ->
  JS.nonEmpty (name ingredient) = true /\ (0 <= quantity ingredient)%Q.
Proof.
  unfold normalizeIngredient.
  destruct (negb (truthy raw) || negb (isObjectType raw)); [discriminate|].
  destruct (negb (JS.nonEmpty (normalizeString (getOpt raw "name") "")))
    eqn:Hname; [discriminate|].
  intros Hsome. injection Hsome as <-. cbn [name quantity]. split.
  - now apply negb_false_iff in Hname.
  - apply Q.le_max_l.
Qed.

Lemma normalizeStep_floors raw step :
  normalizeStep raw = Some step ->
  JS.nonEmpty (text step) = true
  /\ (forall minutes, timerMinutes step = Some minutes -> (0 < minutes)%Q)
  /\ (forall degrees, temperatureC step = Some degrees -> (0 < degrees)%Q).
Proof.
  unfold normalizeStep.
  destruct (negb (truthy raw) || negb (isObjectType raw)); [discriminate|].
  destruct (negb (JS.nonEmpty (normalizeString (getOpt raw "text") "")))
    eqn:Htext; [discriminate|].
  intros Hsome. injection Hsome as <-. cbn [text timerMinutes temperatureC].
  split; [now apply negb_false_iff in Htext|]. split.
  - intros minutes. destruct (JS.gt _ 0) eqn:Hgt; [|discriminate].
    intros Hsome. injection Hsome as <-. now apply gt_zero.
  - intros degrees. destruct (JS.gt _ 0) eqn:Hgt; [|discriminate].
    intros Hsome. injection Hsome as <-. now apply gt_zero.
Qed.

Lemma normalizeStrings_nonEmpty items :
  Forall (fun s => JS.nonEmpty s = true) (normalizeStrings items).
Proof.
  unfold normalizeStrings. apply Forall_forall. intros s Hs.
  now apply filter_In in Hs.
Qed.

(** X15: besides the enum values, a normalised recipe has a cooking time
    of at least 5 and at least 1 serving, ingredients with a name and a
    quantity that is not negative, steps with a text and with timers and
    temperatures that are positive when present, and no empty swap
    suggestion or tip; its identifier is the fresh one and its source is
    [llm], whatever the raw object says. *)
Theorem normalizeRecipe_floors rawRecipe index uuid :
  isNullish rawRecipe = false ->
  exists recipe,
    normalizeRecipe rawRecipe index uuid = Ok recipe
    /\ RecipeFloors recipe
    /\ id recipe = ("llm-" ++ uuid)%string
    /\ source recipe = Some "llm".
Proof.
  intros Hobj. unfold normalizeRecipe.
  rewrite (get_getOpt _ _ Hobj). cbn [bind].
  eexists. split; [reflexivity|]. split; [|split; reflexivity].
  unfold RecipeFloors.
  cbn [cookTimeMinutes servings ingredients steps swapSuggestions tips].
  split; [apply Q.le_max_l|]. split; [apply Q.le_max_l|]. split; [|split; [|split]].
  - destruct (0 <? _)%nat.
    + destruct (getOpt rawRecipe "ingredients"); try constructor.
      apply filterMap_Forall. exact normalizeIngredient_floors.
    + constructor; [|constructor]. split; [reflexivity | discriminate].
  - destruct (0 <? _)%nat.
    + destruct (getOpt rawRecipe "steps"); try constructor.
      apply filterMap_Forall. exact normalizeStep_floors.
    + repeat constructor; cbn; try discriminate.
  - destruct (getOpt rawRecipe "swapSuggestions"); try constructor.
    apply normalizeStrings_nonEmpty.
  - destruct (getOpt rawRecipe "tips"); try constructor.
    apply normalizeStrings_nonEmpty.
Qed.

Lemma normalizeRecipe_floors_witness :
  isNullish Samples.garbledRecipe = false
  /\ exists recipe,
       normalizeRecipe Samples.garbledRecipe 1 "7d10" = Ok recipe
       /\ RecipeFloors recipe
       /\ id recipe = "llm-7d10"
       /\ source recipe = Some "llm".
Proof.
  assert (Hobj : isNullish Samples.garbledRecipe = false) by reflexivity.
  split; [exact Hobj|].
  exact (normalizeRecipe_floors Samples.garbledRecipe 1 "7d10" Hobj).
Defined.

(* ----------------------------------------------------------------- *)
(** *** The batch of a generation *)

Lemma normalizeRecipe_runs rawRecipe index uuid :
  isNullish rawRecipe = false ->
  exists recipe,
    normalizeRecipe rawRecipe index uuid = Ok recipe
    /\ RecipeInvariants recipe
    /\ source recipe = Some "llm".
Proof.
  intros Hobj. unfold normalizeRecipe.
  rewrite (get_getOpt _ _ Hobj). cbn [bind].
  eexists. split; [reflexivity|]. split; [|reflexivity].
  unfold RecipeInvariants.
  cbn [ingredients steps difficulty dietaryTags allergens equipment].
  repeat split.
  - apply nonEmpty_or_default. discriminate.
  - apply nonEmpty_or_default. discriminate.
  - destruct (0 <? _)%nat.
    + destruct (getOpt rawRecipe "ingredients"); try constructor.
      apply filterMap_Forall. exact normalizeIngredient_unit.
    + constructor; [|constructor]. now apply EngineFacts.includesStr_In.
  - apply chosen_difficulty_allowed.
  - destruct (getOpt rawRecipe "dietaryTags"); try constructor.
    apply keepAllowed_allowed.
  - destruct (getOpt rawRecipe "allergens"); try constructor.
    apply keepAllowed_allowed.
  - destruct (getOpt rawRecipe "equipment");
      try (constructor; [now apply EngineFacts.includesStr_In | constructor]).
    apply keepAllowed_allowed.
Qed.

Lemma normalizeRecipe_nullish rawRecipe index uuid :
  isNullish rawRecipe = true ->
  normalizeRecipe rawRecipe index uuid = Throw TypeError.
Proof. destruct rawRecipe; try discriminate; reflexivity. Qed.

Lemma normalizeAll_runs uuids items : forall index,
  Forall (fun item => isNullish item = false) items ->
  exists batch,
    normalizeAll items index uuids = Ok batch
    /\ List.length batch = List.length items
    /\ Forall (fun recipe => RecipeInvariants recipe /\ source recipe = Some "llm")
              batch.
Proof.
  induction items as [|item items IH]; intros index Hall.
  - exists []. repeat split. constructor.
  - inversion Hall as [|? ? Hitem Hitems]; subst.
    destruct (normalizeRecipe_runs item index (uuids index) Hitem)
      as [recipe [Hrun Hvalid]].
    destruct (IH (S index) Hitems) as [batch [Hbatch [Hlen Hvalids]]].
    exists (recipe :: batch). simpl. rewrite Hrun. cbn [bind]. rewrite Hbatch.
    cbn [bind]. split; [reflexivity|]. split; [simpl; now rewrite Hlen|].
    now constructor.
Qed.

Lemma normalizeAll_null uuids items : forall index,
  Exists (fun item => isNullish item = true) items ->
  normalizeAll items index uuids = Throw TypeError.
Proof.
  induction items as [|item items IH]; intros index Hex;
    [inversion Hex|].
  simpl. destruct (isNullish item) eqn:Hitem.
  - now rewrite (normalizeRecipe_nullish item index (uuids index) Hitem).
  - destruct (normalizeRecipe_runs item index (uuids index) Hitem)
      as [recipe [Hrun _]].
    rewrite Hrun. cbn [bind].
    inversion Hex as [? ? Hhead|? ? Htail]; subst; [congruence|].
    now rewrite (IH (S index) Htail).
Qed.

Lemma nullish_dec items :
  Forall (fun item => isNullish item = false) items
  \/ Exists (fun item => isNullish item = true) items.
Proof.
  induction items as [|item items [Hall|Hex]].
  - left. constructor.
  - destruct (isNullish item) eqn:Hitem.
    + right. now constructor.
    + left. now constructor.
  - right. now constructor 2.
Qed.

(** X16: one [null] among the recipes of a reply aborts the whole
    generation: if the payload that was extracted is [null], or its
    recipes array holds a [null] entry, the call fails with a [TypeError],
    however many usable recipes the array holds besides. *)
Theorem generateRecipesWithLlm_null_entry fetch uuids input payload :
  requestPayload fetch = Ok payload ->
  payload = Null
  \/ (exists items,
        getOpt payload "recipes" = Arr items
        /\ Exists (fun item => isNullish item = true) items) ->
  generateRecipesWithLlm fetch uuids input = Throw TypeError.
Proof.
  intros Hpayload Hnull. unfold generateRecipesWithLlm. rewrite Hpayload.
  cbn [bind]. unfold finishGeneration.
  destruct Hnull as [->|[items [Hitems Hex]]]; [reflexivity|].
  assert (Hobj : isNullish payload = false)
    by (destruct payload; try reflexivity; discriminate Hitems).
  rewrite (get_getOpt _ _ Hobj), Hitems. cbn [bind].
  now rewrite (normalizeAll_null uuids items 0 Hex).
Qed.

Lemma arraySlice0_length {A} (xs : list A) (k : Q) :
  (1 <= k)%Q ->
  (List.length (JS.arraySlice0 xs k) <= List.length xs)%nat
  /\ (JS.ofNat (List.length (JS.arraySlice0 xs k)) <= k)%Q.
Proof.
  intros Hk. unfold JS.arraySlice0.
  assert (Hnum : (Z.pos (Qden k) <= Qnum k)%Z)
    by (unfold Qle in Hk; simpl in Hk; lia).
  assert (Hquot : (1 <= Qnum k ÷ Z.pos (Qden k))%Z)
    by (apply Z.quot_le_lower_bound; lia).
  assert (Hback : (Z.pos (Qden k) * (Qnum k ÷ Z.pos (Qden k)) <= Qnum k)%Z)
    by (apply Z.mul_quot_le; lia).
  destruct (Qnum k ÷ Z.pos (Qden k) <? 0)%Z eqn:Hneg;
    [apply Z.ltb_lt in Hneg; lia|].
  rewrite length_firstn. split; [lia|].
  unfold JS.ofNat, Qle. simpl. nia.
Qed.

(** X17: a successful generation never returns more than six recipes,
    and every one of them satisfies the invariants of a normalised recipe
    and has the source [llm].  When the requested count is a number other
    than [NaN], it returns at least one recipe and never more than the
    count clamped to the range from 1 to 6; when the count is [NaN], it
    returns none. *)
Theorem generateRecipesWithLlm_batch fetch uuids input result :
  generateRecipesWithLlm fetch uuids input = Ok result ->
  (List.length (recipes result) <= 6)%nat
  /\ Forall (fun recipe => RecipeInvariants recipe /\ source recipe = Some "llm")
            (recipes result)
  /\ (recipeCount input <> NaN ->
      exists limit,
        Math_max (Finite 1) (Math_min (Finite 6) (recipeCount input)) = Finite limit
        /\ (1 <= List.length (recipes result))%nat
        /\ (JS.ofNat (List.length (recipes result)) <= limit)%Q)
  /\ (recipeCount input = NaN -> recipes result = []).
Proof.
  unfold generateRecipesWithLlm.
  destruct (requestPayload fetch) as [payload|e]; [|discriminate].
  cbn [bind]. intros Hok.
  pose proof (clamped_count (recipeCount input)) as Hclamp.
  unfold finishGeneration in Hok.
  set (count := Math_max (Finite 1) (Math_min (Finite 6) (recipeCount input))) in *.
  destruct (get payload "recipes") as [rawRecipes|e]; [|discriminate].
  cbn [bind] in Hok.
  assert (Hbatch : forall normalized,
             match rawRecipes with
             | Arr items => normalizeAll items 0 uuids
             | _ => Ok []
             end = Ok normalized ->
             Forall (fun recipe => RecipeInvariants recipe
                                   /\ source recipe = Some "llm") normalized).
  { intros normalized Hrun. destruct rawRecipes;
      try (injection Hrun as <-; constructor).
    destruct (nullish_dec items) as [Hall|Hex].
    - destruct (normalizeAll_runs uuids items 0 Hall) as [batch [Hb [_ Hvalid]]].
      rewrite Hb in Hrun. now injection Hrun as <-.
    - rewrite (normalizeAll_null uuids items 0 Hex) in Hrun. discriminate. }
  destruct (match rawRecipes with
            | Arr items => normalizeAll items 0 uuids
            | _ => Ok []
            end) as [normalized|e]; [|discriminate].
  specialize (Hbatch normalized eq_refl). cbn [bind] in Hok.
  destruct (List.length normalized =? 0)%nat eqn:Hlen; [discriminate|].
  assert (Hsome : normalized <> [])
    by (destruct normalized; [discriminate Hlen | discriminate]).
  injection Hok as <-. cbn [recipes] in *.
  destruct count as [limit| | |]; try contradiction; cbn [slice0] in *.
  - destruct Hclamp as [Hcount [Hone Hsix]].
    destruct (arraySlice0_length normalized limit Hone) as [_ Hlimit].
    assert (Hle : (JS.ofNat (List.length (JS.arraySlice0 normalized limit))
                   <= inject_Z 6)%Q) by (unfold inject_Z; lra).
    unfold JS.ofNat in Hle. rewrite <- Zle_Qle in Hle.
    split; [lia|]. split; [|split].
    + apply Forall_forall. intros recipe Hin.
      rewrite Forall_forall in Hbatch. apply Hbatch.
      unfold JS.arraySlice0 in Hin.
      destruct (_ <? 0)%Z; now apply EngineFacts.In_firstn in Hin.
    + intros _. exists limit. split; [reflexivity|]. split; [|exact Hlimit].
      pose proof (arraySlice0_nonempty normalized limit Hsome Hone) as Hkept.
      destruct (JS.arraySlice0 normalized limit); [contradiction | simpl; lia].
    + intros Hnot. contradiction.
  - split; [simpl; lia|]. split; [constructor|]. split.
    + intros Hnot. contradiction.
    + reflexivity.
Qed.

Lemma generateRecipesWithLlm_batch_witness :
  (exists result,
      generateRecipesWithLlm (fun _ => Ok Samples.lentilReply)
                             Samples.uuids Samples.request = Ok result
      /\ (List.length (recipes result) <= 6)%nat
      /\ Forall (fun recipe => RecipeInvariants recipe /\ source recipe = Some "llm")
                (recipes result)
      /\ (1 <= List.length (recipes result))%nat)
  /\ (exists result,
        generateRecipesWithLlm (fun _ => Ok Samples.lentilReply)
                               Samples.uuids Samples.nanRequest = Ok result
        /\ recipes result = []).
Proof.
  split.
  - eexists. split; [vm_compute; reflexivity|].
    destruct (generateRecipesWithLlm_batch
                (fun _ => Ok Samples.lentilReply) Samples.uuids Samples.request _
                ltac:(vm_compute; reflexivity))
      as [Hsix [Hvalid [Hcount _]]].
    split; [exact Hsix|]. split; [exact Hvalid|].
    destruct (Hcount ltac:(discriminate)) as [limit [_ [Hone _]]]. exact Hone.
  - eexists. split; [vm_compute; reflexivity|].
    destruct (generateRecipesWithLlm_batch
                (fun _ => Ok Samples.lentilReply) Samples.uuids Samples.nanRequest _
                ltac:(vm_compute; reflexivity))
      as [_ [_ [_ Hnan]]].
    exact (Hnan eq_refl).
Defined.

Lemma generateRecipesWithLlm_null_entry_witness :
  requestPayload (fun _ => Ok Samples.nullEntryReply)
  = Ok (Obj [("assistantSummary", Str "Two ideas.");
             ("recipes", Arr [Obj [("title", Str "Dal")]; Null])])
  /\ generateRecipesWithLlm (fun _ => Ok Samples.nullEntryReply)
                            Samples.uuids Samples.request
     = Throw TypeError.
Proof.
  assert (Hpayload : requestPayload (fun _ => Ok Samples.nullEntryReply)
                     = Ok (Obj [("assistantSummary", Str "Two ideas.");
                                ("recipes", Arr [Obj [("title", Str "Dal")]; Null])]))
    by (vm_compute; reflexivity).
  split; [exact Hpayload|].
  refine (generateRecipesWithLlm_null_entry _ Samples.uuids Samples.request _
            Hpayload _).
  right. exists [Obj [("title", Str "Dal")]; Null]. split; [reflexivity|].
  constructor 2. now constructor.
Defined.

(* ----------------------------------------------------------------- *)
(** *** Reading the reply *)

Lemma hasInk_app a b : hasInk (a ++ b)%string = hasInk a || hasInk b.
Proof.
  induction a as [|c a IH]; simpl; [reflexivity|].
  now rewrite IH, orb_assoc.
Qed.

Lemma allSpace_no_ink s : allSpace s = true -> hasInk s = false.
Proof.
  induction s as [|c s IH]; simpl; [reflexivity|]. intros Hall.
  apply andb_true_iff in Hall. destruct Hall as [-> Hs]. now apply IH.
Qed.

Lemma hasInk_trim s : hasInk (JS.trim s) = hasInk s.
Proof.
  destruct (EngineFacts.trim_strips s) as [lead [trail [Hs [Hlead Htrail]]]].
  rewrite Hs at 2. rewrite !hasInk_app.
  rewrite (allSpace_no_ink lead Hlead), (allSpace_no_ink trail Htrail).
  now rewrite orb_false_r.
Qed.

Lemma startsWithInk_nonEmpty s : startsWithInk s -> JS.nonEmpty s = hasInk s.
Proof.
  destruct s as [|c s]; simpl; [reflexivity|]. now intros ->.
Qed.

(** A text has something left after trimming exactly when it has a
    character that is not white space. *)
Lemma trim_nonEmpty s : JS.nonEmpty (JS.trim s) = hasInk s.
Proof.
  rewrite <- hasInk_trim. apply startsWithInk_nonEmpty.
  unfold JS.trim. apply EngineFacts.headInk_trimEnd, EngineFacts.trimStart_headInk.
Qed.

Lemma concat_ink sep chunks :
  Exists (fun chunk => hasInk chunk = true) chunks ->
  hasInk (String.concat sep chunks) = true.
Proof.
  induction chunks as [|chunk chunks IH]; intros Hex; [inversion Hex|].
  destruct chunks as [|next chunks].
  - inversion Hex as [? ? Hhead|? ? Htail]; subst; [exact Hhead | inversion Htail].
  - change (String.concat sep (chunk :: next :: chunks))
      with (chunk ++ sep ++ String.concat sep (next :: chunks))%string.
    rewrite !hasInk_app.
    inversion Hex as [? ? Hhead|? ? Htail]; subst.
    + now rewrite Hhead.
    + rewrite (IH Htail). now rewrite !orb_true_r.
Qed.

Lemma text_chunk_ink entries chunk :
  In chunk
     (filter JS.nonEmpty
        (map (fun entry =>
                if truthy entry && isObjectType entry
                then normalizeString (getOpt entry "text") ""
                else "")
             entries)) ->
  hasInk chunk = true.
Proof.
  intros Hin. apply filter_In in Hin. destruct Hin as [Hin Hne].
  apply in_map_iff in Hin. destruct Hin as [entry [Hentry _]].
  destruct (truthy entry && isObjectType entry);
    [|subst chunk; discriminate Hne].
  destruct (getOpt entry "text") as [| | | |t| |];
    try (subst chunk; discriminate Hne).
  cbn [normalizeString] in Hentry. subst chunk.
  rewrite trim_nonEmpty in Hne. now rewrite hasInk_trim.
Qed.

Lemma joined_chunks_not_blank chunks content :
  (if (0 <? List.length chunks)%nat
   then Ok (String.concat (String (ascii_of_nat 10) EmptyString) chunks)
   else Throw (Error "No model message content found.")) = Ok content ->
  (forall chunk, In chunk chunks -> hasInk chunk = true) ->
  JS.nonEmpty (JS.trim content) = true.
Proof.
  destruct (0 <? List.length chunks)%nat eqn:Hlen; [|discriminate].
  intros Hok Hink. injection Hok as <-.
  rewrite trim_nonEmpty. apply concat_ink.
  destruct chunks as [|chunk rest]; [discriminate Hlen|].
  constructor. apply Hink. now left.
Qed.

(** X18: the content read from a response is never blank: whenever
    [readContentFromResponse] returns a text, whether from [output_text],
    from a string content or from the parts of a list content, that text
    has a character that is not white space. *)
Theorem readContentFromResponse_not_blank responseJson content :
  readContentFromResponse responseJson = Ok content ->
  JS.nonEmpty (JS.trim content) = true.
Proof.
  unfold readContentFromResponse.
  destruct (negb (truthy responseJson) || negb (isObjectType responseJson));
    [discriminate|].
  assert (Hmessage :
            forall messageContent,
              match messageContent with
              | Str s =>
                  if JS.nonEmpty (JS.trim s) then Ok s
                  else Throw (Error "No model message content found.")
              | Arr entries =>
                  let textChunks :=
                    filter JS.nonEmpty
                      (map (fun entry =>
                              if truthy entry && isObjectType entry
                              then normalizeString (getOpt entry "text") ""
                              else "")
                           entries) in
                  if (0 <? List.length textChunks)%nat
                  then Ok (String.concat (String (ascii_of_nat 10) EmptyString)
                                         textChunks)
                  else Throw (Error "No model message content found.")
              | _ => Throw (Error "No model message content found.")
              end = Ok content ->
              JS.nonEmpty (JS.trim content) = true).
  { intros [| | | |s|entries|]; try discriminate.
    - destruct (JS.nonEmpty (JS.trim s)) eqn:Hs; [|discriminate].
      intros Hok. injection Hok as <-. exact Hs.
    - cbv zeta. intros Hok.
      apply (joined_chunks_not_blank _ _ Hok). apply text_chunk_ink. }
  destruct (getOpt responseJson "output_text") as [| | | |out| |];
    try apply Hmessage.
  destruct (JS.nonEmpty (JS.trim out)) eqn:Hout; [|apply Hmessage].
  intros Hok. injection Hok as <-. exact Hout.
Qed.

Lemma readContentFromResponse_not_blank_witness :
  readContentFromResponse Samples.partsReply
  = Ok ("first part" ++ Samples.newline ++ "second part")%string
  /\ JS.nonEmpty (JS.trim ("first part" ++ Samples.newline ++ "second part")%string)
     = true.
Proof.
  assert (Hread : readContentFromResponse Samples.partsReply
                  = Ok ("first part" ++ Samples.newline ++ "second part")%string)
    by reflexivity.
  split; [exact Hread|].
  exact (readContentFromResponse_not_blank _ _ Hread).
Defined.

End LlmFacts.
(* ================================================================= *)
(** ** Properties of the helpers of the application shell *)

Module AppFacts.
Import Engine App Notions.

(** *** [toggleListValue] *)

Lemma includesStr_app xs ys x :
  includesStr (xs ++ ys) x = includesStr xs x || includesStr ys x.
Proof. unfold includesStr. apply existsb_app. Qed.

Lemma includesStr_without xs value other :
  includesStr (filter (fun item => negb (String.eqb item value)) xs) other
  = includesStr xs other && negb (String.eqb other value).
Proof.
  apply eq_iff_eq_true.
  rewrite andb_true_iff, negb_true_iff, String.eqb_neq.
  rewrite !EngineFacts.includesStr_In, filter_In, negb_true_iff, String.eqb_neq.
  tauto.
Qed.

Lemma toggle_member values value :
  includesStr (toggleListValue values value) value
  = negb (includesStr values value).
Proof.
  unfold toggleListValue. destruct (includesStr values value) eqn:Hin.
  - rewrite includesStr_without, String.eqb_refl. now rewrite andb_false_r.
  - rewrite includesStr_app, Hin. unfold includesStr. simpl.
    now rewrite String.eqb_refl.
Qed.

Lemma toggle_others values value other :
  other <> value ->
  includesStr (toggleListValue values value) other = includesStr values other.
Proof.
  intros Hother. apply String.eqb_neq in Hother.
  unfold toggleListValue. destruct (includesStr values value).
  - rewrite includesStr_without, Hother. now rewrite andb_true_r.
  - rewrite includesStr_app. unfold includesStr at 2. simpl.
    rewrite Hother. now rewrite !orb_false_r.
Qed.

Lemma filter_absent values value :
  includesStr values value = false ->
  filter (fun item => negb (String.eqb item value)) values = values.
Proof.
  unfold includesStr. induction values as [|x xs IH]; simpl; [reflexivity|].
  intros Hout. apply orb_false_iff in Hout. destruct Hout as [Hx Hxs].
  rewrite String.eqb_sym, Hx. simpl. now rewrite IH.
Qed.

(** X20: ticking a box flips the membership of its value and of no
    other; a list without repetition stays so, ticking a value that was
    absent and ticking it again gives the list back, and after two ticks
    the members are the same in any case. *)
Theorem toggleListValue_flips values value :
  includesStr (toggleListValue values value) value
  = negb (includesStr values value)
  /\ (forall other,
         other <> value ->
         includesStr (toggleListValue values value) other
         = includesStr values other)
  /\ (NoDup values -> NoDup (toggleListValue values value))
  /\ (includesStr values value = false ->
      toggleListValue (toggleListValue values value) value = values)
  /\ (forall any,
         includesStr (toggleListValue (toggleListValue values value) value) any
         = includesStr values any).
Proof.
  split; [apply toggle_member|].
  split; [apply toggle_others|].
  split; [|split].
  - intros Hnd. unfold toggleListValue.
    destruct (includesStr values value) eqn:Hin.
    + now apply NoDup_filter.
    + apply EngineFacts.includesStr_false in Hin.
      apply NoDup_app; [exact Hnd | repeat constructor; tauto |].
      intros y Hy [<-|[]]. now apply Hin.
  - intros Hout. unfold toggleListValue at 1.
    rewrite toggle_member, Hout. simpl.
    unfold toggleListValue. rewrite Hout.
    rewrite filter_app. simpl. rewrite String.eqb_refl. simpl.
    rewrite app_nil_r. now apply filter_absent.
  - intros any. destruct (String.eqb_spec any value) as [->|Hany].
    + rewrite !toggle_member. now rewrite negb_involutive.
    + now rewrite !toggle_others.
Qed.

(* ----------------------------------------------------------------- *)
(** *** [ensureUniqueRecipes] *)

Lemma mapSet_keys entries key value :
  map fst (mapSet entries key value) = setAdd (map fst entries) key.
Proof.
  unfold setAdd, includesStr.
  induction entries as [|[k v] rest IH]; simpl; [reflexivity|].
  rewrite (String.eqb_sym key k).
  destruct (String.eqb k key); simpl; [reflexivity|].
  rewrite IH. now destruct (existsb (String.eqb key) (map fst rest)).
Qed.

Lemma mapSet_entries entries key value k v :
  NoDup (map fst entries) ->
  In (k, v) (mapSet entries key value) ->
  (k = key /\ v = value) \/ (k <> key /\ In (k, v) entries).
Proof.
  induction entries as [|[k0 v0] rest IH]; simpl; intros Hnd Hin.
  - destruct Hin as [Heq|[]]. injection Heq as <- <-. now left.
  - inversion Hnd as [|? ? Hfresh Hrest]; subst.
    destruct (String.eqb_spec k0 key) as [->|Hk0].
    + destruct Hin as [Heq|Hin].
      * injection Heq as <- <-. now left.
      * right. split; [|now right]. intros ->. apply Hfresh.
        apply in_map_iff. now exists (key, v).
    + destruct Hin as [Heq|Hin].
      * injection Heq as <- <-. right. split; [assumption | now left].
      * destruct (IH Hrest Hin) as [Hnew|[Hne Hold]]; [now left|].
        right. split; [assumption | now right].
Qed.

Lemma mapSet_fresh entries key value :
  ~ In key (map fst entries) ->
  mapSet entries key value = entries ++ [(key, value)].
Proof.
  induction entries as [|[k v] rest IH]; simpl; intros Hfresh; [reflexivity|].
  destruct (String.eqb_spec k key) as [->|Hk]; [tauto|].
  rewrite IH; [reflexivity | tauto].
Qed.

Lemma newSet_snoc xs x : newSet (xs ++ [x]) = setAdd (newSet xs) x.
Proof. unfold newSet. now rewrite fold_left_app. Qed.

Lemma lastWithId_snoc key done recipe :
  lastWithId key (done ++ [recipe])
  = if String.eqb (id recipe) key then Some recipe else lastWithId key done.
Proof. unfold lastWithId. now rewrite rev_unit. Qed.

Lemma lastWithId_some key recipes recipe :
  lastWithId key recipes = Some recipe -> id recipe = key /\ In recipe recipes.
Proof.
  unfold lastWithId. intros Hfind. apply find_some in Hfind.
  destruct Hfind as [Hin Heq]. apply String.eqb_eq in Heq.
  split; [assumption | now apply in_rev].
Qed.

(** What the loop keeps true of the map, [done] being the recipes it
    has gone through. *)
Lemma uniqueLoop_facts recipes :
  let entries :=
    fold_left (fun entries recipe => mapSet entries (id recipe) recipe)
              recipes [] in
  map fst entries = newSet (map id recipes)
  /\ Forall (fun entry => lastWithId (fst entry) recipes = Some (snd entry))
            entries.
Proof.
  induction recipes as [|recipe done IH] using rev_ind; [now split|].
  cbn zeta in *. rewrite fold_left_app. simpl.
  destruct IH as [Hkeys Hlast].
  set (entries := fold_left _ done []) in *.
  split.
  - rewrite mapSet_keys, Hkeys, map_app. simpl. now rewrite newSet_snoc.
  - apply Forall_forall. intros [k v] Hin. simpl.
    rewrite lastWithId_snoc.
    apply mapSet_entries in Hin.
    + destruct Hin as [[-> ->]|[Hne Hold]].
      * now rewrite String.eqb_refl.
      * destruct (String.eqb_spec (id recipe) k) as [Heq|_]; [congruence|].
        rewrite Forall_forall in Hlast. apply (Hlast (k, v) Hold).
    + rewrite Hkeys. apply EngineFacts.newSet_facts.
Qed.

Lemma ensureUniqueRecipes_ids recipes :
  map id (ensureUniqueRecipes recipes) = newSet (map id recipes).
Proof.
  destruct (uniqueLoop_facts recipes) as [Hkeys Hlast]. cbn zeta in *.
  unfold ensureUniqueRecipes, mapValues. rewrite <- Hkeys, map_map.
  apply map_ext_in. intros entry Hentry.
  rewrite Forall_forall in Hlast.
  now destruct (lastWithId_some _ _ _ (Hlast entry Hentry)).
Qed.

Lemma ensureUniqueRecipes_last recipes recipe :
  In recipe (ensureUniqueRecipes recipes) ->
  lastWithId (id recipe) recipes = Some recipe.
Proof.
  destruct (uniqueLoop_facts recipes) as [_ Hlast]. cbn zeta in *.
  unfold ensureUniqueRecipes, mapValues. intros Hin.
  apply in_map_iff in Hin. destruct Hin as [entry [<- Hentry]].
  rewrite Forall_forall in Hlast. specialize (Hlast entry Hentry).
  destruct (lastWithId_some _ _ _ Hlast) as [Hid _]. now rewrite Hid.
Qed.

(** Recipes with distinct identifiers go through unchanged. *)
Lemma ensureUniqueRecipes_distinct recipes :
  NoDup (map id recipes) -> ensureUniqueRecipes recipes = recipes.
Proof.
  unfold ensureUniqueRecipes, mapValues. intros Hnd.
  assert (Hloop :
            fold_left (fun entries recipe => mapSet entries (id recipe) recipe)
                      recipes []
            = map (fun recipe => (id recipe, recipe)) recipes).
  { induction recipes as [|recipe done IH] using rev_ind; [reflexivity|].
    rewrite map_app in Hnd. apply NoDup_app_remove_r in Hnd as Hdone.
    rewrite fold_left_app, (IH Hdone). simpl.
    rewrite mapSet_fresh; [now rewrite map_app|].
    rewrite map_map. simpl.
    intros Hin. apply NoDup_remove_2 in Hnd. apply Hnd.
    now rewrite app_nil_r. }
  rewrite Hloop, map_map. simpl. apply map_id.
Qed.

(** X21: [ensureUniqueRecipes] leaves one recipe per identifier.  The
    identifiers of the result are those of the argument in the order of
    their first occurrence, each once; the recipe kept for an identifier
    is the last one of the argument that carries it, so a later recipe
    takes the place of an earlier one where the earlier one stood; and
    the function is idempotent. *)
Theorem ensureUniqueRecipes_one_per_id recipes :
  let unique := ensureUniqueRecipes recipes in
  map id unique = newSet (map id recipes)
  /\ NoDup (map id unique)
  /\ (forall key, In key (map id unique) <-> In key (map id recipes))
  /\ (forall recipe,
         In recipe unique -> lastWithId (id recipe) recipes = Some recipe)
  /\ (List.length unique <= List.length recipes)%nat
  /\ ensureUniqueRecipes unique = unique.
Proof.
  cbn zeta. pose proof (ensureUniqueRecipes_ids recipes) as Hids.
  destruct (EngineFacts.newSet_facts (map id recipes)) as [Hnd Hsame].
  split; [exact Hids|].
  split; [now rewrite Hids|].
  split; [intros key; rewrite Hids; apply Hsame|].
  split; [apply ensureUniqueRecipes_last|].
  split.
  - rewrite <- (length_map id (ensureUniqueRecipes recipes)), Hids.
    rewrite <- (length_map id recipes).
    apply NoDup_incl_length; [exact Hnd|].
    intros key. apply Hsame.
  - apply ensureUniqueRecipes_distinct. now rewrite Hids.
Qed.

(** X22: a list of recipes with pairwise distinct identifiers is
    returned as it is, order included. *)
Theorem ensureUniqueRecipes_keeps_distinct recipes :
  NoDup (map id recipes) -> ensureUniqueRecipes recipes = recipes.
Proof. apply ensureUniqueRecipes_distinct. Qed.

Lemma ensureUniqueRecipes_keeps_distinct_witness :
  NoDup (map id Samples.corpus)
  /\ ensureUniqueRecipes Samples.corpus = Samples.corpus.
Proof.
  assert (Hnd : NoDup (map id Samples.corpus)).
  { simpl. repeat constructor; simpl; intuition discriminate. }
  split; [exact Hnd|].
  exact (ensureUniqueRecipes_keeps_distinct Samples.corpus Hnd).
Defined.

(* ----------------------------------------------------------------- *)
(** *** [normalizeRecipeForStorage] *)

Lemma trimmedOr_trimmed words fallback :
  trimmedText fallback -> trimmedText (trimmedOr words fallback).
Proof.
  unfold trimmedOr, trimmedText. intros Hfallback.
  destruct (JS.nonEmpty (JS.trim words)) eqn:Hne; [|exact Hfallback].
  split; [exact Hne | apply EngineFacts.trim_idempotent].
Qed.

Lemma trimmedOr_fixed words fallback :
  trimmedText words -> trimmedOr words fallback = words.
Proof.
  unfold trimmedOr, trimmedText. intros [Hne Htrim].
  rewrite Htrim, Hne. reflexivity.
Qed.

Lemma Math_max_whole a b :
  JS.Math_max (inject_Z a) (inject_Z b) = inject_Z (Z.max a b).
Proof.
  unfold JS.Math_max, Qmax, GenericMinMax.gmax, Qcompare, Z.max. simpl.
  rewrite !Z.mul_1_r. now destruct (a ?= b)%Z.
Qed.

Lemma floor_whole floor value fallback :
  wholeFrom floor
    (JS.Math_max (inject_Z floor) (JS.Math_round (numberOr value fallback))).
Proof.
  unfold JS.Math_round. rewrite Math_max_whole.
  eexists. split; [reflexivity | lia].
Qed.

Lemma floor_fixed floor value fallback :
  (0 < floor)%Z ->
  wholeFrom floor value ->
  JS.Math_max (inject_Z floor) (JS.Math_round (numberOr value fallback)) = value.
Proof.
  intros Hpos [k [-> Hk]]. unfold numberOr.
  destruct (Qeq_bool (inject_Z k) 0) eqn:Hzero.
  - apply Qeq_bool_iff in Hzero. unfold Qeq in Hzero. simpl in Hzero. lia.
  - rewrite EngineFacts.Math_round_inject, Math_max_whole. f_equal. lia.
Qed.

Lemma orDefault_filled {A} (l fallback : list A) :
  fallback <> [] ->
  (if (0 <? List.length l)%nat then l else fallback) <> [].
Proof. destruct l; simpl; intros H; [exact H | discriminate]. Qed.

Lemma orDefault_fixed {A} (l fallback : list A) :
  l <> [] -> (if (0 <? List.length l)%nat then l else fallback) = l.
Proof. destruct l; simpl; intros H; [contradiction | reflexivity]. Qed.

Lemma normalizeRecipeForStorage_makes_ready drawn recipe :
  StorageReady (normalizeRecipeForStorage drawn recipe).
Proof.
  unfold StorageReady, normalizeRecipeForStorage. simpl.
  split.
  { destruct (JS.nonEmpty (id recipe)) eqn:Hid; [exact Hid | reflexivity]. }
  split; [apply trimmedOr_trimmed; now split|].
  split; [apply trimmedOr_trimmed; now split|].
  split; [apply trimmedOr_trimmed; now split|].
  split; [apply (floor_whole 5)|].
  split; [apply (floor_whole 1)|].
  split; apply orDefault_filled; discriminate.
Qed.

Lemma normalizeRecipeForStorage_keeps_ready drawn recipe :
  StorageReady recipe -> normalizeRecipeForStorage drawn recipe = recipe.
Proof.
  destruct recipe. unfold StorageReady, normalizeRecipeForStorage. simpl.
  intros [Hid [Htitle [Hdesc [Hcuisine [Htime [Hservings [Hingr Hsteps]]]]]]].
  rewrite Hid, !trimmedOr_fixed by assumption.
  rewrite !orDefault_fixed by assumption.
  rewrite (floor_fixed 5) by (assumption || lia).
  rewrite (floor_fixed 1) by (assumption || lia).
  reflexivity.
Qed.

(** X23: a recipe normalised for storage has an identifier, a title, a
    description and a cuisine that are not empty and carry no white space
    around them, a whole cooking time of at least 5 minutes, a whole number
    of servings that is at least 1, and at least one ingredient and one
    step.  A recipe that has all this already is returned unchanged, so
    that normalising twice is normalising once, whatever identifier would
    be drawn. *)
Theorem normalizeRecipeForStorage_ready drawn recipe :
  StorageReady (normalizeRecipeForStorage drawn recipe)
  /\ (StorageReady recipe -> normalizeRecipeForStorage drawn recipe = recipe)
  /\ (forall again,
         normalizeRecipeForStorage again (normalizeRecipeForStorage drawn recipe)
         = normalizeRecipeForStorage drawn recipe).
Proof.
  split; [apply normalizeRecipeForStorage_makes_ready|].
  split; [apply normalizeRecipeForStorage_keeps_ready|].
  intros again. apply normalizeRecipeForStorage_keeps_ready.
  apply normalizeRecipeForStorage_makes_ready.
Qed.

End AppFacts.

(* ================================================================= *)
(** ** Properties of the URL form of base64 *)

Module ShareFacts.
Import Share Notions.

Lemma mapChars_length f s : String.length (JS.mapChars f s) = String.length s.
Proof. induction s as [|c s IH]; simpl; [reflexivity | now rewrite IH]. Qed.

Lemma mapChars_twice f g s :
  JS.mapChars g (JS.mapChars f s) = JS.mapChars (fun c => g (f c)) s.
Proof. induction s as [|c s IH]; simpl; [reflexivity | now rewrite IH]. Qed.

Lemma mapChars_fixed f s :
  allChars (fun c => Ascii.eqb (f c) c) s = true -> JS.mapChars f s = s.
Proof.
  induction s as [|c s IH]; simpl; [reflexivity|]. intros Hall.
  apply andb_true_iff in Hall. destruct Hall as [Hc Hs].
  apply Ascii.eqb_eq in Hc. now rewrite Hc, IH.
Qed.

Lemma allChars_weaken (p q : ascii -> bool) s :
  (forall c, p c = true -> q c = true) ->
  allChars p s = true -> allChars q s = true.
Proof.
  intros Hpq. induction s as [|c s IH]; simpl; [reflexivity|]. intros Hall.
  apply andb_true_iff in Hall. destruct Hall as [Hc Hs].
  now rewrite (Hpq c Hc), IH.
Qed.

Lemma allChars_mapChars p f s :
  allChars p (JS.mapChars f s) = allChars (fun c => p (f c)) s.
Proof. induction s as [|c s IH]; simpl; [reflexivity | now rewrite IH]. Qed.

Lemma stripPadding_all_pad pad :
  allChars (Ascii.eqb "=") pad = true -> stripPadding pad = EmptyString.
Proof.
  induction pad as [|c pad IH]; [reflexivity|].
  cbn [allChars stripPadding]. intros Hall.
  apply andb_true_iff in Hall. destruct Hall as [Hc Hpad].
  rewrite (IH Hpad). apply Ascii.eqb_eq in Hc. subst c. reflexivity.
Qed.

Lemma stripPadding_pad s pad :
  allChars (Ascii.eqb "=") pad = true ->
  stripPadding (s ++ pad)%string = stripPadding s.
Proof.
  intros Hpad. induction s as [|c s IH].
  - now apply stripPadding_all_pad.
  - change (String c s ++ pad)%string with (String c (s ++ pad)).
    cbn [stripPadding]. now rewrite IH.
Qed.

Lemma stripPadding_clean s :
  allChars (fun c => negb (Ascii.eqb c "=")) s = true -> stripPadding s = s.
Proof.
  induction s as [|c s IH]; [reflexivity|].
  cbn [allChars stripPadding]. intros Hall.
  apply andb_true_iff in Hall. destruct Hall as [Hc Hs].
  rewrite (IH Hs). apply negb_true_iff in Hc. rewrite Hc.
  now destruct s.
Qed.

Lemma repeatChar_pad pad :
  allChars (Ascii.eqb "=") pad = true ->
  repeatChar "=" (String.length pad) = pad.
Proof.
  induction pad as [|c pad IH]; [reflexivity|].
  cbn [allChars repeatChar String.length]. intros Hall.
  apply andb_true_iff in Hall. destruct Hall as [Hc Hpad].
  apply Ascii.eqb_eq in Hc. subst c. now rewrite IH.
Qed.

Lemma padding_count n p :
  (p < 4)%nat -> ((n + p) mod 4 = 0)%nat -> ((4 - n mod 4) mod 4 = p)%nat.
Proof.
  intros Hp Hsum. rewrite Nat.Div0.add_mod in Hsum.
  pose proof (Nat.mod_upper_bound n 4 ltac:(discriminate)) as Hr.
  rewrite (Nat.mod_small p 4 Hp) in Hsum.
  destruct (n mod 4)%nat as [|[|[|[|r]]]]; [| | | |lia];
    destruct p as [|[|[|[|p]]]]; try lia; try reflexivity;
    vm_compute in Hsum; discriminate.
Qed.

(** The URL form of the body of a base64 text *)
Lemma url_body body :
  allChars base64Char body = true ->
  let url := replaceChar "/" "_" (replaceChar "+" "-" body) in
  stripPadding url = url
  /\ replaceChar "_" "/" (replaceChar "-" "+" url) = body
  /\ allChars urlSafeChar url = true.
Proof.
  intros Hbody. unfold replaceChar. cbn zeta.
  rewrite !mapChars_twice. split; [|split].
  - apply stripPadding_clean. rewrite allChars_mapChars.
    revert Hbody. apply allChars_weaken. intros c. EngineFacts.each_char c.
  - apply mapChars_fixed. revert Hbody. apply allChars_weaken.
    intros c. EngineFacts.each_char c.
  - rewrite allChars_mapChars. revert Hbody. apply allChars_weaken.
    intros c. EngineFacts.each_char c.
Qed.

Lemma url_pad pad :
  allChars (Ascii.eqb "=") pad = true ->
  replaceChar "/" "_" (replaceChar "+" "-" pad) = pad.
Proof.
  intros Hpad. unfold replaceChar. rewrite mapChars_twice.
  apply mapChars_fixed. revert Hpad. apply allChars_weaken.
  intros c Hc. apply Ascii.eqb_eq in Hc. now subst c.
Qed.

(** X24: the URL form loses nothing.  When [btoa] answers with a padded
    base64 text, [toBase64Url] returns a text of letters, digits, [-] and
    [_] only, and [fromBase64Url] hands [atob] the very text that [btoa]
    produced, padding restored. *)
Theorem fromBase64Url_restores {A} (btoa : string -> string)
        (atob : string -> A) (input : string) :
  base64Text (btoa input) ->
  allChars urlSafeChar (toBase64Url btoa input) = true
  /\ fromBase64Url atob (toBase64Url btoa input) = atob (btoa input).
Proof.
  intros [body [pad [Hsplit [Hbody [Hpad [Hshort Hfour]]]]]].
  destruct (url_body body Hbody) as [Hstrip [Hback Hsafe]]. cbn zeta in *.
  assert (Hurl : toBase64Url btoa input
                 = replaceChar "/" "_" (replaceChar "+" "-" body)).
  { unfold toBase64Url. rewrite Hsplit.
    unfold replaceChar at 1 2. rewrite !EngineFacts.mapChars_app.
    fold (replaceChar "+" "-" body) (replaceChar "+" "-" pad).
    fold (replaceChar "/" "_" (replaceChar "+" "-" body))
         (replaceChar "/" "_" (replaceChar "+" "-" pad)).
    rewrite (url_pad pad Hpad), (stripPadding_pad _ pad Hpad). exact Hstrip. }
  rewrite Hurl. split; [exact Hsafe|].
  unfold fromBase64Url. cbn zeta. rewrite Hback.
  rewrite Hsplit in Hfour. rewrite EngineFacts.string_length_app in Hfour.
  rewrite (padding_count _ _ Hshort Hfour), (repeatChar_pad pad Hpad).
  now rewrite Hsplit.
Qed.

Lemma fromBase64Url_restores_witness :
  base64Text (Samples.btoa Samples.twoBytes)
  /\ toBase64Url Samples.btoa Samples.twoBytes = "-_A"
  /\ fromBase64Url (fun padded => padded)
                   (toBase64Url Samples.btoa Samples.twoBytes)
     = "+/A=".
Proof.
  assert (Htext : base64Text (Samples.btoa Samples.twoBytes)).
  { exists "+/A", "=". repeat split; vm_compute; reflexivity || lia. }
  split; [exact Htext|]. split; [reflexivity|].
  exact (proj2 (fromBase64Url_restores Samples.btoa (fun padded => padded)
                  Samples.twoBytes Htext)).
Defined.

End ShareFacts.
